(** * AceMock question-generation pipeline: a shallow embedding

    The development follows [services/geminiService.ts] and
    [services/externalSearch.ts]: the retry helper [callWithRetry], the
    enrichment phase [fetchExternalContext], the shard generator
    [generateBatchQuestions] with its answer normalizer, the text cleaner
    [cleanQuestionPrefix] and the scheduler, deduplicator and shuffle of
    [generateExamQuestions].

    JavaScript strings are sequences of UTF-16 code units; they are modelled
    as [list Z].  Regular expressions of the source carry no [u] flag, so
    they work on code units as well. *)

From Stdlib Require Import ZArith List String Ascii Bool Lia Permutation Sorted
  QArith Qround.
From Equations Require Import Equations.
Import ListNotations.
Open Scope Z_scope.
Set Warnings "-register-all".

(* ================================================================== *)
(** * JavaScript strings *)
(* ================================================================== *)

Module JS.

Definition jsstring := list Z.

(** Source literals are written in UTF-8 and decoded to UTF-16 code units. *)
Fixpoint utf8_decode (bs : list Z) : jsstring :=
  match bs with
  | [] => []
  | b0 :: tl =>
    if b0 <? 0x80 then b0 :: utf8_decode tl
    else if b0 <? 0xE0 then
      match tl with
      | b1 :: tl1 => ((b0 mod 0x20) * 0x40 + b1 mod 0x40) :: utf8_decode tl1
      | _ => []
      end
    else if b0 <? 0xF0 then
      match tl with
      | b1 :: b2 :: tl2 =>
        ((b0 mod 0x10) * 0x1000 + (b1 mod 0x40) * 0x40 + b2 mod 0x40)
          :: utf8_decode tl2
      | _ => []
      end
    else
      match tl with
      | b1 :: b2 :: b3 :: tl3 =>
        let cp := (b0 mod 0x08) * 0x40000 + (b1 mod 0x40) * 0x1000
                  + (b2 mod 0x40) * 0x40 + b3 mod 0x40 - 0x10000 in
        (0xD800 + cp / 0x400) :: (0xDC00 + cp mod 0x400) :: utf8_decode tl3
      | _ => []
      end
  end.

Definition js (s : string) : jsstring :=
  utf8_decode (map (fun a => Z.of_N (N_of_ascii a)) (list_ascii_of_string s)).

(** [===] on strings. *)
Fixpoint eqb (s t : jsstring) : bool :=
  match s, t with
  | [], [] => true
  | a :: s', b :: t' => (a =? b) && eqb s' t'
  | _, _ => false
  end.

(** [s.length]. *)
Definition len (s : jsstring) : Z := Z.of_nat (List.length s).

(** WhiteSpace and LineTerminator code units: what [trim] strips and what
    [\s] matches. *)
Definition isWhiteSpace (c : Z) : bool :=
  (c =? 0x09) || (c =? 0x0A) || (c =? 0x0B) || (c =? 0x0C) || (c =? 0x0D)
  || (c =? 0x20) || (c =? 0xA0) || (c =? 0x1680)
  || ((0x2000 <=? c) && (c <=? 0x200A))
  || (c =? 0x2028) || (c =? 0x2029) || (c =? 0x202F) || (c =? 0x205F)
  || (c =? 0x3000) || (c =? 0xFEFF).

Fixpoint dropWhile (p : Z -> bool) (s : jsstring) : jsstring :=
  match s with
  | [] => []
  | c :: s' => if p c then dropWhile p s' else s
  end.

Definition trimStart (s : jsstring) : jsstring := dropWhile isWhiteSpace s.
Definition trimEnd (s : jsstring) : jsstring :=
  rev (dropWhile isWhiteSpace (rev s)).
Definition trim (s : jsstring) : jsstring := trimEnd (trimStart s).

(** [s.startsWith(p)]. *)
Fixpoint startsWith (s p : jsstring) {struct p} : bool :=
  match p, s with
  | [], _ => true
  | _ :: _, [] => false
  | b :: p', a :: s' => (a =? b) && startsWith s' p'
  end.

(** [s.includes(sub)]. *)
Fixpoint includes (s sub : jsstring) : bool :=
  startsWith s sub
  || match s with
     | [] => false
     | _ :: s' => includes s' sub
     end.

(** [s.substring(0, n)]. *)
Definition substring0 (n : nat) (s : jsstring) : jsstring := firstn n s.

(** [s.split(/[class]/)] for a separator matching exactly one code unit. *)
Fixpoint splitOn (p : Z -> bool) (cur : jsstring) (s : jsstring)
  : list jsstring :=
  match s with
  | [] => [rev cur]
  | c :: s' => if p c then rev cur :: splitOn p [] s'
               else splitOn p (c :: cur) s'
  end.

Definition split (p : Z -> bool) (s : jsstring) : list jsstring :=
  splitOn p [] s.

End JS.

Import JS.

(* ================================================================== *)
(** * Regular expressions anchored at the start of the input *)
(* ================================================================== *)

(** The patterns of the source only repeat character classes, so the
    backtracking matcher is structural.  A continuation receives the rest of
    the input; alternatives are tried in the order a backtracking engine
    tries them (left alternative first, greedy repetition first). *)
Module Regex.

Inductive regex : Type :=
| Eps
| Chr (p : Z -> bool)
| Seq (a b : regex)
| Alt (a b : regex)
| Opt (a : regex)
| Star (p : Z -> bool).

Definition Plus (p : Z -> bool) : regex := Seq (Chr p) (Star p).

Section Matcher.
Context {R : Type}.

Fixpoint star (p : Z -> bool) (s : jsstring) (k : jsstring -> option R)
  : option R :=
  match s with
  | c :: s' =>
    if p c then
      match star p s' k with
      | Some r => Some r
      | None => k s
      end
    else k s
  | [] => k s
  end.

Fixpoint run (r : regex) (s : jsstring) (k : jsstring -> option R)
  : option R :=
  match r with
  | Eps => k s
  | Chr p =>
    match s with
    | c :: s' => if p c then k s' else None
    | [] => None
    end
  | Seq a b => run a s (fun s' => run b s' k)
  | Alt a b =>
    match run a s k with
    | Some x => Some x
    | None => run b s k
    end
  | Opt a =>
    match run a s k with
    | Some x => Some x
    | None => k s
    end
  | Star p => star p s k
  end.
End Matcher.

(** The rest of the input after the first match at position 0, if any. *)
Definition matchPrefix (r : regex) (s : jsstring) : option jsstring :=
  run r s Some.

(** [s.replace(/^r/, '')]. *)
Definition removePrefix (r : regex) (s : jsstring) : jsstring :=
  match matchPrefix r s with
  | Some rest => rest
  | None => s
  end.

(** Canonicalize of the [i] flag.  Every pattern character of the source is
    an ASCII character, a CJK ideograph or a CJK punctuation mark; for
    those, two code units have the same canonical form exactly when they
    agree up to ASCII letter case. *)
Definition canonicalize (c : Z) : Z :=
  if (0x61 <=? c) && (c <=? 0x7A) then c - 0x20 else c.

Definition sameChar (ignoreCase : bool) (x : Z) : Z -> bool :=
  fun c => if ignoreCase then canonicalize c =? canonicalize x else c =? x.

Fixpoint Lit (ignoreCase : bool) (s : jsstring) : regex :=
  match s with
  | [] => Eps
  | x :: s' => Seq (Chr (sameChar ignoreCase x)) (Lit ignoreCase s')
  end.

(** [(a|b|...)]. *)
Fixpoint AltOf (rs : list regex) : regex :=
  match rs with
  | [] => Chr (fun _ => false)
  | [r] => r
  | r :: rs' => Alt r (AltOf rs')
  end.

(** [[xyz]]: a class listing its members. *)
Definition oneOf (members : jsstring) : Z -> bool :=
  fun c => existsb (Z.eqb c) members.

(** [\d] and [\s]. *)
Definition digit (c : Z) : bool := (0x30 <=? c) && (c <=? 0x39).
Definition space : Z -> bool := isWhiteSpace.

Definition orClass (p q : Z -> bool) : Z -> bool := fun c => p c || q c.

End Regex.

Import Regex.

(* ================================================================== *)
(** * Text cleaner and fingerprint *)
(* ================================================================== *)

(** [/^(Q|Question|题目|问题|Case|案例|习题)\s*\d+[\s\.\:\：\-\u3001]*\s*/i] *)
Definition reLabelledNumber : regex :=
  Seq (AltOf (map (fun w => Lit true (js w))
                  ["Q"; "Question"; "题目"; "问题"; "Case"; "案例"; "习题"]%string))
 (Seq (Star space)
 (Seq (Plus digit)
 (Seq (Star (orClass space (oneOf (js ".:：-" ++ [0x3001]))))
      (Star space)))).

(** [/^[\(【\[]?\d+[\)\]】]?\s*[、\.\．\:\：\)\-\u3001]\s*/] *)
Definition reNumber : regex :=
  Seq (Opt (Chr (oneOf (js "(【["))))
 (Seq (Plus digit)
 (Seq (Opt (Chr (oneOf (js ")]】"))))
 (Seq (Star space)
 (Seq (Chr (oneOf (js "、.．:：)-" ++ [0x3001])))
      (Star space))))).

(** [/^①\s*/] *)
Definition reCircledOne : regex :=
  Seq (Lit false (js "①")) (Star space).

(** [/^(题目|问题|Question)[:：]\s*/i] *)
Definition reBareLabel : regex :=
  Seq (AltOf (map (fun w => Lit true (js w)) ["题目"; "问题"; "Question"]%string))
 (Seq (Chr (oneOf (js ":：")))
      (Star space)).

Definition cleanQuestionPrefix (text : jsstring) : jsstring :=
  let cleaned := trim text in
  let cleaned := removePrefix reLabelledNumber cleaned in
  let cleaned := removePrefix reNumber cleaned in
  let cleaned := removePrefix reCircledOne cleaned in
  let cleaned := removePrefix reBareLabel cleaned in
  trim cleaned.

(** The class [[一-龥a-zA-Z0-9]]. *)
Definition isFingerprintChar (c : Z) : bool :=
  ((0x4E00 <=? c) && (c <=? 0x9FA5))
  || ((0x61 <=? c) && (c <=? 0x7A))
  || ((0x41 <=? c) && (c <=? 0x5A))
  || ((0x30 <=? c) && (c <=? 0x39)).

(** [text.replace(/[^一-龥a-zA-Z0-9]/g, '')] *)
Definition fingerprint (text : jsstring) : jsstring :=
  filter isFingerprintChar text.

(* ================================================================== *)
(** * JSON values and [JSON.parse] *)
(* ================================================================== *)

Module Json.

(** A number is kept as its lexeme: no claim depends on its value. *)
Inductive json : Type :=
| JNull
| JBool (b : bool)
| JNumber (lexeme : jsstring)
| JString (s : jsstring)
| JArray (items : list json)
| JObject (members : list (jsstring * json)).

Inductive presult (A : Type) : Type :=
| POk (a : A) (rest : jsstring)
| PSyntaxError
| POutOfFuel.
Arguments POk {A} a rest.
Arguments PSyntaxError {A}.
Arguments POutOfFuel {A}.

(** JSON white space: space, tab, line feed, carriage return. *)
Definition isJsonWs (c : Z) : bool :=
  (c =? 0x20) || (c =? 0x09) || (c =? 0x0A) || (c =? 0x0D).

Definition skipWs (s : jsstring) : jsstring := dropWhile isJsonWs s.

Definition hexValue (c : Z) : option Z :=
  if (0x30 <=? c) && (c <=? 0x39) then Some (c - 0x30)
  else if (0x41 <=? c) && (c <=? 0x46) then Some (c - 0x41 + 10)
  else if (0x61 <=? c) && (c <=? 0x66) then Some (c - 0x61 + 10)
  else None.

Definition simpleEscape (c : Z) : option Z :=
  if c =? 0x22 then Some 0x22            (* quotation mark *)
  else if c =? 0x5C then Some 0x5C       (* reverse solidus *)
  else if c =? 0x2F then Some 0x2F       (* solidus *)
  else if c =? 0x62 then Some 0x08       (* b: backspace *)
  else if c =? 0x66 then Some 0x0C       (* f: form feed *)
  else if c =? 0x6E then Some 0x0A       (* n: line feed *)
  else if c =? 0x72 then Some 0x0D       (* r: carriage return *)
  else if c =? 0x74 then Some 0x09       (* t: tab *)
  else None.

(** The characters of a string literal, after its opening quote. *)
Fixpoint parseString (s : jsstring) (acc : jsstring)
  : option (jsstring * jsstring) :=
  match s with
  | [] => None
  | c :: r =>
    if c =? 0x22 then Some (rev acc, r)
    else if c =? 0x5C then
      match r with
      | [] => None
      | e :: r1 =>
        match simpleEscape e with
        | Some x => parseString r1 (x :: acc)
        | None =>
          if e =? 0x75 then
            match r1 with
            | h1 :: h2 :: h3 :: h4 :: r2 =>
              match hexValue h1, hexValue h2, hexValue h3, hexValue h4 with
              | Some a, Some b, Some c', Some d =>
                parseString r2 (a * 0x1000 + b * 0x100 + c' * 0x10 + d :: acc)
              | _, _, _, _ => None
              end
            | _ => None
            end
          else None
        end
      end
    else if c <? 0x20 then None
    else parseString r (c :: acc)
  end.

Fixpoint span (p : Z -> bool) (s : jsstring) : jsstring * jsstring :=
  match s with
  | c :: s' => if p c then let (a, b) := span p s' in (c :: a, b) else ([], s)
  | [] => ([], [])
  end.

(** An optional minus sign, an integer part without leading zero, an
    optional fraction and an optional exponent. *)
Definition parseNumber (s : jsstring) : option (jsstring * jsstring) :=
  let (sign, s1) := match s with
                    | c :: r => if c =? 0x2D then ([c], r) else ([], s)
                    | [] => ([], s)
                    end in
  let int := match s1 with
             | c :: r =>
               if c =? 0x30 then Some ([c], r)
               else if digit c then let (ds, r') := span digit r in Some (c :: ds, r')
               else None
             | [] => None
             end in
  match int with
  | None => None
  | Some (i, s2) =>
    let frac := match s2 with
                | c :: r =>
                  if c =? 0x2E then
                    match span digit r with
                    | ([], _) => None
                    | (ds, r') => Some (c :: ds, r')
                    end
                  else Some ([], s2)
                | [] => Some ([], s2)
                end in
    match frac with
    | None => None
    | Some (f, s3) =>
      let exp := match s3 with
                 | c :: r =>
                   if (c =? 0x65) || (c =? 0x45) then
                     let (sg, r1) := match r with
                                     | g :: r' => if (g =? 0x2B) || (g =? 0x2D)
                                                  then ([g], r') else ([], r)
                                     | [] => ([], r)
                                     end in
                     match span digit r1 with
                     | ([], _) => None
                     | (ds, r') => Some (c :: sg ++ ds, r')
                     end
                   else Some ([], s3)
                 | [] => Some ([], s3)
                 end in
      match exp with
      | None => None
      | Some (e, s4) => Some (sign ++ i ++ f ++ e, s4)
      end
    end
  end.

Fixpoint parseValue (fuel : nat) (s : jsstring) : presult json :=
  match fuel with
  | O => POutOfFuel
  | S fuel' =>
    match skipWs s with
    | [] => PSyntaxError
    | c :: r =>
      if c =? 0x5B then                                  (* [ *)
        match skipWs r with
        | c' :: r' => if c' =? 0x5D then POk (JArray []) r'
                      else parseElements fuel' r []
        | [] => PSyntaxError
        end
      else if c =? 0x7B then                             (* { *)
        match skipWs r with
        | c' :: r' => if c' =? 0x7D then POk (JObject []) r'
                      else parseMembers fuel' r []
        | [] => PSyntaxError
        end
      else if c =? 0x22 then
        match parseString r [] with
        | Some (str, r') => POk (JString str) r'
        | None => PSyntaxError
        end
      else if startsWith (c :: r) (js "true") then
        POk (JBool true) (skipn 4 (c :: r))
      else if startsWith (c :: r) (js "false") then
        POk (JBool false) (skipn 5 (c :: r))
      else if startsWith (c :: r) (js "null") then
        POk JNull (skipn 4 (c :: r))
      else
        match parseNumber (c :: r) with
        | Some (lexeme, r') => POk (JNumber lexeme) r'
        | None => PSyntaxError
        end
    end
  end

with parseElements (fuel : nat) (s : jsstring) (acc : list json)
  : presult json :=
  match fuel with
  | O => POutOfFuel
  | S fuel' =>
    match parseValue fuel' s with
    | POk v r =>
      match skipWs r with
      | c :: r' =>
        if c =? 0x2C then parseElements fuel' r' (v :: acc)
        else if c =? 0x5D then POk (JArray (rev (v :: acc))) r'
        else PSyntaxError
      | [] => PSyntaxError
      end
    | PSyntaxError => PSyntaxError
    | POutOfFuel => POutOfFuel
    end
  end

with parseMembers (fuel : nat) (s : jsstring) (acc : list (jsstring * json))
  : presult json :=
  match fuel with
  | O => POutOfFuel
  | S fuel' =>
    match skipWs s with
    | q :: r0 =>
      if q =? 0x22 then
        match parseString r0 [] with
        | Some (key, r1) =>
          match skipWs r1 with
          | colon :: r2 =>
            if colon =? 0x3A then
              match parseValue fuel' r2 with
              | POk v r =>
                match skipWs r with
                | c :: r' =>
                  if c =? 0x2C then parseMembers fuel' r' ((key, v) :: acc)
                  else if c =? 0x7D
                       then POk (JObject (rev ((key, v) :: acc))) r'
                  else PSyntaxError
                | [] => PSyntaxError
                end
              | PSyntaxError => PSyntaxError
              | POutOfFuel => POutOfFuel
              end
            else PSyntaxError
          | [] => PSyntaxError
          end
        | None => PSyntaxError
        end
      else PSyntaxError
    | [] => PSyntaxError
    end
  end.

(** [JSON.parse(text)]: [None] is the SyntaxError.  Every recursive call
    follows at least one consumed code unit, so the fuel is never used up
    (see [parse_fuel_enough]). *)
Definition parse (text : jsstring) : option json :=
  match parseValue (2 * List.length text + 1) text with
  | POk v rest =>
    match skipWs rest with
    | [] => Some v
    | _ :: _ => None
    end
  | _ => None
  end.

End Json.

Import Json.

(* ================================================================== *)
(** * Questions and the answer normalizer *)
(* ================================================================== *)

(** One raw record of the backend's structured reply. *)
Record RawQuestion : Type := {
  raw_type : jsstring;
  raw_questionText : jsstring;
  raw_options : option (list jsstring);
  raw_correctAnswer : json;
  raw_explanation : jsstring
}.

(** [id] is [`q-${Date.now()}-${batchIndex}-${index}`]. *)
Record QuestionId : Type := {
  id_now : Z;
  id_batchIndex : Z;
  id_index : Z
}.

Record Question : Type := {
  id : QuestionId;
  type : jsstring;
  questionText : jsstring;
  options : list jsstring;
  correctAnswer : json;
  explanation : jsstring
}.

Definition sequenceTypes : list jsstring :=
  map js ["MULTI_CHOICE"; "ORDERING"; "MATCHING"; "FILL_IN_BLANK"]%string.

(** The body of the inner [try] of the [map] callback of
    [generateBatchQuestions]. *)
Definition normalizeAnswer (qtype : jsstring) (answer : json) : json :=
  if existsb (eqb qtype) sequenceTypes then
    match answer with
    | JString s =>
      if startsWith (trim s) (js "[") || includes s (js ",") then
        match Json.parse s with
        | Some v => v
        | None =>
          JArray (map (fun piece => JString (trim piece))
                      (split (oneOf (js ",，、")) s))
        end
      else JArray [JString s]
    | _ => answer
    end
  else answer.

Definition mapQuestion (now batchIndex : Z) (index : nat) (q : RawQuestion)
  : Question :=
  {| id := {| id_now := now; id_batchIndex := batchIndex;
              id_index := Z.of_nat index |};
     type := raw_type q;
     questionText := raw_questionText q;
     options := match raw_options q with Some o => o | None => [] end;
     correctAnswer := normalizeAnswer (raw_type q) (raw_correctAnswer q);
     explanation := raw_explanation q |}.

(* ================================================================== *)
(** * Fingerprint deduplicator *)
(* ================================================================== *)

Definition MIN_LEN_FOR_FUZZY : Z := 10.
Definition prefixLen : nat := 15.

(** The inner [for (const existingFP of acceptedFingerprints)] loop. *)
Fixpoint isDuplicate (currentFingerprint : jsstring)
  (acceptedFingerprints : list jsstring) : bool :=
  match acceptedFingerprints with
  | [] => false
  | existingFP :: rest =>
    if eqb currentFingerprint existingFP then true
    else if (MIN_LEN_FOR_FUZZY <? len currentFingerprint)
            && (MIN_LEN_FOR_FUZZY <? len existingFP) then
      if includes currentFingerprint existingFP
         || includes existingFP currentFingerprint then true
      else if eqb (substring0 prefixLen currentFingerprint)
                  (substring0 prefixLen existingFP) then true
      else isDuplicate currentFingerprint rest
    else isDuplicate currentFingerprint rest
  end.

Definition setQuestionText (q : Question) (text : jsstring) : Question :=
  {| id := id q; type := type q; questionText := text;
     options := options q; correctAnswer := correctAnswer q;
     explanation := explanation q |}.

(** The outer [for (const q of questions)] loop. *)
Fixpoint dedupLoop (questions uniqueQuestions : list Question)
  (acceptedFingerprints : list jsstring) : list Question * list jsstring :=
  match questions with
  | [] => (uniqueQuestions, acceptedFingerprints)
  | q0 :: rest =>
    let q := setQuestionText q0 (cleanQuestionPrefix (questionText q0)) in
    let currentFingerprint := fingerprint (questionText q) in
    if len currentFingerprint =? 0 then
      dedupLoop rest uniqueQuestions acceptedFingerprints
    else if isDuplicate currentFingerprint acceptedFingerprints then
      dedupLoop rest uniqueQuestions acceptedFingerprints
    else
      dedupLoop rest (uniqueQuestions ++ [q])
                (acceptedFingerprints ++ [currentFingerprint])
  end.

Definition deduplicate (questions : list Question) : list Question :=
  fst (dedupLoop questions [] []).

(* ================================================================== *)
(** * Promises, errors and the retry helper *)
(* ================================================================== *)

(** What a rejected promise carries. *)
Inductive error : Type :=
| ServiceError (code : Z)
    (** thrown by a collaborator: the backend call, a search provider, or
        the parsing of a malformed structured reply *)
| NoTextError (batchNumber : Z).
    (** [new Error(`Batch ${batchIndex + 1} returned no text`)] *)

(** A settled promise. *)
Inductive outcome (T : Type) : Type :=
| Fulfilled (value : T)
| Rejected (reason : error).
Arguments Fulfilled {T} value.
Arguments Rejected {T} reason.

Inductive action : Type :=
| GenerateBatch (batchNumber : Z)     (** [`生成第 ${batchIndex + 1} 组题目`] *)
| OtherAction (name : jsstring).

(** The effects of [callWithRetry], in program order. *)
Inductive retryEvent : Type :=
| Invoked (call : nat)                       (** [await fn()] *)
| RetryLogged (actionName : action) (attempt : Z)   (** [onLog(msg)] *)
| Slept (delay : Q).                         (** [setTimeout(resolve, delay)] *)

(** [fn] is a thunk with effects: [fn k] is the outcome of its invocation
    number [k], and [calls] counts the invocations made so far. *)
Equations? callWithRetry {T : Type} (fn : nat -> outcome T)
  (actionName : action) (retries : Z) (delay : Q) (onLog : bool)
  (calls : nat) : list retryEvent * outcome T
  by wf (Z.to_nat retries) lt :=
callWithRetry fn actionName retries delay onLog calls with fn calls := {
  | Fulfilled value => ([Invoked calls], Fulfilled value)
  | Rejected error with Z_le_dec retries 0 := {
    | left _ => ([Invoked calls], Rejected error)
    | right _ =>
      let attempt := 4 - retries in
      let rest := callWithRetry fn actionName (retries - 1) (delay * 1.5)%Q
                                onLog (S calls) in
      (Invoked calls
         :: (if onLog then [RetryLogged actionName attempt] else [])
         ++ Slept delay :: fst rest,
       snd rest) } }.
Proof. lia. Qed.

Definition isInvoked (e : retryEvent) : bool :=
  match e with Invoked _ => true | _ => false end.

Definition invocations (trace : list retryEvent) : nat :=
  List.length (filter isInvoked trace).

Fixpoint sleeps (trace : list retryEvent) : list Q :=
  match trace with
  | [] => []
  | Slept d :: rest => d :: sleeps rest
  | _ :: rest => sleeps rest
  end.

(* ================================================================== *)
(** * Configuration, log stream and collaborators *)
(* ================================================================== *)

Inductive ShardingMode : Type := SERIAL | PARALLEL.

Inductive SearchEngine : Type :=
| google_native | baidu_search1 | google_serper | tavily.

(** [getBatchSize()], [getRequestDelay()], [getShardingMode()]. *)
Record Config : Type := {
  userBatchSize : Z;
  userRequestDelay : Z;
  shardingMode : ShardingMode
}.

Record Material : Type := {
  material_id : jsstring;
  name : jsstring;
  mimeType : jsstring;
  data : jsstring;
  size : Z
}.

(** The log lines of the source, with the values spliced into them. *)
Inductive message : Type :=
| MsgEngineStart
    (** [正在启动 AI 出题引擎...] *)
| MsgOnlineMode (engine : SearchEngine)
    (** [[联网模式] 正在调用: ${engineName}] *)
| MsgScanning
    (** [正在扫描文档以提取缺失知识点的检索关键词...] *)
| MsgSkipSearch
    (** [所需题型内容完整或无缺失，跳过联网检索步骤。] *)
| MsgKeywords (keywords : jsstring)
    (** [检索关键词(已过滤): 【${keywords}】] *)
| MsgSearching
    (** [正在发起 API 实时检索以补全缺失内容...] *)
| MsgSearchDone
    (** [联网检索完成，已获取补全参考资料] *)
| MsgSearchFailed
    (** [联网搜索接口调用失败，自动切换为纯文档模式。] *)
| MsgSharding
    (** [正在执行“复印机式”文档分片解析...] *)
| MsgConfig (batchSize total delay : Z) (mode : ShardingMode)
    (** [配置详情: 分片大小 .., 总片数 .., 间隔 ..ms, 模式 ..] *)
| MsgSerialWait (delay : Z)
    (** [串行间隔: 等待 ${userRequestDelay}ms...] *)
| MsgShardStart (number total : Z)
    (** [正在提取/生成分片 ${i + 1}/${batchCounts.length}...] *)
| MsgRetry (actionName : action) (attempt : Z)
    (** [API 请求失败 (${actionName})，正在进行第 ${attempt} 次重试...] *)
| MsgProgress (done count : Z)
    (** [已完成进度: ${questions.length} / ${count} 题] *)
| MsgParallelStart (delay total : Z)
    (** [正在以 ..ms 间隔错开启动 .. 个请求...] *)
| MsgShardLaunch (number total : Z)
    (** [启动分片 ${i + 1}/${batchCounts.length}...] *)
| MsgAllLaunched
    (** [所有分片已投递，正在等待 AI 响应汇总...] *)
| MsgDedupStart
    (** [所有分片生成完毕，正在进行智能清洗与去重...] *)
| MsgFiltered (dropped kept : Z)
    (** [已智能过滤 .. 道重复题目 (保留 .. 题)] *)
| MsgSuccess.
    (** [试卷生成成功！] *)

(** One call [onLog(message, progress)]. *)
Record LogEntry : Type := Log {
  log_message : message;
  log_progress : Z
}.

Definition progressOf (logs : list LogEntry) : list Z :=
  map log_progress logs.

(** The structured reply of the backend to one generation call:
    [response.text] and what [JSON.parse] and the schema make of it. *)
Inductive reply : Type :=
| ReplyNoText
| ReplyMalformed (thrown : error)
| ReplyQuestions (questions : list RawQuestion).

(** Everything the run receives from outside. *)
Record World : Type := {
  activeEngine : SearchEngine;
  (** [keywordResp.text] of the keyword extraction call *)
  keywordReply : outcome (option jsstring);
  (** the [searchContext] assembled from the search for the keywords *)
  searchReply : jsstring -> outcome jsstring;
  (** the generation call of shard [i], invocation [k] *)
  backend : nat -> nat -> outcome reply;
  (** [Date.now()] when question [index] of shard [i] is mapped *)
  clock : nat -> nat -> Z;
  (** PARALLEL: the instant at which the promise of shard [i] settles *)
  settleTime : nat -> nat;
  (** PARALLEL: the instant at which the launch loop ends and
      [Promise.all] is called; a promise whose [settleTime] is not after it
      is already settled then *)
  joinTime : nat;
  (** PARALLEL: retry log [k] of shard 0 arrives during the wait that
      precedes the launch of shard [arrival k]; when there is no such wait
      it arrives after all shards are launched *)
  arrival : nat -> nat;
  (** the successive values of [Math.random()] *)
  random : nat -> Q
}.

(* ================================================================== *)
(** * External context enricher *)
(* ================================================================== *)

(** [/^(关键词|Keywords)[:：]/i] *)
Definition reKeywordLabel : regex :=
  Seq (AltOf (map (fun w => Lit true (js w)) ["关键词"; "Keywords"]%string))
      (Chr (oneOf (js ":："))).

(** [keywordResp.text?.trim() || ""], then the label is stripped. *)
Definition extractKeywords (text : option jsstring) : jsstring :=
  let keywords := match text with
                  | Some t => trim t
                  | None => []
                  end in
  trim (removePrefix reKeywordLabel keywords).

Definition isNone (keywords : jsstring) : bool :=
  eqb keywords (js "NONE") || eqb keywords (js "None")
  || eqb keywords (js "none").

Definition isChattyCompleteness (keywords : jsstring) : bool :=
  (40 <? len keywords)
  && (includes keywords (js "完整") || includes keywords (js "提供")
      || includes keywords (js "没有缺失") || includes keywords (js "无需")).

(** [!keywords || isNone || isChattyCompleteness] *)
Definition nothingToSearch (keywords : jsstring) : bool :=
  (len keywords =? 0) || isNone keywords || isChattyCompleteness keywords.

Definition newline : jsstring := [0x0A].
Definition indent : jsstring := js "            ".

(** The template literal that wraps a non-empty [searchContext]. *)
Definition wrapContext (searchContext : jsstring) : jsstring :=
  newline ++ indent ++ newline
  ++ js "--- 外部网络参考资料 (优先使用此资料补全“略”或“无答案”的题目) ---"
  ++ newline ++ indent ++ searchContext
  ++ newline ++ indent ++ newline ++ js "--- 资料结束 ---" ++ newline
  ++ newline ++ indent.

Record Enrichment : Type := {
  enrich_logs : list LogEntry;
  (** whether the keyword extraction call was made *)
  enrich_scanned : bool;
  (** the keywords handed to the search step, when it runs *)
  enrich_searched : option jsstring;
  (** the returned context *)
  enrich_context : jsstring
}.

Definition fetchExternalContext (W : World) (materials : list Material)
  : Enrichment :=
  match materials with
  | [] => {| enrich_logs := []; enrich_scanned := false;
             enrich_searched := None; enrich_context := [] |}
  | _ :: _ =>
    let start := [Log (MsgOnlineMode (activeEngine W)) 12;
                  Log MsgScanning 15] in
    match keywordReply W with
    | Rejected _ =>
      {| enrich_logs := start ++ [Log MsgSearchFailed 25];
         enrich_scanned := true;
         enrich_searched := None; enrich_context := [] |}
    | Fulfilled text =>
      let keywords := extractKeywords text in
      if nothingToSearch keywords then
        {| enrich_logs := start ++ [Log MsgSkipSearch 20];
           enrich_scanned := true;
           enrich_searched := None; enrich_context := [] |}
      else
        let announce := [Log (MsgKeywords keywords) 18;
                         Log MsgSearching 20] in
        match searchReply W keywords with
        | Rejected _ =>
          {| enrich_logs := start ++ announce ++ [Log MsgSearchFailed 25];
             enrich_scanned := true;
             enrich_searched := Some keywords; enrich_context := [] |}
        | Fulfilled searchContext =>
          if 0 <? len searchContext then
            {| enrich_logs := start ++ announce ++ [Log MsgSearchDone 25];
               enrich_scanned := true;
               enrich_searched := Some keywords;
               enrich_context := wrapContext searchContext |}
          else
            {| enrich_logs := start ++ announce;
               enrich_scanned := true;
               enrich_searched := Some keywords; enrich_context := [] |}
        end
    end
  end.

(* ================================================================== *)
(** * Batch planner *)
(* ================================================================== *)

(** The [while (remaining > 0)] loop.  It does not terminate when the batch
    size is not positive; [None] is the loop still running when the fuel is
    used up. *)
Fixpoint planLoop (fuel : nat) (remaining userBatchSize : Z)
  (batchCounts : list Z) : option (list Z) :=
  if 0 <? remaining then
    match fuel with
    | O => None
    | S fuel' =>
      let currentBatch := Z.min remaining userBatchSize in
      planLoop fuel' (remaining - currentBatch) userBatchSize
               (batchCounts ++ [currentBatch])
    end
  else Some batchCounts.

(** [count] iterations are enough whenever the loop terminates. *)
Definition shardPlan (count userBatchSize : Z) : option (list Z) :=
  planLoop (Z.to_nat count) count userBatchSize [].

Definition sum (plan : list Z) : Z := fold_right Z.add 0 plan.

(** [ceil(count / shardSize)] for positive [shardSize]. *)
Definition ceilDiv (count shardSize : Z) : Z :=
  (count + shardSize - 1) / shardSize.

(* ================================================================== *)
(** * Shard generator *)
(* ================================================================== *)

(** The call through [callWithRetry] with 3 retries and 2000 ms, the check
    of [response.text], and the mapping of the raw records. *)
Definition generateBatchQuestions (fn : nat -> outcome reply)
  (now : nat -> Z) (batchIndex : nat) (onBatchLog : bool)
  : list retryEvent * outcome (list Question) :=
  let attempt :=
    callWithRetry fn (GenerateBatch (Z.of_nat batchIndex + 1)) 3 2000%Q
                  onBatchLog 0 in
  (fst attempt,
   match snd attempt with
   | Rejected e => Rejected e
   | Fulfilled ReplyNoText => Rejected (NoTextError (Z.of_nat batchIndex + 1))
   | Fulfilled (ReplyMalformed e) => Rejected e
   | Fulfilled (ReplyQuestions raws) =>
     Fulfilled
       (map (fun iq => mapQuestion (now (fst iq)) (Z.of_nat batchIndex)
                                   (fst iq) (snd iq))
            (combine (seq 0 (List.length raws)) raws))
   end).

(** The messages a shard hands to its [onBatchLog]. *)
Fixpoint retryMessages (trace : list retryEvent) : list message :=
  match trace with
  | [] => []
  | RetryLogged a n :: rest => MsgRetry a n :: retryMessages rest
  | _ :: rest => retryMessages rest
  end.

Definition shard (W : World) (i : nat)
  : list retryEvent * outcome (list Question) :=
  generateBatchQuestions (backend W i) (clock W i) i true.

(* ================================================================== *)
(** * Shard scheduler *)
(* ================================================================== *)

(** [Math.round(x)]: the integer nearest to [x], ties upwards. *)
Definition Math_round (x : Q) : Z := Qfloor (x + (1 # 2)).

(** [40 + Math.round(((i + 1) / batchCounts.length) * 50)], computed on
    rationals. *)
Definition progressAfter (i total : nat) : Z :=
  40 + Math_round ((inject_Z (Z.of_nat i + 1) / inject_Z (Z.of_nat total)) * 50).

(** SERIAL: the [for] loop from index [i] on, with [batches] the batch
    counts still to run. *)
Fixpoint serialLoop (W : World) (cfg : Config) (count : Z) (total : nat)
  (i : nat) (batches : list Z) (currentProgress : Z)
  (questions : list Question)
  : list LogEntry * outcome (list Question) :=
  match batches with
  | [] => ([], Fulfilled questions)
  | _ :: rest =>
    let wait :=
      if (0 <? Z.of_nat i) && (0 <? userRequestDelay cfg)
      then [Log (MsgSerialWait (userRequestDelay cfg)) currentProgress]
      else [] in
    let start :=
      [Log (MsgShardStart (Z.of_nat i + 1) (Z.of_nat total)) currentProgress] in
    let run := shard W i in
    let retries :=
      map (fun msg => Log msg currentProgress) (retryMessages (fst run)) in
    match snd run with
    | Rejected e => (wait ++ start ++ retries, Rejected e)
    | Fulfilled batchQuestions =>
      let questions' := questions ++ batchQuestions in
      let currentProgress' := progressAfter i total in
      let next := serialLoop W cfg count total (S i) rest currentProgress'
                             questions' in
      (wait ++ start ++ retries
         ++ Log (MsgProgress (Z.of_nat (List.length questions')) count)
                currentProgress'
         :: fst next,
       snd next)
    end
  end.

(** The retry messages of shard 0 with their ordinal. *)
Definition shard0Retries (W : World) : list (nat * message) :=
  let msgs := retryMessages (fst (shard W 0)) in
  combine (seq 0 (List.length msgs)) msgs.

(** Whether the wait before the launch of shard [j] exists. *)
Definition hasWait (cfg : Config) (total j : nat) : bool :=
  (0 <? Z.of_nat j) && (0 <? userRequestDelay cfg) && (j <? total)%nat.

(** The retry logs of shard 0 that arrive during the wait before the launch
    of shard [j]. *)
Definition arrivedDuring (W : World) (cfg : Config) (total j : nat)
  (currentProgress : Z) : list LogEntry :=
  if hasWait cfg total j then
    map (fun km => Log (snd km) currentProgress)
        (filter (fun km => (arrival W (fst km) =? j)%nat) (shard0Retries W))
  else [].

(** The retry logs of shard 0 that arrive after the launch loop; there is
    none when no shard is launched. *)
Definition arrivedLate (W : World) (cfg : Config) (total : nat)
  (currentProgress : Z) : list LogEntry :=
  match total with
  | O => []
  | S _ =>
    map (fun km => Log (snd km) currentProgress)
        (filter (fun km => negb (hasWait cfg total (arrival W (fst km))))
                (shard0Retries W))
  end.

(** PARALLEL: the launch loop.  Only shard 0 forwards its retry messages. *)
Fixpoint launchLoop (W : World) (cfg : Config) (total : nat) (i : nat)
  (batches : list Z) (currentProgress : Z)
  : list LogEntry * list (outcome (list Question)) :=
  match batches with
  | [] => ([], [])
  | _ :: rest =>
    let next := launchLoop W cfg total (S i) rest currentProgress in
    (arrivedDuring W cfg total i currentProgress
       ++ Log (MsgShardLaunch (Z.of_nat i + 1) (Z.of_nat total)) currentProgress
       :: fst next,
     snd (shard W i) :: snd next)
  end.

(** The rejection whose reaction runs first, scanning the promises from
    index [i]; [settle j] is the instant of the reaction to promise [j], and
    of two reactions at the same instant the one of lower index runs
    first. *)
Fixpoint firstRejection {T : Type} (settle : nat -> nat) (i : nat)
  (promises : list (outcome T)) (best : option (nat * error))
  : option (nat * error) :=
  match promises with
  | [] => best
  | Fulfilled _ :: rest => firstRejection settle (S i) rest best
  | Rejected e :: rest =>
    firstRejection settle (S i) rest
      (match best with
       | None => Some (i, e)
       | Some (j, _) => if (settle i <? settle j)%nat then Some (i, e) else best
       end)
  end.

Fixpoint values {T : Type} (promises : list (outcome T)) : list T :=
  match promises with
  | [] => []
  | Fulfilled v :: rest => v :: values rest
  | Rejected _ :: rest => values rest
  end.

(** When [Promise.all], called at the instant [join], reacts to promise
    [i]: it subscribes to the promises in index order, so the reactions to
    the promises that are already settled are queued at [join], in index
    order; the reaction to a promise that settles later is queued when it
    settles. *)
Definition reactionTime (settle : nat -> nat) (join : nat) (i : nat) : nat :=
  Nat.max (settle i) join.

(** [await Promise.all(promises)], called at the instant [join]: rejected
    with the reason of the rejection it reacts to first, which is, among the
    promises already rejected at [join], the one of lowest index, and
    otherwise the one that rejects first; fulfilled with all values in index
    order when none rejects. *)
Definition Promise_all {T : Type} (settle : nat -> nat) (join : nat)
  (promises : list (outcome T)) : outcome (list T) :=
  match firstRejection (reactionTime settle join) 0 promises None with
  | Some (_, e) => Rejected e
  | None => Fulfilled (values promises)
  end.

(** The instant of the join on the scale of [settleTime].  When the launch
    loop never waits, it runs without a pause from the first launch to the
    join, and no promise is settled by then. *)
Definition joinInstant (W : World) (cfg : Config) (total : nat) : nat :=
  if hasWait cfg total 1 then joinTime W else 0%nat.

Definition parallelRun (W : World) (cfg : Config) (batchCounts : list Z)
  (currentProgress : Z) : list LogEntry * outcome (list Question) :=
  let total := List.length batchCounts in
  let launched := launchLoop W cfg total 0 batchCounts currentProgress in
  (Log (MsgParallelStart (userRequestDelay cfg) (Z.of_nat total))
       currentProgress
     :: fst launched
     ++ Log MsgAllLaunched 80
     :: arrivedLate W cfg total currentProgress,
   match Promise_all (settleTime W) (joinInstant W cfg total)
                     (snd launched) with
   | Rejected e => Rejected e
   | Fulfilled results => Fulfilled (List.concat results)
   end).

(* ================================================================== *)
(** * Shuffle *)
(* ================================================================== *)

(** [array.sort(comparefn)].  The algorithm is the engine's; it is modelled
    as an insertion sort that asks [comparefn(x, y)] whether [x] goes
    before [y].  [comparefn] is [() => Math.random() - 0.5]; [k] counts the
    random numbers drawn so far. *)
Fixpoint insertRandom {A : Type} (rand : nat -> Q) (k : nat) (x : A)
  (sorted : list A) : list A * nat :=
  match sorted with
  | [] => ([x], k)
  | y :: rest =>
    if Qlt_le_dec (rand k - 0.5) 0 then (x :: y :: rest, S k)
    else let r := insertRandom rand (S k) x rest in (y :: fst r, snd r)
  end.

Fixpoint sortRandom {A : Type} (rand : nat -> Q) (k : nat) (l : list A)
  : list A * nat :=
  match l with
  | [] => ([], k)
  | x :: rest =>
    let r := sortRandom rand k rest in
    insertRandom rand (snd r) x (fst r)
  end.

(* ================================================================== *)
(** * The entry point *)
(* ================================================================== *)

Inductive runResult : Type :=
| Resolved (questions : list Question)
| Failed (reason : error)
| Hangs.  (** the planner loop never terminates *)

(** The questions gathered from the shards, before deduplication. *)
Definition gather (W : World) (cfg : Config) (count : Z)
  (batchCounts : list Z) : list LogEntry * outcome (list Question) :=
  let total := List.length batchCounts in
  match shardingMode cfg with
  | SERIAL => serialLoop W cfg count total 0 batchCounts 40 []
  | PARALLEL => parallelRun W cfg batchCounts 40
  end.

Definition generateExamQuestions (W : World) (cfg : Config)
  (materials : list Material) (count : Z) (shuffle : bool)
  : list LogEntry * runResult :=
  let opening :=
    Log MsgEngineStart 5
      :: enrich_logs (fetchExternalContext W materials)
      ++ [Log MsgSharding 30] in
  match shardPlan count (userBatchSize cfg) with
  | None => (opening, Hangs)
  | Some batchCounts =>
    let total := Z.of_nat (List.length batchCounts) in
    let config :=
      [Log (MsgConfig (userBatchSize cfg) total (userRequestDelay cfg)
                      (shardingMode cfg)) 35] in
    let gathered := gather W cfg count batchCounts in
    match snd gathered with
    | Rejected e => (opening ++ config ++ fst gathered, Failed e)
    | Fulfilled questions =>
      let uniqueQuestions := deduplicate questions in
      let dropped :=
        Z.of_nat (List.length questions)
        - Z.of_nat (List.length uniqueQuestions) in
      let closing :=
        Log MsgDedupStart 95
          :: (if (List.length uniqueQuestions <? List.length questions)%nat
              then [Log (MsgFiltered dropped
                           (Z.of_nat (List.length uniqueQuestions))) 98]
              else [])
          ++ [Log MsgSuccess 100] in
      (opening ++ config ++ fst gathered ++ closing,
       Resolved (if shuffle
                 then fst (sortRandom (random W) 0 uniqueQuestions)
                 else uniqueQuestions))
    end
  end.

(* ================================================================== *)
(** * Inputs of the worked examples *)
(* ================================================================== *)

(** The quotation mark, for JSON texts. *)
Definition quote : jsstring := [0x22].

Definition shortAnswer (text : jsstring) : Question :=
  {| id := {| id_now := 0; id_batchIndex := 0; id_index := 0 |};
     type := js "SHORT_ANSWER";
     questionText := text;
     options := [];
     correctAnswer := JString (js "略");
     explanation := [] |}.

Definition photosynthesis : list Question :=
  map shortAnswer
      [js "什么是光合作用？"; js "请问什么是光合作用？";
       js "完全不同的问题内容测试一下"].

(* ================================================================== *)
(** * Worlds of the worked examples *)
(* ================================================================== *)

Definition sampleMaterial : Material :=
  {| material_id := js "m1"; name := js "notes.pdf";
     mimeType := js "application/pdf"; data := js "JVBERi0="; size := 6 |}.

Definition rawShortAnswer (text : jsstring) : RawQuestion :=
  {| raw_type := js "SHORT_ANSWER"; raw_questionText := text;
     raw_options := None; raw_correctAnswer := JString (js "略");
     raw_explanation := [] |}.

(** The keyword extraction answers [NONE]; every generation call answers
    two questions at once. *)
Definition quietWorld : World :=
  {| activeEngine := google_native;
     keywordReply := Fulfilled (Some (js "NONE"));
     searchReply := fun _ => Fulfilled [];
     backend := fun _ _ =>
       Fulfilled (ReplyQuestions [rawShortAnswer (js "1. What is X?");
                                  rawShortAnswer (js "Q3: test")]);
     clock := fun _ _ => 0;
     settleTime := fun i => i;
     joinTime := 0;
     arrival := fun _ => 0%nat;
     random := fun _ => 0%Q |}.

Definition withKeywordReply (W : World) (r : outcome (option jsstring))
  : World :=
  {| activeEngine := activeEngine W; keywordReply := r;
     searchReply := searchReply W; backend := backend W; clock := clock W;
     settleTime := settleTime W; joinTime := joinTime W;
     arrival := arrival W; random := random W |}.

Definition withBackend (W : World) (b : nat -> nat -> outcome reply)
  : World :=
  {| activeEngine := activeEngine W; keywordReply := keywordReply W;
     searchReply := searchReply W; backend := b; clock := clock W;
     settleTime := settleTime W; joinTime := joinTime W;
     arrival := arrival W; random := random W |}.

(** The first invocation of every generation call fails, the second
    succeeds. *)
Definition flakyWorld : World :=
  withBackend quietWorld
    (fun i k => match k with
                | O => Rejected (ServiceError 503)
                | S _ => backend quietWorld i k
                end).

(** Shard 1 never succeeds; the others do at once. *)
Definition brokenShardWorld : World :=
  withBackend quietWorld
    (fun i k => match i with
                | 1%nat => Rejected (ServiceError (500 + Z.of_nat k))
                | _ => backend quietWorld i k
                end).

(** What the shard generator makes of [rawShortAnswer text] at [index]. *)
Definition shortAnswerFrom (it : Z * jsstring) : Question :=
  {| id := {| id_now := 0; id_batchIndex := 0; id_index := fst it |};
     type := js "SHORT_ANSWER";
     questionText := snd it;
     options := [];
     correctAnswer := JString (js "略");
     explanation := [] |}.

(** The timing of the PARALLEL mode set apart. *)
Definition withTiming (W : World) (settle : nat -> nat) (join : nat)
  : World :=
  {| activeEngine := activeEngine W; keywordReply := keywordReply W;
     searchReply := searchReply W; backend := backend W; clock := clock W;
     settleTime := settle; joinTime := join;
     arrival := arrival W; random := random W |}.

(** Shards 0 and 1 are answered without text, shard 1 first, and both
    before the launch loop ends; shard 2 is answered later.  On the scale
    of the instants the shards are launched at 0, 4 and 8. *)
Definition earlyFailuresWorld : World :=
  withTiming
    (withBackend quietWorld
       (fun i k => match i with
                   | 0%nat | 1%nat => Fulfilled ReplyNoText
                   | _ => backend quietWorld i k
                   end))
    (fun i => match i with 0%nat => 7 | 1%nat => 6 | _ => 12 end)%nat
    8%nat.

Definition smallBatches : Config :=
  {| userBatchSize := 2; userRequestDelay := 1000;
     shardingMode := PARALLEL |}.

Definition parallelConfig : Config :=
  {| userBatchSize := 10; userRequestDelay := 1000;
     shardingMode := PARALLEL |}.

Definition serialConfig : Config :=
  {| userBatchSize := 10; userRequestDelay := 1000;
     shardingMode := SERIAL |}.

(* ================================================================== *)
(** * Vocabulary of the statements *)
(* ================================================================== *)

(** [isSuffix x s]: [x] is what remains of [s] after a prefix is removed. *)
Definition isSuffix (x s : jsstring) : Prop := exists pre, s = pre ++ x.

(** A continuation that answers with a suffix of what it is given. *)
Definition answersSuffix (k : jsstring -> option jsstring) : Prop :=
  forall s x, k s = Some x -> isSuffix x s.

(** [contains s marker]: [marker] occurs in [s]. *)
Definition contains (s marker : jsstring) : Prop :=
  exists before after, s = before ++ marker ++ after.

(** When the enricher decides there is nothing to search for. *)
Definition unusableKeywords (keywords : jsstring) : Prop :=
  keywords = []
  \/ (keywords = js "NONE" \/ keywords = js "None" \/ keywords = js "none")
  \/ (40 < len keywords
      /\ (contains keywords (js "完整") \/ contains keywords (js "提供")
          \/ contains keywords (js "没有缺失")
          \/ contains keywords (js "无需"))).

(** [rises lo hi l]: the list [l] never decreases, starts at [lo] or above
    and ends at [hi] or below. *)
Fixpoint rises (lo hi : Z) (l : list Z) : Prop :=
  match l with
  | [] => lo <= hi
  | x :: rest => lo <= x /\ rises x hi rest
  end.

(** A normalized answer that is a sequence. *)
Definition isSequence (v : json) : Prop := exists items, v = JArray items.

(** The reaction to promise [a] runs no later than the one to promise [b]:
    at an earlier instant, or at the same instant with [a] of lower index. *)
Definition earlier (settle : nat -> nat) (a b : nat) : Prop :=
  (settle a < settle b)%nat \/ (settle a = settle b /\ (a <= b)%nat).

(* ================================================================== *)
(** * Vocabulary of the further properties *)
(* ================================================================== *)

(** The delays of [n] successive retries, the first one being [delay]. *)
Fixpoint backoff (delay : Q) (n : nat) : list Q :=
  match n with
  | O => []
  | S n' => delay :: backoff (delay * 1.5)%Q n'
  end.

(** The trace of a call whose first [failures] invocations are retried. *)
Fixpoint retryTrace (actionName : action) (onLog : bool) (retries : Z)
  (delay : Q) (calls : nat) (failures : nat) : list retryEvent :=
  match failures with
  | O => [Invoked calls]
  | S m =>
    Invoked calls
      :: (if onLog then [RetryLogged actionName (4 - retries)] else [])
      ++ Slept delay
      :: retryTrace actionName onLog (retries - 1) (delay * 1.5)%Q (S calls) m
  end.

(** All batches are [size], but for a last smaller one when [size] does not
    divide [count]. *)
Definition evenPlan (count size : Z) : list Z :=
  repeat size (Z.to_nat (count / size))
  ++ (if count mod size =? 0 then [] else [count mod size]).

(** Whether every match of the pattern takes at least one code unit. *)
Fixpoint consumes (r : regex) : bool :=
  match r with
  | Eps => false
  | Chr _ => true
  | Seq a b => consumes a || consumes b
  | Alt a b => consumes a && consumes b
  | Opt _ => false
  | Star _ => false
  end.

(** A code unit with which an enumeration or a label recognised by the
    cleaner can start: a digit, an opening bracket, the circled one, or the
    first letter of a label in either case. *)
Definition startsEnumeration (c : Z) : bool :=
  digit c || oneOf (js "QqCc题问案习(【[①") c.

(** The test of the current fingerprint against one accepted fingerprint, as
    the body of the inner loop of the deduplicator makes it: exact match, or,
    for two fingerprints longer than [MIN_LEN_FOR_FUZZY], inclusion either
    way or equal first [prefixLen] characters. *)
Definition similar (a b : jsstring) : bool :=
  eqb a b
  || ((MIN_LEN_FOR_FUZZY <? len a) && (MIN_LEN_FOR_FUZZY <? len b)
      && (includes a b || includes b a
          || eqb (substring0 prefixLen a) (substring0 prefixLen b))).

(** A question after [q.questionText = cleanQuestionPrefix(q.questionText)]. *)
Definition cleaned (q : Question) : Question :=
  setQuestionText q (cleanQuestionPrefix (questionText q)).

Definition fingerprintOf (q : Question) : jsstring :=
  fingerprint (questionText q).

(** [subsequence l1 l2]: [l1] is [l2] with some elements left out, the others
    in the same order. *)
Inductive subsequence {A : Type} : list A -> list A -> Prop :=
| sub_nil : subsequence [] []
| sub_skip (x : A) (l1 l2 : list A) :
    subsequence l1 l2 -> subsequence l1 (x :: l2)
| sub_keep (x : A) (l1 l2 : list A) :
    subsequence l1 l2 -> subsequence (x :: l1) (x :: l2).

(** The questions of shard [i], none when its promise rejects. *)
Definition shardQuestions (W : World) (i : nat) : list Question :=
  match snd (shard W i) with
  | Fulfilled questions => questions
  | Rejected _ => []
  end.

(** The questions of the first [total] shards, in shard order. *)
Definition allShards (W : World) (total : nat) : list Question :=
  List.concat (map (shardQuestions W) (seq 0 total)).


(** The lines [启动分片 i/n...] of a log. *)
Definition isShardLaunch (e : LogEntry) : bool :=
  match log_message e with
  | MsgShardLaunch _ _ => true
  | _ => false
  end.

Definition isRetryLine (e : LogEntry) : bool :=
  match log_message e with
  | MsgRetry _ _ => true
  | _ => false
  end.

(** What tells two identifiers of one run apart when the clock does not:
    [batchIndex] and [index] of [`q-${Date.now()}-${batchIndex}-${index}`]. *)
Definition idKey (q : Question) : Z * Z :=
  (id_batchIndex (id q), id_index (id q)).


(** [parts.join(sep)] for an array of strings. *)
Fixpoint joinWith (sep : jsstring) (parts : list jsstring) : jsstring :=
  match parts with
  | [] => []
  | [p] => p
  | p :: rest => p ++ sep ++ joinWith sep rest
  end.

(** A code unit that stands for itself in a JSON string literal. *)
Definition isPlain (c : Z) : bool :=
  (0x20 <=? c) && negb (c =? 0x22) && negb (c =? 0x5C).

(** A string literal whose characters stand for themselves. *)
Definition literal (s : jsstring) : jsstring := quote ++ s ++ quote.

(** The JSON text of an array of such literals, without white space. *)
Definition arrayText (items : list jsstring) : jsstring :=
  js "[" ++ joinWith (js ",") (map literal items) ++ js "]".



(* ================================================================== *)
(** * Numbers as text and the settings store *)
(* ================================================================== *)

(** The numbers that [parseInt] returns and that the settings dialog hands
    to the setters.  An integer stands for itself, which is exact below
    [2^53] in absolute value. *)
Inductive number : Type :=
| NaN
| Integer (n : Z).

(** The decimal digits of a non-negative integer, most significant first. *)
Fixpoint digitsOf (fuel : nat) (n : Z) (acc : jsstring) : jsstring :=
  match fuel with
  | O => acc
  | S fuel' =>
    let acc' := 0x30 + n mod 10 :: acc in
    if n <? 10 then acc' else digitsOf fuel' (n / 10) acc'
  end.

Definition decimal (n : Z) : jsstring :=
  digitsOf (S (Z.to_nat (Z.log2 n))) n [].

(** [x.toString()] *)
Definition numberToString (x : number) : jsstring :=
  match x with
  | NaN => js "NaN"
  | Integer n => if n <? 0 then js "-" ++ decimal (- n) else decimal n
  end.

Definition isDecimalDigit (c : Z) : Prop := 0x30 <= c <= 0x39.

(** The value of a digit in the given radix, 10 or 16. *)
Definition digitValue (radix : Z) (c : Z) : option Z :=
  match hexValue c with
  | Some v => if v <? radix then Some v else None
  | None => None
  end.

Definition isDigitOf (radix : Z) (c : Z) : bool :=
  match digitValue radix c with Some _ => true | None => false end.

Definition valueOfDigits (radix : Z) (digits : jsstring) : Z :=
  fold_left (fun acc c => acc * radix
                          + match digitValue radix c with
                            | Some v => v
                            | None => 0
                            end)
            digits 0.

(** An optional sign. *)
Definition signOf (s : jsstring) : Z * jsstring :=
  match s with
  | c :: r => if c =? 0x2D then (-1, r)
              else if c =? 0x2B then (1, r) else (1, s)
  | [] => (1, s)
  end.

(** An optional [0x] or [0X], which selects radix 16. *)
Definition radixOf (s : jsstring) : Z * jsstring :=
  match s with
  | z :: x :: r =>
    if (z =? 0x30) && ((x =? 0x78) || (x =? 0x58)) then (16, r) else (10, s)
  | _ => (10, s)
  end.

(** [parseInt(text)] without a radix: leading white space, a sign, a radix
    prefix, then the longest run of digits. *)
Definition parseInt (text : jsstring) : number :=
  let signed := signOf (trimStart text) in
  let prefixed := radixOf (snd signed) in
  match fst (span (isDigitOf (fst prefixed)) (snd prefixed)) with
  | [] => NaN
  | digits => Integer (fst signed * valueOfDigits (fst prefixed) digits)
  end.

Module Settings.

(** [localStorage]: [getItem] gives [null] for a missing key. *)
Definition Storage : Type := jsstring -> option jsstring.

Definition getItem (store : Storage) (key : jsstring) : option jsstring :=
  store key.

Definition setItem (store : Storage) (key value : jsstring) : Storage :=
  fun k => if eqb k key then Some value else store k.

(** [value || fallback] for a string or [null]. *)
Definition orElse (value : option jsstring) (fallback : jsstring)
  : jsstring :=
  match value with
  | Some (c :: s) => c :: s
  | _ => fallback
  end.

Definition STORAGE_PREFIX : jsstring := js "aceMock_key_".

Inductive SearchProvider : Type := baidu_search1 | google_serper | tavily.

Definition providerName (provider : SearchProvider) : jsstring :=
  match provider with
  | baidu_search1 => js "baidu_search1"
  | google_serper => js "google_serper"
  | tavily => js "tavily"
  end.

Definition getSearchKey (store : Storage) (provider : SearchProvider)
  : jsstring :=
  orElse (getItem store (STORAGE_PREFIX ++ providerName provider)) [].

Definition setSearchKey (store : Storage) (provider : SearchProvider)
  (key : jsstring) : Storage :=
  setItem store (STORAGE_PREFIX ++ providerName provider) key.

(** [val ? parseInt(val) : fallback] *)
Definition parsedOr (value : option jsstring) (fallback : Z) : number :=
  match value with
  | Some (c :: s) => parseInt (c :: s)
  | _ => Integer fallback
  end.

Definition getBatchSize (store : Storage) : number :=
  parsedOr (getItem store (js "aceMock_batch_size")) 10.

Definition setBatchSize (store : Storage) (size : number) : Storage :=
  setItem store (js "aceMock_batch_size") (numberToString size).

Definition getRequestDelay (store : Storage) : number :=
  parsedOr (getItem store (js "aceMock_request_delay")) 1000.

Definition setRequestDelay (store : Storage) (ms : number) : Storage :=
  setItem store (js "aceMock_request_delay") (numberToString ms).

(** The stored text is returned as it is, by a cast. *)
Definition getShardingMode (store : Storage) : jsstring :=
  orElse (getItem store (js "aceMock_sharding_mode")) (js "SERIAL").

Definition setShardingMode (store : Storage) (mode : jsstring) : Storage :=
  setItem store (js "aceMock_sharding_mode") mode.

Definition getActiveSearchEngine (store : Storage) : jsstring :=
  orElse (getItem store (js "aceMock_active_engine")) (js "google_native").

Definition setActiveSearchEngine (store : Storage) (engine : jsstring)
  : Storage :=
  setItem store (js "aceMock_active_engine") engine.

Definition sameProvider (p q : SearchProvider) : bool :=
  eqb (providerName p) (providerName q).

End Settings.

(** Where the model of the numbers is exact. *)
Definition safeInteger (x : number) : Prop :=
  match x with
  | NaN => True
  | Integer n => Z.abs n < 2 ^ 53
  end.

(* ================================================================== *)
(** * Search providers *)
(* ================================================================== *)

Module Search.

(** What a property access evaluates to, for a value born of JSON. *)
Inductive field : Type :=
| Undefined
| Value (v : json)
| BuiltinFunction.  (** a method found on a prototype *)

(** The property names that the providers read. *)
Inductive key : Type :=
| organic | results | title | link | snippet | description | url | content.

Definition keyName (k : key) : jsstring :=
  match k with
  | organic => js "organic"
  | results => js "results"
  | title => js "title"
  | link => js "link"
  | snippet => js "snippet"
  | description => js "description"
  | url => js "url"
  | content => js "content"
  end.

(** The last member of that name wins. *)
Fixpoint lookup (name : jsstring) (members : list (jsstring * json))
  (found : field) : field :=
  match members with
  | [] => found
  | (k, v) :: rest =>
    lookup name rest (if eqb k name then Value v else found)
  end.

(** [v.k]: [None] is the TypeError of a read on [null].  Of the names
    above the prototypes know only [link], a method of strings. *)
Definition get (v : json) (k : key) : option field :=
  match v with
  | JNull => None
  | JObject members => Some (lookup (keyName k) members Undefined)
  | JString _ =>
    Some (match k with link => BuiltinFunction | _ => Undefined end)
  | _ => Some Undefined
  end.

Record request : Type := {
  req_url : jsstring;
  req_headers : list (jsstring * jsstring);
  req_body : json   (** the object handed to [JSON.stringify] *)
}.

(** [await fetch(...)], then [response.ok] and [await response.json()];
    no body is a [json()] that rejects. *)
Inductive response : Type :=
| NetworkError
| Response (ok : bool) (body : option json).

(** What the functions take from outside. *)
Record Host : Type := {
  fetch : request -> response;
  (** whether the number of that lexeme is zero *)
  isZero : jsstring -> bool;
  (** the text of the number of that lexeme *)
  numberText : jsstring -> jsstring;
  (** the text of a built-in function *)
  functionText : jsstring
}.

Definition truthy (H : Host) (v : json) : bool :=
  match v with
  | JNull => false
  | JBool b => b
  | JNumber lexeme => negb (isZero H lexeme)
  | JString s => negb (len s =? 0)
  | JArray _ | JObject _ => true
  end.

Definition truthyField (H : Host) (f : field) : bool :=
  match f with
  | Undefined => false
  | Value v => truthy H v
  | BuiltinFunction => true
  end.

(** [a || b] *)
Definition orField (H : Host) (a b : field) : field :=
  if truthyField H a then a else b.

Record SearchResult : Type := {
  result_title : field;
  result_link : field;
  result_snippet : field
}.

(** [items.map(f)], where a call of [f] may throw. *)
Fixpoint mapItems (f : json -> option SearchResult) (items : list json)
  : option (list SearchResult) :=
  match items with
  | [] => Some []
  | item :: rest =>
    match f item, mapItems f rest with
    | Some r, Some rs => Some (r :: rs)
    | _, _ => None
    end
  end.

(** The elements of what is mapped: a value that is not an array has no
    [map]. *)
Definition elements (f : field) : option (list json) :=
  match f with
  | Value (JArray items) => Some items
  | _ => None
  end.

Definition contentType : jsstring * jsstring :=
  (js "Content-Type", js "application/json").

Definition baiduRequest (apiKey query : jsstring) : request :=
  {| req_url := js "https://api.search1api.com/search";
     req_headers := [contentType;
                     (js "Authorization", js "Bearer " ++ apiKey)];
     req_body := JObject [(js "query", JString query);
                          (js "service", JString (js "baidu"));
                          (js "gl", JString (js "cn"));
                          (js "hl", JString (js "zh-cn"))] |}.

Definition baiduItem (H : Host) (item : json) : option SearchResult :=
  match get item title, get item link, get item snippet,
        get item description with
  | Some t, Some l, Some s, Some d =>
    Some {| result_title := t; result_link := l;
            result_snippet :=
              orField H (orField H s d) (Value (JString [])) |}
  | _, _, _, _ => None
  end.

(** The body of the [try] once the reply is read. *)
Definition baiduResults (H : Host) (data : json)
  : option (list SearchResult) :=
  match get data organic, get data results with
  | Some o, Some r =>
    match elements (orField H (orField H o r) (Value (JArray []))) with
    | Some items => mapItems (baiduItem H) (firstn 5 items)
    | None => None
    end
  | _, _ => None
  end.

(** A provider function: the key, the request, the reading of the reply;
    every failure inside the [try] gives the empty list. *)
Definition provider (H : Host) (apiKey : jsstring) (req : request)
  (read : json -> option (list SearchResult))
  : list request * list SearchResult :=
  if len apiKey =? 0 then ([], [])
  else
    ([req],
     match fetch H req with
     | Response true (Some data) =>
       match read data with
       | Some found => found
       | None => []
       end
     | _ => []
     end).

Definition searchBaidu (H : Host) (store : Settings.Storage)
  (query : jsstring) : list request * list SearchResult :=
  let apiKey := Settings.getSearchKey store Settings.baidu_search1 in
  provider H apiKey (baiduRequest apiKey query) (baiduResults H).

Definition serperRequest (apiKey query : jsstring) : request :=
  {| req_url := js "https://google.serper.dev/search";
     req_headers := [(js "X-API-KEY", apiKey); contentType];
     req_body := JObject [(js "q", JString query);
                          (js "gl", JString (js "cn"));
                          (js "hl", JString (js "zh-cn"))] |}.

Definition serperItem (item : json) : option SearchResult :=
  match get item title, get item link, get item snippet with
  | Some t, Some l, Some s =>
    Some {| result_title := t; result_link := l; result_snippet := s |}
  | _, _, _ => None
  end.

Definition serperResults (H : Host) (data : json)
  : option (list SearchResult) :=
  match get data organic with
  | Some o =>
    match elements (orField H o (Value (JArray []))) with
    | Some items => mapItems serperItem (firstn 5 items)
    | None => None
    end
  | None => None
  end.

Definition searchGoogleSerper (H : Host) (store : Settings.Storage)
  (query : jsstring) : list request * list SearchResult :=
  let apiKey := Settings.getSearchKey store Settings.google_serper in
  provider H apiKey (serperRequest apiKey query) (serperResults H).

Definition tavilyRequest (apiKey query : jsstring) : request :=
  {| req_url := js "https://api.tavily.com/search";
     req_headers := [contentType];
     req_body := JObject [(js "api_key", JString apiKey);
                          (js "query", JString query);
                          (js "search_depth", JString (js "basic"));
                          (js "include_answer", JBool false);
                          (js "include_images", JBool false);
                          (js "include_raw_content", JBool false);
                          (js "max_results", JNumber (js "5"))] |}.

Definition tavilyItem (item : json) : option SearchResult :=
  match get item title, get item url, get item content with
  | Some t, Some l, Some s =>
    Some {| result_title := t; result_link := l; result_snippet := s |}
  | _, _, _ => None
  end.

Definition tavilyResults (H : Host) (data : json)
  : option (list SearchResult) :=
  match get data results with
  | Some r =>
    match elements (orField H r (Value (JArray []))) with
    | Some items => mapItems tavilyItem items
    | None => None
    end
  | None => None
  end.

Definition searchTavily (H : Host) (store : Settings.Storage)
  (query : jsstring) : list request * list SearchResult :=
  let apiKey := Settings.getSearchKey store Settings.tavily in
  provider H apiKey (tavilyRequest apiKey query) (tavilyResults H).

Definition testRequest (p : Settings.SearchProvider) (keyToUse : jsstring)
  : request :=
  match p with
  | Settings.baidu_search1 =>
    {| req_url := js "https://api.search1api.com/search";
       req_headers := [contentType;
                       (js "Authorization", js "Bearer " ++ keyToUse)];
       req_body := JObject [(js "query", JString (js "test"));
                            (js "service", JString (js "baidu"))] |}
  | Settings.google_serper =>
    {| req_url := js "https://google.serper.dev/search";
       req_headers := [(js "X-API-KEY", keyToUse); contentType];
       req_body := JObject [(js "q", JString (js "test"))] |}
  | Settings.tavily =>
    {| req_url := js "https://api.tavily.com/search";
       req_headers := [contentType];
       req_body := JObject [(js "api_key", JString keyToUse);
                            (js "query", JString (js "test"));
                            (js "max_results", JNumber (js "1"))] |}
  end.

(** [testKey || getSearchKey(provider)], then one request. *)
Definition testSearchConnection (H : Host) (store : Settings.Storage)
  (p : Settings.SearchProvider) (testKey : option jsstring)
  : list request * bool :=
  let keyToUse := Settings.orElse testKey (Settings.getSearchKey store p) in
  if len keyToUse =? 0 then ([], false)
  else
    ([testRequest p keyToUse],
     match fetch H (testRequest p keyToUse) with
     | Response ok _ => ok
     | NetworkError => false
     end).

(** A call that is guarded by a key: at most one request, none exactly
    when the key is empty, and then the empty answer. *)
Definition guarded {A : Type} (apiKey : jsstring) (nothing : A)
  (run : list request * A) : Prop :=
  (List.length (fst run) <= 1)%nat
  /\ (fst run = [] <-> apiKey = [])
  /\ (apiKey = [] -> snd run = nothing).

End Search.

(* ================================================================== *)
(** * Question answering *)
(* ================================================================== *)

Module Assistant.

(** One [ai.models.generateContent] call: the inline parts, the text, and
    whether the [googleSearch] tool is switched on. *)
Record aiRequest : Type := {
  ai_parts : list (jsstring * jsstring);   (** [mimeType], [data] *)
  ai_text : jsstring;
  ai_googleSearch : bool
}.

(** What the answering functions take from outside: the host of the search
    providers, the settings, and [response.text] of each generation call. *)
Record Services : Type := {
  host : Search.Host;
  storage : Settings.Storage;
  generateContent : aiRequest -> outcome (option jsstring)
}.

(** The calls that leave the application, in program order. *)
Inductive call : Type :=
| Fetched (req : Search.request)
| Generated (req : aiRequest).

(** All the values, unless one is missing. *)
Fixpoint allOf {A : Type} (l : list (option A)) : option (list A) :=
  match l with
  | [] => Some []
  | Some x :: rest =>
    match allOf rest with
    | Some xs => Some (x :: xs)
    | None => None
    end
  | None :: _ => None
  end.

(** [String(v)] for a value born of JSON; [None] is the TypeError for an
    object whose own [toString] member hides the method.  In a [join],
    [null] reads as the empty string. *)
Fixpoint toText (H : Search.Host) (v : json) : option jsstring :=
  match v with
  | JNull => Some (js "null")
  | JBool true => Some (js "true")
  | JBool false => Some (js "false")
  | JNumber lexeme => Some (Search.numberText H lexeme)
  | JString s => Some s
  | JArray items =>
    option_map (joinWith (js ","))
               (allOf (map (fun item => match item with
                                        | JNull => Some []
                                        | _ => toText H item
                                        end) items))
  | JObject members =>
    if existsb (fun member => eqb (fst member) (js "toString")) members
    then None
    else Some (js "[object Object]")
  end.

(** An element of [results.map(r => r.snippet)] inside [join]. *)
Definition snippetText (H : Search.Host) (r : Search.SearchResult)
  : option jsstring :=
  match Search.result_snippet r with
  | Search.Undefined => Some []
  | Search.Value JNull => Some []
  | Search.Value v => toText H v
  | Search.BuiltinFunction => Some (Search.functionText H)
  end.

(** [results.map(r => r.snippet).join('\n')] *)
Definition joinSnippets (H : Search.Host)
  (found : list Search.SearchResult) : option jsstring :=
  option_map (joinWith newline) (allOf (map (snippetText H) found)).

Definition noAnswerPhrase : jsstring := js "无法找到相关答案".

Definition documentPrompt (question : jsstring) : jsstring :=
  js "直接摘录文档原文回答问题，禁止总结。若文档中无答案，回复：‘根据参考材料，我无法找到相关答案。’"
  ++ newline ++ js "问题: " ++ quote ++ question ++ quote.

Definition askDocument (sv : Services) (materials : list Material)
  (question : jsstring) : list call * jsstring :=
  let req := {| ai_parts := map (fun m => (mimeType m, data m)) materials;
                ai_text := documentPrompt question;
                ai_googleSearch := false |} in
  ([Generated req],
   match generateContent sv req with
   | Fulfilled text => Settings.orElse text (js "无法生成回答。")
   | Rejected _ => js "出错了，请重试。"
   end).

(** The search of the chosen engine; the native engine searches nothing
    here. *)
Definition searchWith (sv : Services) (engine : SearchEngine)
  (question : jsstring)
  : option (list Search.request * list Search.SearchResult) :=
  match engine with
  | baidu_search1 => Some (Search.searchBaidu (host sv) (storage sv) question)
  | google_serper =>
    Some (Search.searchGoogleSerper (host sv) (storage sv) question)
  | tavily => Some (Search.searchTavily (host sv) (storage sv) question)
  | google_native => None
  end.

(** The body of the [try]: a throw while the snippets are joined is caught
    before the model is called. *)
Definition askWeb (sv : Services) (question : jsstring)
  (engine : SearchEngine) : list call * jsstring :=
  let searched := searchWith sv engine question in
  let fetched :=
    map Fetched (match searched with Some run => fst run | None => [] end) in
  let context :=
    match searched with
    | Some run =>
      option_map (app (js "根据搜索结果回答: "))
                 (joinSnippets (host sv) (snd run))
    | None => Some []
    end in
  match context with
  | None => (fetched, js "搜索失败。")
  | Some externalContext =>
    let req :=
      if 0 <? len externalContext
      then {| ai_parts := [];
              ai_text := externalContext ++ newline ++ js "问题: "
                         ++ question;
              ai_googleSearch := false |}
      else {| ai_parts := []; ai_text := question;
              ai_googleSearch := true |} in
    (fetched ++ [Generated req],
     match generateContent sv req with
     | Fulfilled text => Settings.orElse text (js "无法找到答案。")
     | Rejected _ => js "搜索失败。"
     end)
  end.

Definition askSmart (sv : Services) (materials : list Material)
  (question : jsstring) (engine : SearchEngine) : list call * jsstring :=
  let doc := askDocument sv materials question in
  if includes (snd doc) noAnswerPhrase then
    let web := askWeb sv question engine in
    (fst doc ++ fst web, snd web)
  else doc.

(** A call that suits the engine: the search providers are for the three
    external engines, the search tool of the model for the native one. *)
Definition suits (engine : SearchEngine) (c : call) : Prop :=
  match c with
  | Fetched _ => engine <> google_native
  | Generated req => ai_googleSearch req = true -> engine = google_native
  end.

End Assistant.

(* ================================================================== *)
(** * Strings: equality, substrings, suffixes *)
(* ================================================================== *)

Section StringFacts.

Lemma eqb_eq (s t : jsstring) : eqb s t = true <-> s = t.
Proof.
  revert t; induction s as [|a s IH]; intros [|b t]; simpl;
    try (split; [discriminate | congruence]); try tauto.
  rewrite andb_true_iff, Z.eqb_eq, IH.
  split; [intros [-> ->]; reflexivity | intros H; inversion H; auto].
Qed.

Lemma eqb_refl (s : jsstring) : eqb s s = true.
Proof. apply eqb_eq; reflexivity. Qed.

Lemma startsWith_spec (s p : jsstring) :
  startsWith s p = true <-> exists rest, s = p ++ rest.
Proof.
  revert s; induction p as [|b p IH]; intros s; simpl.
  - split; [intros _; exists s; reflexivity | reflexivity].
  - destruct s as [|a s].
    + split; [discriminate | intros [rest H]; discriminate].
    + rewrite andb_true_iff, Z.eqb_eq, IH. split.
      * intros [-> [rest ->]]. exists rest; reflexivity.
      * intros [rest H]. inversion H; subst. split; eauto.
Qed.

Lemma includes_spec (s sub : jsstring) :
  includes s sub = true <-> exists before after, s = before ++ sub ++ after.
Proof.
  induction s as [|a s IH].
  - simpl. rewrite orb_false_r, startsWith_spec. split.
    + intros [rest H]. exists [], rest. exact H.
    + intros [before [after H]]. destruct before as [|b before].
      * exists after. exact H.
      * discriminate.
  - cbn [includes]. rewrite orb_true_iff, startsWith_spec, IH. split.
    + intros [[rest H] | [before [after H]]].
      * exists [], rest. exact H.
      * exists (a :: before), after. simpl. rewrite H. reflexivity.
    + intros [before [after H]]. destruct before as [|b before].
      * left. exists after. exact H.
      * right. inversion H; subst. exists before, after. reflexivity.
Qed.

Lemma isSuffix_refl (s : jsstring) : isSuffix s s.
Proof. exists []; reflexivity. Qed.

Lemma isSuffix_trans (x y z : jsstring) :
  isSuffix x y -> isSuffix y z -> isSuffix x z.
Proof.
  intros [p ->] [q ->]. exists (q ++ p). rewrite app_assoc. reflexivity.
Qed.

Lemma isSuffix_cons (c : Z) (x s : jsstring) :
  isSuffix x s -> isSuffix x (c :: s).
Proof. intros [p ->]. exists (c :: p). reflexivity. Qed.

Lemma isSuffix_filter (f : Z -> bool) (x s : jsstring) :
  isSuffix x s -> isSuffix (filter f x) (filter f s).
Proof. intros [p ->]. exists (filter f p). apply filter_app. Qed.

Lemma filter_dropWhile (f p : Z -> bool) (s : jsstring) :
  (forall c, p c = true -> f c = false) ->
  filter f (dropWhile p s) = filter f s.
Proof.
  intros Hpf. induction s as [|c s IH]; simpl; [reflexivity|].
  destruct (p c) eqn:Hp; [|reflexivity].
  rewrite (Hpf c Hp). exact IH.
Qed.

End StringFacts.

(* ================================================================== *)
(** * The matcher only ever removes a prefix *)
(* ================================================================== *)

Section MatcherFacts.

Lemma star_suffix (p : Z -> bool) (s : jsstring) k x :
  answersSuffix k -> star p s k = Some x -> isSuffix x s.
Proof.
  intros Hk. induction s as [|c s IH]; simpl.
  - apply Hk.
  - destruct (p c); [|apply Hk].
    destruct (star p s k) as [y|] eqn:E.
    + intros H; inversion H; subst. apply isSuffix_cons, IH. reflexivity.
    + apply Hk.
Qed.

Lemma run_suffix (r : regex) : forall (s : jsstring) k x,
  answersSuffix k -> run r s k = Some x -> isSuffix x s.
Proof.
  induction r as [|p|a IHa b IHb|a IHa b IHb|a IHa|p]; intros s k x Hk; simpl.
  - apply Hk.
  - destruct s as [|c s]; [discriminate|].
    destruct (p c); [|discriminate].
    intros H. apply isSuffix_cons, Hk, H.
  - apply IHa. intros s' y. apply IHb, Hk.
  - destruct (run a s k) as [y|] eqn:E.
    + intros H; inversion H; subst. eapply IHa; eauto.
    + apply IHb, Hk.
  - destruct (run a s k) as [y|] eqn:E.
    + intros H; inversion H; subst. eapply IHa; eauto.
    + apply Hk.
  - apply star_suffix, Hk.
Qed.

Lemma removePrefix_suffix (r : regex) (s : jsstring) :
  isSuffix (removePrefix r s) s.
Proof.
  unfold removePrefix, matchPrefix.
  destruct (run r s Some) as [x|] eqn:E; [|apply isSuffix_refl].
  eapply run_suffix; [|exact E].
  intros s' y H; inversion H; subst. apply isSuffix_refl.
Qed.

End MatcherFacts.

(* ================================================================== *)
(** * Text cleaner and fingerprint: properties *)
(* ================================================================== *)

Section CleanerFacts.

Lemma whitespace_not_fingerprint (c : Z) :
  isWhiteSpace c = true -> isFingerprintChar c = false.
Proof.
  unfold isWhiteSpace, isFingerprintChar. intros H.
  repeat rewrite orb_true_iff in H. rewrite andb_true_iff in H.
  repeat rewrite Z.eqb_eq in H. repeat rewrite Z.leb_le in H.
  repeat rewrite orb_false_iff. repeat rewrite andb_false_iff.
  repeat rewrite Z.leb_gt. lia.
Qed.

Lemma fingerprint_trim (s : jsstring) : fingerprint (trim s) = fingerprint s.
Proof.
  unfold fingerprint, trim, trimEnd, trimStart.
  rewrite filter_rev, filter_dropWhile by apply whitespace_not_fingerprint.
  rewrite <- filter_rev, rev_involutive.
  apply filter_dropWhile, whitespace_not_fingerprint.
Qed.

(** Cleaning removes a prefix of the fingerprint and nothing else. *)
Lemma fingerprint_clean_suffix (text : jsstring) :
  isSuffix (fingerprint (cleanQuestionPrefix text)) (fingerprint text).
Proof.
  unfold cleanQuestionPrefix. rewrite fingerprint_trim.
  rewrite <- (fingerprint_trim text).
  apply isSuffix_filter.
  eapply isSuffix_trans; [apply removePrefix_suffix|].
  eapply isSuffix_trans; [apply removePrefix_suffix|].
  eapply isSuffix_trans; [apply removePrefix_suffix|].
  apply removePrefix_suffix.
Qed.

(** C6, as the code has it: the cleaner maps ["1. What is X?"] to
    ["What is X?"] and ["Q3: test"] to ["test"]; it strips a numeric prefix
    in ASCII parentheses, mapping ["(2)示例"] to ["示例"], and the bare
    labels, mapping ["题目：示例"] and ["Question: test"] to ["示例"] and
    ["test"]; the fullwidth parentheses of ["（2）示例"] are in no character
    class of the cleaner, and that text is returned unchanged. *)
Theorem cleanQuestionPrefix_examples :
  cleanQuestionPrefix (js "1. What is X?") = js "What is X?"
  /\ cleanQuestionPrefix (js "Q3: test") = js "test"
  /\ cleanQuestionPrefix (js "(2)示例") = js "示例"
  /\ cleanQuestionPrefix (js "题目：示例") = js "示例"
  /\ cleanQuestionPrefix (js "Question: test") = js "test"
  /\ cleanQuestionPrefix (js "（2）示例") = js "（2）示例".
Proof. repeat split; vm_compute; reflexivity. Qed.

(** C6 as stated fails: ["（2）示例"] is not mapped to ["示例"]. *)
Lemma cleanQuestionPrefix_fullwidth_kept :
  cleanQuestionPrefix (js "（2）示例") <> js "示例".
Proof. vm_compute. discriminate. Qed.

(** C7 as stated fails: cleaning ["1. 2. x"] once leaves ["2. x"] with
    fingerprint ["2x"], cleaning it twice leaves ["x"]. *)
Lemma fingerprint_clean_not_idempotent :
  cleanQuestionPrefix (js "1. 2. x") = js "2. x"
  /\ cleanQuestionPrefix (cleanQuestionPrefix (js "1. 2. x")) = js "x"
  /\ fingerprint (cleanQuestionPrefix (js "1. 2. x"))
     <> fingerprint (cleanQuestionPrefix (cleanQuestionPrefix (js "1. 2. x"))).
Proof.
  split; [vm_compute; reflexivity|].
  split; [vm_compute; reflexivity|].
  vm_compute. discriminate.
Qed.

End CleanerFacts.

(* ================================================================== *)
(** * Deduplicator: properties *)
(* ================================================================== *)

Section DedupFacts.

(** Against a single accepted fingerprint, the fuzzy rules are consulted
    only when both fingerprints are longer than [MIN_LEN_FOR_FUZZY]. *)
Lemma isDuplicate_short (fp existing : jsstring) :
  len fp <= MIN_LEN_FOR_FUZZY \/ len existing <= MIN_LEN_FOR_FUZZY ->
  isDuplicate fp [existing] = eqb fp existing.
Proof.
  intros H. simpl. destruct (eqb fp existing); [reflexivity|].
  replace ((MIN_LEN_FOR_FUZZY <? len fp) && (MIN_LEN_FOR_FUZZY <? len existing))
    with false; [reflexivity|].
  symmetry. apply andb_false_iff. rewrite !Z.ltb_ge. exact H.
Qed.

(** C1, as the code has it: for questions whose texts are
    ["什么是光合作用？"], ["请问什么是光合作用？"] and
    ["完全不同的问题内容测试一下"] in that order, the deduplicator accepts all
    three and returns them in order.  The fingerprints of the first two have
    7 and 9 characters and the first is included in the second, but the
    inclusion rule is consulted only when both fingerprints are longer than
    10 characters. *)
Theorem deduplicate_photosynthesis (q1 q2 q3 : Question) :
  let t1 := js "什么是光合作用？" in
  let t2 := js "请问什么是光合作用？" in
  let t3 := js "完全不同的问题内容测试一下" in
  deduplicate [setQuestionText q1 t1; setQuestionText q2 t2;
               setQuestionText q3 t3]
  = [setQuestionText q1 t1; setQuestionText q2 t2; setQuestionText q3 t3]
  /\ len (fingerprint (cleanQuestionPrefix t1)) = 7
  /\ len (fingerprint (cleanQuestionPrefix t2)) = 9
  /\ includes (fingerprint (cleanQuestionPrefix t2))
              (fingerprint (cleanQuestionPrefix t1)) = true.
Proof.
  destruct q1, q2, q3. repeat split; vm_compute; reflexivity.
Qed.

(** C1 as stated fails: the returned list is not the first and third
    questions only. *)
Lemma deduplicate_photosynthesis_keeps_second :
  deduplicate photosynthesis
  <> [shortAnswer (js "什么是光合作用？");
      shortAnswer (js "完全不同的问题内容测试一下")].
Proof. vm_compute. discriminate. Qed.

End DedupFacts.

(* ================================================================== *)
(** * Batch planner: properties *)
(* ================================================================== *)

Section PlannerFacts.

Lemma sum_app (a b : list Z) : sum (a ++ b) = sum a + sum b.
Proof. unfold sum. induction a as [|x a IH]; simpl; lia. Qed.

Lemma ceilDiv_zero (shardSize : Z) : 1 <= shardSize -> ceilDiv 0 shardSize = 0.
Proof. intros H. unfold ceilDiv. apply Z.div_small. lia. Qed.

Lemma ceilDiv_step (remaining shardSize : Z) :
  1 <= shardSize -> 0 < remaining ->
  ceilDiv remaining shardSize
  = 1 + ceilDiv (remaining - Z.min remaining shardSize) shardSize.
Proof.
  intros Hs Hr. destruct (Z.le_gt_cases remaining shardSize) as [Hle | Hgt].
  - rewrite Z.min_l, Z.sub_diag, ceilDiv_zero by lia.
    unfold ceilDiv. symmetry.
    apply (Z.div_unique _ _ _ (remaining - 1)); lia.
  - rewrite Z.min_r by lia. unfold ceilDiv.
    replace (remaining + shardSize - 1)
      with (remaining - shardSize + shardSize - 1 + 1 * shardSize) by lia.
    rewrite Z.div_add by lia. lia.
Qed.

Lemma planLoop_more_fuel (fuel : nat) : forall fuel' remaining size acc plan,
  (fuel <= fuel')%nat ->
  planLoop fuel remaining size acc = Some plan ->
  planLoop fuel' remaining size acc = Some plan.
Proof.
  induction fuel as [|fuel IH]; intros fuel' remaining size acc plan Hle.
  - simpl. destruct (0 <? remaining) eqn:E; [discriminate|].
    intros H. destruct fuel'; simpl; rewrite E; exact H.
  - destruct fuel' as [|fuel']; [lia|]. simpl.
    destruct (0 <? remaining); [|auto]. apply IH. lia.
Qed.

(** The loop invariant: what is still to be emitted. *)
Lemma planLoop_invariant (fuel : nat) : forall remaining size acc,
  1 <= size -> 0 <= remaining -> (Z.to_nat remaining <= fuel)%nat ->
  exists tail,
    planLoop fuel remaining size acc = Some (acc ++ tail)
    /\ sum tail = remaining
    /\ Z.of_nat (List.length tail) = ceilDiv remaining size
    /\ Forall (fun b => 1 <= b <= size) tail.
Proof.
  induction fuel as [|fuel IH]; intros remaining size acc Hs Hr Hfuel.
  - assert (remaining = 0) by lia. subst. exists []. simpl.
    rewrite app_nil_r, ceilDiv_zero by lia. auto.
  - simpl. destruct (0 <? remaining) eqn:E.
    + apply Z.ltb_lt in E.
      destruct (IH (remaining - Z.min remaining size) size
                   (acc ++ [Z.min remaining size]))
        as [tail [Hrun [Hsum [Hlen Hall]]]]; try lia.
      exists (Z.min remaining size :: tail).
      rewrite Hrun, <- app_assoc. simpl. repeat split.
      * unfold sum in *. simpl. lia.
      * rewrite (ceilDiv_step remaining size) by lia. lia.
      * constructor; [lia | exact Hall].
    + apply Z.ltb_ge in E. assert (remaining = 0) by lia. subst.
      exists []. rewrite app_nil_r, ceilDiv_zero by lia. simpl. auto.
Qed.


(** C2: for [count >= 1] and [shardSize >= 1] the planner loop terminates
    (within [count] iterations, and with the same plan however much fuel it
    is given beyond that); the plan sums to [count], has
    [ceil(count / shardSize)] elements, each in [[1, shardSize]]; and
    count 25 with shard size 10 gives [[10; 10; 5]]. *)
Theorem shardPlan_correct (count shardSize : Z) :
  1 <= count -> 1 <= shardSize ->
  exists plan,
    shardPlan count shardSize = Some plan
    /\ (forall fuel, (Z.to_nat count <= fuel)%nat ->
                     planLoop fuel count shardSize [] = Some plan)
    /\ sum plan = count
    /\ Z.of_nat (List.length plan) = ceilDiv count shardSize
    /\ Forall (fun b => 1 <= b <= shardSize) plan
    /\ shardPlan 25 10 = Some [10; 10; 5].
Proof.
  intros Hc Hs.
  destruct (planLoop_invariant (Z.to_nat count) count shardSize [] Hs)
    as [plan [Hrun [Hsum [Hlen Hall]]]]; try lia.
  simpl in Hrun. exists plan. unfold shardPlan. repeat split; auto.
  intros fuel Hfuel. eapply planLoop_more_fuel; eauto.
Qed.

Lemma shardPlan_correct_witness :
  exists plan,
    shardPlan 7 3 = Some plan
    /\ (forall fuel, (Z.to_nat 7 <= fuel)%nat ->
                     planLoop fuel 7 3 [] = Some plan)
    /\ sum plan = 7
    /\ Z.of_nat (List.length plan) = ceilDiv 7 3
    /\ Forall (fun b => 1 <= b <= 3) plan
    /\ shardPlan 25 10 = Some [10; 10; 5].
Proof. apply (shardPlan_correct 7 3); lia. Defined.

End PlannerFacts.

(* ================================================================== *)
(** * Retry helper: properties *)
(* ================================================================== *)

Section RetryFacts.

Context {T : Type}.
Variable fn : nat -> outcome T.
Variable actionName : action.

Lemma callWithRetry_fulfilled retries delay onLog calls value :
  fn calls = Fulfilled value ->
  callWithRetry fn actionName retries delay onLog calls
  = ([Invoked calls], Fulfilled value).
Proof. intros H. simp callWithRetry. rewrite H. reflexivity. Qed.

Lemma callWithRetry_exhausted retries delay onLog calls e :
  fn calls = Rejected e -> retries <= 0 ->
  callWithRetry fn actionName retries delay onLog calls
  = ([Invoked calls], Rejected e).
Proof.
  intros H Hr. simp callWithRetry. rewrite H. simpl.
  destruct (Z_le_dec retries 0); [reflexivity | lia].
Qed.

Lemma callWithRetry_retry retries delay onLog calls e :
  fn calls = Rejected e -> 0 < retries ->
  callWithRetry fn actionName retries delay onLog calls
  = (Invoked calls
       :: (if onLog then [RetryLogged actionName (4 - retries)] else [])
       ++ Slept delay
       :: fst (callWithRetry fn actionName (retries - 1) (delay * 1.5)%Q
                             onLog (S calls)),
     snd (callWithRetry fn actionName (retries - 1) (delay * 1.5)%Q
                        onLog (S calls))).
Proof.
  intros H Hr. rewrite callWithRetry_equation_1. rewrite H. simpl.
  destruct (Z_le_dec retries 0); [lia | reflexivity].
Qed.

End RetryFacts.

(** C4: when every invocation of the operation fails, [callWithRetry] with
    3 retries and initial delay [d] invokes it exactly 4 times, sleeps [d],
    [1.5 d] and [1.5 (1.5 d)] (that is [2.25 d]) between the invocations,
    each sleep before the retry it precedes, and rejects with the error of
    the last invocation itself. *)
Theorem callWithRetry_always_failing {T : Type} (fn : nat -> outcome T)
  (errors : nat -> error) (actionName : action) (d : Q) (onLog : bool) :
  (forall k, fn k = Rejected (errors k)) ->
  let run := callWithRetry fn actionName 3 d onLog 0 in
  let logged n := if onLog then [RetryLogged actionName n] else [] in
  fst run
  = Invoked 0 :: logged 1 ++ Slept d
      :: Invoked 1 :: logged 2 ++ Slept (d * 1.5)%Q
      :: Invoked 2 :: logged 3 ++ Slept (d * 1.5 * 1.5)%Q
      :: [Invoked 3]
  /\ invocations (fst run) = 4%nat
  /\ sleeps (fst run) = [d; d * 1.5; d * 1.5 * 1.5]%Q
  /\ (d * 1.5 * 1.5 == (9 # 4) * d)%Q
  /\ snd run = Rejected (errors 3%nat).
Proof.
  intros Hfail run logged.
  assert (Hrun : run
    = (Invoked 0 :: logged 1 ++ Slept d
         :: Invoked 1 :: logged 2 ++ Slept (d * 1.5)%Q
         :: Invoked 2 :: logged 3 ++ Slept (d * 1.5 * 1.5)%Q
         :: [Invoked 3],
       Rejected (errors 3%nat))).
  { unfold run.
    rewrite (callWithRetry_retry fn actionName 3 d onLog 0 (errors 0%nat))
      by (auto; lia).
    rewrite (callWithRetry_retry fn actionName (3 - 1) _ onLog 1
                                 (errors 1%nat)) by (auto; lia).
    rewrite (callWithRetry_retry fn actionName (3 - 1 - 1) _ onLog 2
                                 (errors 2%nat)) by (auto; lia).
    rewrite (callWithRetry_exhausted fn actionName (3 - 1 - 1 - 1) _ onLog 3
                                     (errors 3%nat)) by (auto; lia).
    reflexivity. }
  rewrite Hrun. unfold logged. simpl.
  repeat split; try (destruct onLog; reflexivity).
  ring.
Qed.

Lemma callWithRetry_always_failing_witness :
  let fn := fun k : nat => @Rejected nat (ServiceError (Z.of_nat k)) in
  let run := callWithRetry fn (GenerateBatch 1) 3 2000%Q true 0 in
  invocations (fst run) = 4%nat
  /\ sleeps (fst run) = [2000; 2000 * 1.5; 2000 * 1.5 * 1.5]%Q
  /\ snd run = Rejected (ServiceError 3).
Proof.
  intros fn run.
  destruct (callWithRetry_always_failing fn
              (fun k => ServiceError (Z.of_nat k)) (GenerateBatch 1)
              2000%Q true (fun k => eq_refl))
    as [_ [Hcalls [Hsleeps [_ Hresult]]]].
  repeat split; assumption.
Defined.

(* ================================================================== *)
(** * External context enricher: properties *)
(* ================================================================== *)

Section EnricherFacts.

Lemma nothingToSearch_spec (keywords : jsstring) :
  nothingToSearch keywords = true <-> unusableKeywords keywords.
Proof.
  unfold nothingToSearch, unusableKeywords, isNone, isChattyCompleteness,
    contains.
  rewrite !orb_true_iff, andb_true_iff, !orb_true_iff, !eqb_eq,
    !includes_spec, Z.eqb_eq, Z.ltb_lt.
  unfold len. split.
  - intros [[H | H] | H]; [left | right; left | right; right]; try tauto.
    destruct keywords; [reflexivity | simpl in H; lia].
  - intros [H | [H | H]]; [left; left | left; right | right]; try tauto.
    subst; reflexivity.
Qed.

(** C8, as the code has it: when the keyword extraction call returns, the
    enricher skips the search step and contributes an empty context exactly
    when the keyword string, trimmed and stripped of a leading
    [关键词:]/[Keywords:] label, is empty, is one of the three spellings
    [NONE], [None], [none], or is longer than 40 characters while
    containing one of the markers [完整], [提供], [没有缺失], [无需]. *)
Theorem enricher_skips_search (W : World) (m : Material)
  (materials : list Material) (text : option jsstring) :
  keywordReply W = Fulfilled text ->
  let enrichment := fetchExternalContext W (m :: materials) in
  (enrich_searched enrichment = None /\ enrich_context enrichment = [])
  <-> unusableKeywords (extractKeywords text).
Proof.
  intros Hreply. cbv zeta. rewrite <- nothingToSearch_spec.
  unfold fetchExternalContext. rewrite Hreply.
  destruct (nothingToSearch (extractKeywords text)); simpl.
  - tauto.
  - split; [|discriminate]. intros [H _].
    destruct (searchReply W (extractKeywords text)) as [ctx|e];
      [destruct (0 <? len ctx)|]; discriminate H.
Qed.

End EnricherFacts.

Section EnricherExamples.

Lemma enricher_skips_search_witness :
  let enrichment := fetchExternalContext quietWorld [sampleMaterial] in
  (enrich_searched enrichment = None /\ enrich_context enrichment = [])
  <-> unusableKeywords (extractKeywords (Some (js "NONE"))).
Proof.
  apply (enricher_skips_search quietWorld sampleMaterial []
                               (Some (js "NONE"))).
  reflexivity.
Defined.

(** C8 as stated fails: [nONE] equals [NONE] up to letter case, and the
    enricher searches for it. *)
Lemma enricher_searches_for_nONE :
  let W := withKeywordReply quietWorld (Fulfilled (Some (js "nONE"))) in
  map canonicalize (extractKeywords (Some (js "nONE")))
  = map canonicalize (js "NONE")
  /\ enrich_searched (fetchExternalContext W [sampleMaterial])
     = Some (js "nONE").
Proof. split; vm_compute; reflexivity. Qed.

End EnricherExamples.

(* ================================================================== *)
(** * [JSON.parse]: properties *)
(* ================================================================== *)

Section ParserFacts.

Lemma dropWhile_length (p : Z -> bool) (s : jsstring) :
  (List.length (dropWhile p s) <= List.length s)%nat.
Proof.
  induction s as [|c s IH]; simpl; [lia|]. destruct (p c); simpl; lia.
Qed.

Lemma skipWs_length (s : jsstring) :
  (List.length (skipWs s) <= List.length s)%nat.
Proof. apply dropWhile_length. Qed.

Lemma skipWs_cons_length (s : jsstring) (c : Z) (r : jsstring) :
  skipWs s = c :: r -> (List.length r < List.length s)%nat.
Proof. intros H. pose proof (skipWs_length s) as L. rewrite H in L. simpl in L. lia. Qed.

Lemma parseString_length (n : nat) : forall s acc x r,
  (List.length s <= n)%nat ->
  parseString s acc = Some (x, r) -> (List.length r < List.length s)%nat.
Proof.
  induction n as [|n IH]; intros s acc x r Hn.
  - destruct s; [discriminate | simpl in Hn; lia].
  - destruct s as [|c s]; [discriminate|]. simpl in Hn. cbn [parseString].
    destruct (c =? 0x22).
    + intros H; inversion H; subst. simpl. lia.
    + destruct (c =? 0x5C).
      * destruct s as [|e r1]; [discriminate|].
        destruct (simpleEscape e).
        -- intros H. apply IH in H; simpl in *; lia.
        -- destruct (e =? 0x75); [|discriminate].
           destruct r1 as [|h1 [|h2 [|h3 [|h4 r2]]]]; try discriminate.
           destruct (hexValue h1), (hexValue h2), (hexValue h3), (hexValue h4);
             try discriminate.
           intros H. apply IH in H; simpl in *; lia.
      * destruct (c <? 0x20); [discriminate|].
        intros H. apply IH in H; simpl in *; lia.
Qed.

Lemma span_length (p : Z -> bool) (s : jsstring) : forall a b,
  span p s = (a, b) -> (List.length a + List.length b = List.length s)%nat.
Proof.
  induction s as [|c s IH]; intros a b; simpl.
  - intros H; inversion H; reflexivity.
  - destruct (p c).
    + destruct (span p s) as [a1 b1]. intros H; inversion H; subst.
      specialize (IH a1 b eq_refl). simpl. lia.
    + intros H; inversion H; subst. simpl. lia.
Qed.

Lemma parseNumber_length (s lexeme r : jsstring) :
  parseNumber s = Some (lexeme, r) -> (List.length r < List.length s)%nat.
Proof.
  unfold parseNumber. intros H.
  repeat match goal with
         | Hx : context [match ?x with _ => _ end] |- _ =>
           destruct x eqn:?; cbn beta iota in Hx; try discriminate Hx
         end;
  repeat match goal with
         | E : span _ _ = (_, _) |- _ => apply span_length in E
         | E : Some _ = Some _ |- _ => inversion E; subst; clear E
         | E : (_, _) = (_, _) |- _ => inversion E; subst; clear E
         end;
  simpl in *; lia.
Qed.

Ltac break_matches :=
  repeat match goal with
         | Hx : context [match ?x with _ => _ end] |- _ =>
           destruct x eqn:?; cbn beta iota in Hx; try discriminate Hx
         end.

Ltac length_facts :=
  repeat match goal with
         | E : skipWs _ = _ :: _ |- _ => apply skipWs_cons_length in E
         | E : parseString _ _ = Some _ |- _ =>
           apply (parseString_length _ _ _ _ _ (le_n _)) in E
         | E : parseNumber _ = Some _ |- _ => apply parseNumber_length in E
         | E : POk _ (skipn ?n ?l) = POk _ ?r |- _ =>
           assert (List.length r = List.length l - n)%nat
             by (replace r with (skipn n l) by congruence;
                 apply length_skipn);
           clear E
         | E : POk _ _ = POk _ _ |- _ => injection E as ? ?; subst
         end.

(** A successful parse consumes at least one code unit. *)
Lemma parse_consumes (fuel : nat) :
  (forall s v r, parseValue fuel s = POk v r ->
                 (List.length r < List.length s)%nat)
  /\ (forall s acc v r, parseElements fuel s acc = POk v r ->
                        (List.length r < List.length s)%nat)
  /\ (forall s acc v r, parseMembers fuel s acc = POk v r ->
                        (List.length r < List.length s)%nat).
Proof.
  induction fuel as [|fuel [IHv [IHe IHm]]].
  - repeat split; intros; discriminate.
  - repeat split.
    + intros s v r H. cbn [parseValue] in H. break_matches.
      all: try (apply IHe in H); try (apply IHm in H); length_facts.
      all: simpl in *; lia.
    + intros s acc v r H. cbn [parseElements] in H. break_matches.
      all: try (apply IHe in H);
        repeat match goal with
               | E : parseValue _ _ = POk _ _ |- _ => apply IHv in E
               end; length_facts.
      all: simpl in *; lia.
    + intros s acc v r H. cbn [parseMembers] in H. break_matches.
      all: try (apply IHm in H);
        repeat match goal with
               | E : parseValue _ _ = POk _ _ |- _ => apply IHv in E
               end; length_facts.
      all: simpl in *; lia.
Qed.

Ltac consumed :=
  repeat match goal with
         | E : parseValue ?f _ = POk _ _ |- _ =>
           apply (proj1 (parse_consumes f)) in E
         end;
  length_facts.

(** Fuel twice the length of the text is never used up. *)
Lemma parse_fuel (fuel : nat) :
  (forall s, (2 * List.length s + 1 <= fuel)%nat ->
             parseValue fuel s <> POutOfFuel)
  /\ (forall s acc, (2 * List.length s + 2 <= fuel)%nat ->
                    parseElements fuel s acc <> POutOfFuel)
  /\ (forall s acc, (2 * List.length s + 2 <= fuel)%nat ->
                    parseMembers fuel s acc <> POutOfFuel).
Proof.
  induction fuel as [|fuel [IHv [IHe IHm]]].
  - repeat split; intros; lia.
  - repeat split.
    + intros s Hs H. cbn [parseValue] in H. break_matches. all: consumed.
      * eapply IHe; [|exact H]. simpl in *; lia.
      * eapply IHm; [|exact H]. simpl in *; lia.
    + intros s acc Hs H. cbn [parseElements] in H. break_matches.
      all: consumed.
      * eapply IHe; [|exact H]. simpl in *; lia.
      * eapply IHv; [|eassumption]. simpl in *; lia.
    + intros s acc Hs H. cbn [parseMembers] in H. break_matches.
      all: consumed.
      * eapply IHm; [|exact H]. simpl in *; lia.
      * eapply IHv; [|eassumption]. simpl in *; lia.
Qed.

Lemma parse_fuel_enough (text : jsstring) :
  parseValue (2 * List.length text + 1) text <> POutOfFuel.
Proof. apply (proj1 (parse_fuel _)). lia. Qed.

(** The elements loop only ever returns an array. *)
Lemma parseElements_array (fuel : nat) : forall s acc v r,
  parseElements fuel s acc = POk v r -> isSequence v.
Proof.
  induction fuel as [|fuel IH]; intros s acc v r H; [discriminate|].
  cbn [parseElements] in H. break_matches.
  - eapply IH; eauto.
  - injection H as <- _. eexists; reflexivity.
Qed.

(** A text whose first significant code unit is a bracket parses to an
    array or not at all. *)
Lemma parseValue_bracket (fuel : nat) (s rest : jsstring) v r :
  skipWs s = 0x5B :: rest ->
  parseValue fuel s = POk v r -> isSequence v.
Proof.
  intros Hs H. destruct fuel as [|fuel]; [discriminate|].
  cbn [parseValue] in H. rewrite Hs in H. cbn beta iota in H.
  change (0x5B =? 0x5B) with true in H. cbn beta iota in H.
  break_matches.
  - injection H as <- _. exists []; reflexivity.
  - eapply parseElements_array; eauto.
Qed.

(** A white space that is not JSON white space starts no JSON value. *)
Lemma parseValue_foreign_space (fuel : nat) (s rest : jsstring) (c : Z) v r :
  skipWs s = c :: rest -> isWhiteSpace c = true ->
  parseValue fuel s <> POk v r.
Proof.
  intros Hs Hc H. destruct fuel as [|fuel]; [discriminate|].
  cbn [parseValue] in H. rewrite Hs in H. cbn beta iota in H.
  assert (Hne : c <> 0x5B /\ c <> 0x7B /\ c <> 0x22 /\ c <> 0x74
                /\ c <> 0x66 /\ c <> 0x6E /\ c <> 0x2D
                /\ (c < 0x30 \/ 0x39 < c)).
  { unfold isWhiteSpace in Hc.
    repeat rewrite orb_true_iff in Hc. rewrite andb_true_iff in Hc.
    repeat rewrite Z.eqb_eq in Hc. repeat rewrite Z.leb_le in Hc. lia. }
  destruct Hne as [H1 [H2 [H3 [H4 [H5 [H6 [H7 H8]]]]]]].
  apply Z.eqb_neq in H1, H2, H3, H4, H5, H6, H7.
  rewrite H1, H2, H3 in H.
  assert (Ht : startsWith (c :: rest) (js "true") = false)
    by (change (js "true") with [0x74; 0x72; 0x75; 0x65]; cbn [startsWith];
        rewrite H4; reflexivity).
  assert (Hf : startsWith (c :: rest) (js "false") = false)
    by (change (js "false") with [0x66; 0x61; 0x6C; 0x73; 0x65];
        cbn [startsWith]; rewrite H5; reflexivity).
  assert (Hn : startsWith (c :: rest) (js "null") = false)
    by (change (js "null") with [0x6E; 0x75; 0x6C; 0x6C]; cbn [startsWith];
        rewrite H6; reflexivity).
  rewrite Ht, Hf, Hn in H.
  assert (Hnum : parseNumber (c :: rest) = None).
  { unfold parseNumber. rewrite H7.
    assert (H0 : (c =? 0x30) = false) by (apply Z.eqb_neq; lia).
    assert (Hd : digit c = false)
      by (unfold digit; apply andb_false_iff; rewrite !Z.leb_gt; lia).
    rewrite H0, Hd. reflexivity. }
  rewrite Hnum in H. discriminate H.
Qed.

Lemma trimEnd_prefix (t : jsstring) : exists suffix, t = trimEnd t ++ suffix.
Proof.
  unfold trimEnd.
  assert (H : forall l : jsstring,
             exists pre, l = pre ++ dropWhile isWhiteSpace l).
  { induction l as [|c l [pre IH]]; [exists []; reflexivity|]. simpl.
    destruct (isWhiteSpace c).
    - exists (c :: pre). simpl. rewrite <- IH. reflexivity.
    - exists []. reflexivity. }
  destruct (H (rev t)) as [pre Hpre]. exists (rev pre).
  rewrite <- rev_app_distr, <- Hpre, rev_involutive. reflexivity.
Qed.

(** When the trimmed text starts with a bracket, the parser sees the
    bracket first, or a white space outside the JSON grammar. *)
Lemma skipWs_of_trimmed_bracket (s : jsstring) :
  startsWith (trim s) (js "[") = true ->
  (exists rest, skipWs s = 0x5B :: rest)
  \/ (exists c rest, skipWs s = c :: rest /\ isWhiteSpace c = true).
Proof.
  intros H. apply startsWith_spec in H. destruct H as [x Hx].
  unfold trim in Hx. destruct (trimEnd_prefix (trimStart s)) as [suf Hsuf].
  rewrite Hx in Hsuf. change (js "[") with [0x5B] in Hsuf. simpl in Hsuf.
  clear Hx. unfold trimStart in Hsuf. revert Hsuf.
  induction s as [|c s IH]; simpl; [discriminate|].
  destruct (isWhiteSpace c) eqn:Hc.
  - intros Hs. unfold skipWs. simpl. destruct (isJsonWs c).
    + apply IH, Hs.
    + right. exists c, s. auto.
  - intros Hs. injection Hs as -> _. left. exists s. reflexivity.
Qed.

(** A bracketed text that parses, parses to an array. *)
Lemma parse_bracket_array (s : jsstring) (v : json) :
  startsWith (trim s) (js "[") = true -> Json.parse s = Some v ->
  isSequence v.
Proof.
  intros Hb Hp. unfold Json.parse in Hp.
  destruct (parseValue (2 * List.length s + 1) s) as [v' r| |] eqn:E;
    try discriminate Hp.
  assert (v' = v) by (destruct (skipWs r); congruence). subst v'.
  destruct (skipWs_of_trimmed_bracket s Hb) as [[rest Hs] | [c [rest [Hs Hc]]]].
  - eapply parseValue_bracket; eauto.
  - exfalso. eapply parseValue_foreign_space; eauto.
Qed.

(** X19: for the four sequence types the normalizer turns a string answer
    into a sequence, unless the answer has a comma, no leading bracket, and
    is a JSON text of its own: then it yields the parsed value, whatever
    its kind. *)
Lemma normalizeAnswer_sequence (qtype s : jsstring) :
  existsb (eqb qtype) sequenceTypes = true ->
  isSequence (normalizeAnswer qtype (JString s))
  \/ (startsWith (trim s) (js "[") = false
      /\ includes s (js ",") = true
      /\ exists v, Json.parse s = Some v
                   /\ normalizeAnswer qtype (JString s) = v).
Proof.
  intros Ht. unfold normalizeAnswer. rewrite Ht.
  destruct (startsWith (trim s) (js "[")) eqn:Hb; simpl.
  - left. destruct (Json.parse s) as [v|] eqn:Hp.
    + eapply parse_bracket_array; eauto.
    + eexists; reflexivity.
  - destruct (includes s (js ",")) eqn:Hc.
    + destruct (Json.parse s) as [v|] eqn:Hp.
      * right. repeat split; eauto.
      * left. eexists; reflexivity.
    + left. eexists; reflexivity.
Qed.

End ParserFacts.

(* ================================================================== *)
(** * Answer normalizer: properties *)
(* ================================================================== *)

Section NormalizerFacts.

(** For the other types the answer is left as it is. *)
Lemma normalizeAnswer_other_type (qtype : jsstring) (answer : json) :
  existsb (eqb qtype) sequenceTypes = false ->
  normalizeAnswer qtype answer = answer.
Proof. intros H. unfold normalizeAnswer. rewrite H. reflexivity. Qed.

(** The three examples of the specification. *)
Lemma normalizeAnswer_examples :
  normalizeAnswer (js "MULTI_CHOICE")
    (JString (js "[" ++ quote ++ js "A" ++ quote ++ js ","
                     ++ quote ++ js "B" ++ quote ++ js "]"))
  = JArray [JString (js "A"); JString (js "B")]
  /\ normalizeAnswer (js "MULTI_CHOICE") (JString (js "A,B"))
     = JArray [JString (js "A"); JString (js "B")]
  /\ normalizeAnswer (js "MULTI_CHOICE") (JString (js "A"))
     = JArray [JString (js "A")].
Proof. repeat split; vm_compute; reflexivity. Qed.

(** A bare string without comma and bracket is wrapped. *)
Lemma normalizeAnswer_bare (qtype s : jsstring) :
  existsb (eqb qtype) sequenceTypes = true ->
  startsWith (trim s) (js "[") = false -> includes s (js ",") = false ->
  normalizeAnswer qtype (JString s) = JArray [JString s].
Proof.
  intros Ht Hb Hc. unfold normalizeAnswer. rewrite Ht, Hb, Hc. reflexivity.
Qed.

(** A string that is not JSON is split on the three separators. *)
Lemma normalizeAnswer_fallback (qtype s : jsstring) :
  existsb (eqb qtype) sequenceTypes = true ->
  startsWith (trim s) (js "[") || includes s (js ",") = true ->
  Json.parse s = None ->
  normalizeAnswer qtype (JString s)
  = JArray (map (fun piece => JString (trim piece))
                (split (oneOf (js ",，、")) s)).
Proof.
  intros Ht Hb Hp. unfold normalizeAnswer. rewrite Ht, Hb, Hp. reflexivity.
Qed.

Lemma mapQuestion_all (now : nat -> Z) (batchIndex : Z)
  (raws : list RawQuestion) : forall start,
  let questions :=
    map (fun iq => mapQuestion (now (fst iq)) batchIndex (fst iq) (snd iq))
        (combine (seq start (List.length raws)) raws) in
  List.length questions = List.length raws
  /\ map type questions = map raw_type raws
  /\ map questionText questions = map raw_questionText raws.
Proof.
  induction raws as [|r raws IH]; intros start; simpl; [auto|].
  destruct (IH (S start)) as [Hl [Ht Hq]]. simpl in *.
  rewrite Hl, Ht, Hq. auto.
Qed.

(** The shard generator keeps one question per raw record. *)
Lemma generateBatchQuestions_keeps_all fn now batchIndex onBatchLog raws :
  snd (callWithRetry fn (GenerateBatch (Z.of_nat batchIndex + 1)) 3 2000%Q
                     onBatchLog 0)
  = Fulfilled (ReplyQuestions raws) ->
  exists questions,
    snd (generateBatchQuestions fn now batchIndex onBatchLog)
    = Fulfilled questions
    /\ List.length questions = List.length raws
    /\ map type questions = map raw_type raws
    /\ map questionText questions = map raw_questionText raws.
Proof.
  intros H. unfold generateBatchQuestions. simpl. rewrite H.
  eexists; split; [reflexivity|]. apply mapQuestion_all.
Qed.

(** C3 at the input where the code departs from it: a multi-choice answer
    that is itself a JSON string literal holding a comma is parsed
    successfully, and the normalizer returns the string inside the literal,
    not a sequence. *)
Theorem normalizeAnswer_quoted_string :
  let answer := normalizeAnswer (js "MULTI_CHOICE")
                                (JString (quote ++ js "A,B" ++ quote)) in
  existsb (eqb (js "MULTI_CHOICE")) sequenceTypes = true
  /\ answer = JString (js "A,B")
  /\ ~ isSequence answer.
Proof.
  split; [reflexivity|]. split; [vm_compute; reflexivity|].
  intros [items H]. vm_compute in H. discriminate H.
Qed.

End NormalizerFacts.

(* ================================================================== *)
(** * Shuffle: properties *)
(* ================================================================== *)

Section ShuffleFacts.

Context {A : Type}.
Variable rand : nat -> Q.

Lemma insertRandom_perm (x : A) (sorted : list A) : forall k,
  Permutation (x :: sorted) (fst (insertRandom rand k x sorted)).
Proof.
  induction sorted as [|y rest IH]; intros k; simpl.
  - apply Permutation_refl.
  - destruct (Qlt_le_dec (rand k - 0.5) 0); simpl.
    + apply Permutation_refl.
    + eapply Permutation_trans; [apply perm_swap|].
      apply perm_skip, IH.
Qed.

(** Whatever the comparator answers, sorting only reorders. *)
Lemma sortRandom_perm (l : list A) : forall k,
  Permutation l (fst (sortRandom rand k l)).
Proof.
  induction l as [|x rest IH]; intros k; simpl.
  - apply Permutation_refl.
  - eapply Permutation_trans; [apply perm_skip, (IH k)|].
    apply insertRandom_perm.
Qed.

End ShuffleFacts.

(* ================================================================== *)
(** * Scheduler and entry point: properties *)
(* ================================================================== *)

Section SchedulerFacts.

Lemma nth_error_map_seq {B : Type} (f : nat -> B) (n : nat) : forall i k,
  nth_error (map f (seq i n)) k
  = if (k <? n)%nat then Some (f (i + k)%nat) else None.
Proof.
  induction n as [|n IH]; intros i k; simpl.
  - destruct k; reflexivity.
  - destruct k as [|k]; simpl.
    + rewrite Nat.add_0_r. reflexivity.
    + rewrite IH. replace (S i + k)%nat with (i + S k)%nat by lia.
      reflexivity.
Qed.

Lemma launchLoop_outcomes (W : World) (cfg : Config) (total : nat)
  (batches : list Z) : forall i currentProgress,
  snd (launchLoop W cfg total i batches currentProgress)
  = map (fun j => snd (shard W j)) (seq i (List.length batches)).
Proof.
  induction batches as [|b rest IH]; intros i p; simpl;
    [reflexivity | rewrite IH; reflexivity].
Qed.

(** What the scan for the first rejection returns. *)
Lemma firstRejection_spec {T : Type} (settle : nat -> nat)
  (promises : list (outcome T)) : forall i best,
  (forall j0 e0, best = Some (j0, e0) -> (j0 < i)%nat) ->
  match firstRejection settle i promises best with
  | None =>
    best = None /\ forall k e, nth_error promises k <> Some (Rejected e)
  | Some (j, e) =>
    (best = Some (j, e)
     \/ exists k, j = (i + k)%nat /\ nth_error promises k = Some (Rejected e))
    /\ (forall j0 e0, best = Some (j0, e0) -> earlier settle j j0)
    /\ (forall k e', nth_error promises k = Some (Rejected e') ->
                     earlier settle j (i + k))
  end.
Proof.
  unfold earlier.
  induction promises as [|p rest IH]; intros i best Hbefore; simpl.
  - destruct best as [[j e]|].
    + split; [left; reflexivity|]. split.
      * intros j0 e0 H; inversion H; subst. lia.
      * intros [|k] e' H; discriminate H.
    + split; [reflexivity|]. intros [|k] e H; discriminate H.
  - destruct p as [v|e0].
    + specialize (IH (S i) best).
      destruct (firstRejection settle (S i) rest best) as [[j e]|].
      * destruct IH as [Hwho [Hbest Hmin]];
          [intros j0 e0 H; specialize (Hbefore j0 e0 H); lia|].
        split; [|split].
        -- destruct Hwho as [H | [k [Hj Hk]]]; [left; exact H|].
           right. exists (S k). split; [lia | exact Hk].
        -- exact Hbest.
        -- intros [|k] e' H; [discriminate H|]. simpl in H.
           replace (i + S k)%nat with (S i + k)%nat by lia. eauto.
      * destruct IH as [Hbest Hnone];
          [intros j0 e0 H; specialize (Hbefore j0 e0 H); lia|].
        split; [exact Hbest|].
        intros [|k] e H; [discriminate H | exact (Hnone k e H)].
    + match goal with
      | |- context [firstRejection settle (S i) rest ?b] =>
        specialize (IH (S i) b); set (best' := b) in *
      end.
      assert (Hbefore' : forall j0 e00, best' = Some (j0, e00) ->
                                        (j0 < S i)%nat).
      { intros j0 e00 H. subst best'. destruct best as [[j1 e1]|].
        - destruct (settle i <? settle j1)%nat.
          + inversion H; subst. lia.
          + specialize (Hbefore j0 e00 H). lia.
        - inversion H; subst. lia. }
      specialize (IH Hbefore').
      destruct (firstRejection settle (S i) rest best') as [[j e]|].
      * destruct IH as [Hwho [Hbest Hmin]].
        assert (Hi : (settle j < settle i)%nat
                     \/ (settle j = settle i /\ (j <= i)%nat)).
        { subst best'. destruct best as [[j0 e00]|].
          - destruct (settle i <? settle j0)%nat eqn:E.
            + apply (Hbest i e0). reflexivity.
            + apply Nat.ltb_ge in E.
              specialize (Hbest j0 e00 eq_refl).
              specialize (Hbefore j0 e00 eq_refl). lia.
          - apply (Hbest i e0). reflexivity. }
        split; [|split].
        -- destruct Hwho as [H | [k [Hj Hk]]].
           ++ subst best'. destruct best as [[j0 e00]|].
              ** destruct (settle i <? settle j0)%nat.
                 --- inversion H; subst. right. exists 0%nat.
                     split; [lia | reflexivity].
                 --- left. exact H.
              ** inversion H; subst. right. exists 0%nat.
                 split; [lia | reflexivity].
           ++ right. exists (S k). split; [lia | exact Hk].
        -- intros j0 e00 H. subst best' best.
           specialize (Hbefore j0 e00 eq_refl).
           destruct (settle i <? settle j0)%nat eqn:E.
           ++ apply Nat.ltb_lt in E. lia.
           ++ apply (Hbest j0 e00). reflexivity.
        -- intros [|k] e' H.
           ++ rewrite Nat.add_0_r. exact Hi.
           ++ simpl in H. replace (i + S k)%nat with (S i + k)%nat by lia.
              eauto.
      * destruct IH as [Hbest _]. subst best'.
        destruct best as [[j0 e00]|];
          [destruct (settle i <? settle j0)%nat|]; discriminate Hbest.
Qed.

(** [Promise.all] rejects with the reason of the rejection it reacts to
    first, and fulfils only when no promise rejects. *)
Lemma Promise_all_spec {T : Type} (settle : nat -> nat) (join : nat)
  (promises : list (outcome T)) :
  match Promise_all settle join promises with
  | Rejected e =>
    exists j, nth_error promises j = Some (Rejected e)
              /\ forall k e', nth_error promises k = Some (Rejected e') ->
                              earlier (reactionTime settle join) j k
  | Fulfilled vs =>
    vs = values promises
    /\ forall k e, nth_error promises k <> Some (Rejected e)
  end.
Proof.
  unfold Promise_all.
  pose proof (firstRejection_spec (reactionTime settle join) promises 0 None)
    as H.
  destruct (firstRejection (reactionTime settle join) 0 promises None)
    as [[j e]|].
  - destruct H as [[H | [k [Hj Hk]]] [_ Hmin]];
      [intros j0 e0 H0; discriminate H0 | discriminate H |].
    simpl in Hj; subst k. exists j. split; [exact Hk|].
    intros k e' Hk'. apply (Hmin k e' Hk').
  - destruct H as [_ H]; [intros j0 e0 H0; discriminate H0|].
    split; [reflexivity | exact H].
Qed.

End SchedulerFacts.

(* ================================================================== *)
(** * Progress stream: properties *)
(* ================================================================== *)

Section ProgressFacts.

Lemma rises_bounds lo hi l : rises lo hi l -> lo <= hi.
Proof.
  revert lo; induction l as [|x l IH]; intros lo; simpl; [auto|].
  intros [H1 H2]. specialize (IH x H2). lia.
Qed.

Lemma rises_weaken lo lo' hi hi' l :
  lo' <= lo -> hi <= hi' -> rises lo hi l -> rises lo' hi' l.
Proof.
  revert lo lo'; induction l as [|x l IH]; intros lo lo' Hlo Hhi; simpl.
  - lia.
  - intros [H1 H2]. split; [lia|]. apply (IH x x); auto; lia.
Qed.

Lemma rises_app lo mid hi l1 l2 :
  rises lo mid l1 -> rises mid hi l2 -> rises lo hi (l1 ++ l2).
Proof.
  revert lo; induction l1 as [|x l1 IH]; intros lo; simpl.
  - intros H1 H2. apply (rises_weaken mid lo hi hi); auto; lia.
  - intros [H1 H2] H3. split; [exact H1 | apply IH; assumption].
Qed.

Lemma rises_const c l : (forall x, In x l -> x = c) -> rises c c l.
Proof.
  induction l as [|x l IH]; simpl; intros H; [lia|].
  assert (x = c) by (apply H; auto). subst x.
  split; [lia | apply IH; auto].
Qed.

Lemma rises_Forall lo hi l : rises lo hi l -> Forall (fun x => lo <= x <= hi) l.
Proof.
  revert lo; induction l as [|x l IH]; intros lo; simpl; [constructor|].
  intros [H1 H2]. pose proof (rises_bounds _ _ _ H2).
  constructor; [lia|].
  eapply Forall_impl; [|apply (IH x H2)]. simpl. intros; lia.
Qed.

Lemma rises_sorted lo hi l : rises lo hi l -> StronglySorted Z.le l.
Proof.
  revert lo; induction l as [|x l IH]; intros lo; simpl; [constructor|].
  intros [H1 H2]. constructor; [apply (IH x H2)|].
  eapply Forall_impl; [|apply (rises_Forall _ _ _ H2)]. simpl. intros; lia.
Qed.

Lemma progressAfter_lower i total : 40 <= progressAfter i total.
Proof.
  unfold progressAfter, Math_round.
  assert (0 <= Qfloor (inject_Z (Z.of_nat i + 1) / inject_Z (Z.of_nat total)
                       * 50 + (1 # 2))); [|lia].
  change 0 with (Qfloor 0). apply Qfloor_resp_le.
  apply Qle_trans with (0 + 0)%Q; [apply Qle_refl|].
  apply Qplus_le_compat; [|discriminate].
  apply Qmult_le_0_compat; [|discriminate].
  apply Qmult_le_0_compat.
  - change 0%Q with (inject_Z 0). rewrite <- Zle_Qle. lia.
  - apply Qinv_le_0_compat. change 0%Q with (inject_Z 0). rewrite <- Zle_Qle. lia.
Qed.

Lemma progressAfter_mono i j total : (i <= j)%nat -> progressAfter i total <= progressAfter j total.
Proof.
  intros Hij. unfold progressAfter, Math_round.
  apply Zplus_le_compat_l, Qfloor_resp_le, Qplus_le_compat; [|apply Qle_refl].
  apply Qmult_le_compat_r; [|discriminate].
  apply Qmult_le_compat_r.
  - rewrite <- Zle_Qle. lia.
  - apply Qinv_le_0_compat. change 0%Q with (inject_Z 0). rewrite <- Zle_Qle. lia.
Qed.

Lemma progressAfter_upper i total : (i < total)%nat -> progressAfter i total <= 90.
Proof.
  intros Hi. unfold progressAfter, Math_round.
  assert (Qfloor (inject_Z (Z.of_nat i + 1) / inject_Z (Z.of_nat total)
                  * 50 + (1 # 2)) <= 50); [|lia].
  change 50 with (Qfloor (1 * 50 + (1 # 2))) at 2. apply Qfloor_resp_le.
  apply Qplus_le_compat; [|apply Qle_refl].
  apply Qmult_le_compat_r; [|discriminate].
  apply Qle_shift_div_r.
  - change 0%Q with (inject_Z 0). rewrite <- Zlt_Qlt. lia.
  - rewrite Qmult_1_l. rewrite <- Zle_Qle. lia.
Qed.

(** In a sorted list, neighbours are in order. *)
Lemma sorted_adjacent (before : list Z) (x y : Z) (after : list Z) :
  StronglySorted Z.le (before ++ x :: y :: after) -> x <= y.
Proof.
  induction before as [|b before IH]; simpl; intros H;
    apply StronglySorted_inv in H; destruct H as [H Hall].
  - apply Forall_inv in Hall. exact Hall.
  - apply IH, H.
Qed.

Lemma progressOf_app a b : progressOf (a ++ b) = progressOf a ++ progressOf b.
Proof. apply map_app. Qed.

Lemma serialLoop_rises W cfg count total (batches : list Z) :
  forall i currentProgress questions,
  (i + List.length batches = total)%nat ->
  40 <= currentProgress <= 90 ->
  (forall j, (i <= j < total)%nat -> currentProgress <= progressAfter j total) ->
  rises currentProgress 90
        (progressOf (fst (serialLoop W cfg count total i batches
                                     currentProgress questions))).
Proof.
  induction batches as [|b rest IH]; intros i cp qs Hlen Hcp Hnext.
  - simpl. lia.
  - cbn [serialLoop].
    set (wait := if (0 <? Z.of_nat i) && (0 <? userRequestDelay cfg)
                 then [Log (MsgSerialWait (userRequestDelay cfg)) cp] else []).
    set (start := [Log (MsgShardStart (Z.of_nat i + 1) (Z.of_nat total)) cp]).
    set (retries := map (fun msg => Log msg cp) (retryMessages (fst (shard W i)))).
    assert (Hhead : rises cp cp (progressOf (wait ++ start ++ retries))).
    { apply rises_const. intros x Hx. unfold progressOf in Hx.
      apply in_map_iff in Hx. destruct Hx as [e [<- He]].
      rewrite !in_app_iff in He. destruct He as [He | [He | He]].
      - subst wait. destruct ((0 <? Z.of_nat i) && (0 <? userRequestDelay cfg));
          [destruct He as [<- | []]; reflexivity | destruct He].
      - destruct He as [<- | []]; reflexivity.
      - subst retries. apply in_map_iff in He. destruct He as [m [<- _]].
        reflexivity. }
    simpl in Hlen.
    destruct (snd (shard W i)) as [batchQuestions|e].
    + cbn [fst].
      set (done := Log (MsgProgress (Z.of_nat (List.length (qs ++ batchQuestions)))
                                    count) (progressAfter i total)).
      set (next := serialLoop W cfg count total (S i) rest
                              (progressAfter i total) (qs ++ batchQuestions)).
      replace (wait ++ start ++ retries ++ done :: fst next)
        with ((wait ++ start ++ retries) ++ done :: fst next)
        by (rewrite <- !app_assoc; reflexivity).
      rewrite progressOf_app. apply (rises_app cp cp 90); [exact Hhead|].
      subst done next. simpl. split; [apply Hnext; lia|].
      apply IH; [lia | | ].
      * split; [apply progressAfter_lower | apply progressAfter_upper; lia].
      * intros j Hj. apply progressAfter_mono. lia.
    + cbn [fst]. apply (rises_weaken cp cp cp 90); [lia | lia | exact Hhead].
Qed.

Lemma enrich_logs_rise W materials :
  rises 5 25 (progressOf (enrich_logs (fetchExternalContext W materials))).
Proof.
  unfold fetchExternalContext. destruct materials as [|m ms]; [simpl; lia|].
  destruct (keywordReply W) as [text|e]; [|simpl; lia].
  destruct (nothingToSearch (extractKeywords text)); [simpl; lia|].
  destruct (searchReply W (extractKeywords text)) as [ctx|e]; [|simpl; lia].
  destruct (0 <? len ctx); simpl; lia.
Qed.

Lemma arrivedDuring_progress W cfg total j cp e :
  In e (arrivedDuring W cfg total j cp) -> log_progress e = cp.
Proof.
  unfold arrivedDuring. destruct (hasWait cfg total j); [|intros []].
  intros H. apply in_map_iff in H. destruct H as [km [<- _]]. reflexivity.
Qed.

Lemma launchLoop_progress W cfg total (batches : list Z) : forall i cp e,
  In e (fst (launchLoop W cfg total i batches cp)) -> log_progress e = cp.
Proof.
  induction batches as [|b rest IH]; intros i cp e; simpl; [intros []|].
  rewrite in_app_iff. intros [H | [H | H]].
  - eapply arrivedDuring_progress; eauto.
  - subst e. reflexivity.
  - eapply IH; eauto.
Qed.

Lemma parallelRun_range W cfg batchCounts :
  Forall (fun p => 40 <= p <= 80)
         (progressOf (fst (parallelRun W cfg batchCounts 40))).
Proof.
  apply Forall_forall. intros p Hp. unfold progressOf in Hp.
  apply in_map_iff in Hp. destruct Hp as [e [<- He]].
  unfold parallelRun in He. cbn [fst] in He.
  destruct He as [<- | He]; [simpl; lia|].
  apply in_app_iff in He. destruct He as [He | [<- | He]].
  - rewrite (launchLoop_progress _ _ _ _ _ _ _ He). lia.
  - simpl; lia.
  - unfold arrivedLate in He.
    destruct (List.length batchCounts); [destruct He|].
    apply in_map_iff in He. destruct He as [km [<- _]]. simpl; lia.
Qed.

Lemma closing_rises (dropped kept : Z) (b : bool) :
  rises 95 100
    (progressOf (Log MsgDedupStart 95
                   :: (if b then [Log (MsgFiltered dropped kept) 98] else [])
                   ++ [Log MsgSuccess 100])).
Proof. destruct b; simpl; lia. Qed.

(** In SERIAL mode the progress values never decrease and stay within
    [[0, 100]]. *)
Lemma serial_progress_rises W cfg materials count shuffle :
  shardingMode cfg = SERIAL ->
  rises 0 100
    (progressOf (fst (generateExamQuestions W cfg materials count shuffle))).
Proof.
  intros Hmode. unfold generateExamQuestions.
  assert (Hopen : rises 0 30
    (progressOf (Log MsgEngineStart 5
                   :: enrich_logs (fetchExternalContext W materials)
                   ++ [Log MsgSharding 30]))).
  { change (Log MsgEngineStart 5
              :: enrich_logs (fetchExternalContext W materials)
              ++ [Log MsgSharding 30])
      with ([Log MsgEngineStart 5]
              ++ enrich_logs (fetchExternalContext W materials)
              ++ [Log MsgSharding 30]).
    rewrite !progressOf_app.
    apply (rises_app 0 5 30); [simpl; lia|].
    apply (rises_app 5 25 30); [apply enrich_logs_rise | simpl; lia]. }
  destruct (shardPlan count (userBatchSize cfg)) as [batchCounts|].
  - assert (Hgather : rises 40 90 (progressOf (fst (gather W cfg count batchCounts)))).
    { unfold gather. rewrite Hmode. apply serialLoop_rises; [lia | lia |].
      intros j _. apply progressAfter_lower. }
    destruct (snd (gather W cfg count batchCounts)) as [questions|e]; cbn [fst].
    + rewrite !progressOf_app.
      apply (rises_app 0 30 100); [exact Hopen|].
      apply (rises_app 30 35 100); [simpl; lia|].
      apply (rises_app 35 90 100);
        [apply (rises_weaken 40 35 90 90); [lia | lia | exact Hgather]|].
      apply (rises_weaken 95 90 100 100); [lia | lia | apply closing_rises].
    + rewrite !progressOf_app.
      apply (rises_app 0 30 100); [exact Hopen|].
      apply (rises_app 30 35 100); [simpl; lia|].
      apply (rises_weaken 40 35 90 100); [lia | lia | exact Hgather].
  - cbn [fst]. apply (rises_weaken 0 0 30 100); [lia | lia | exact Hopen].
Qed.

(** X18: in either mode, and however the run ends, every progress value
    handed to the log sink lies between 0 and 100. *)
Lemma progress_in_range W cfg materials count shuffle :
  Forall (fun p => 0 <= p <= 100)
    (progressOf (fst (generateExamQuestions W cfg materials count shuffle))).
Proof.
  destruct (shardingMode cfg) eqn:Hmode.
  - eapply rises_Forall, serial_progress_rises, Hmode.
  - unfold generateExamQuestions.
    assert (Hopen : Forall (fun p => 0 <= p <= 100)
      (progressOf (Log MsgEngineStart 5
                     :: enrich_logs (fetchExternalContext W materials)
                     ++ [Log MsgSharding 30]))).
    { change (Log MsgEngineStart 5
                :: enrich_logs (fetchExternalContext W materials)
                ++ [Log MsgSharding 30])
        with ([Log MsgEngineStart 5]
                ++ enrich_logs (fetchExternalContext W materials)
                ++ [Log MsgSharding 30]).
      rewrite !progressOf_app. apply Forall_app. split; [simpl; repeat (constructor; try lia)|].
      apply Forall_app. split.
      - eapply Forall_impl; [|apply (rises_Forall _ _ _ (enrich_logs_rise W materials))].
        simpl; intros; lia.
      - simpl; repeat (constructor; try lia). }
    destruct (shardPlan count (userBatchSize cfg)) as [batchCounts|];
      [|exact Hopen].
    assert (Hgather : Forall (fun p => 0 <= p <= 100)
                             (progressOf (fst (gather W cfg count batchCounts)))).
    { unfold gather. rewrite Hmode.
      eapply Forall_impl; [|apply parallelRun_range]. simpl; intros; lia. }
    destruct (snd (gather W cfg count batchCounts)) as [questions|e]; cbn [fst];
      rewrite !progressOf_app, !Forall_app; repeat split; auto.
    + simpl; repeat (constructor; try lia).
    + eapply Forall_impl; [|apply (rises_Forall _ _ _ (closing_rises _ _ _))].
      simpl; intros; lia.
    + simpl; repeat (constructor; try lia).
Qed.

(** With a single shard the launch loop never waits. *)
Lemma hasWait_single cfg j : hasWait cfg 1 j = false.
Proof.
  unfold hasWait. destruct j as [|j]; [reflexivity|].
  replace (S j <? 1)%nat with false by (symmetry; apply Nat.ltb_ge; lia).
  apply andb_false_r.
Qed.

(** A shard whose first call fails logs a first retry. *)
Lemma shard_retry_first W i e :
  backend W i 0%nat = Rejected e ->
  exists more,
    retryMessages (fst (shard W i))
    = MsgRetry (GenerateBatch (Z.of_nat i + 1)) 1 :: more.
Proof.
  intros H. unfold shard, generateBatchQuestions. cbn [fst].
  rewrite (callWithRetry_retry _ _ 3 _ true 0 e H) by lia.
  cbn [fst retryMessages app]. eexists. reflexivity.
Qed.

Lemma regress_embed (a b g c : list LogEntry) (pre post : list Z) :
  progressOf g = pre ++ 80 :: 40 :: post ->
  exists before after,
    progressOf (a ++ b ++ g ++ c) = before ++ 80 :: 40 :: after.
Proof.
  intros H. exists (progressOf a ++ progressOf b ++ pre), (post ++ progressOf c).
  rewrite !progressOf_app, H, <- !app_assoc. reflexivity.
Qed.

(** PARALLEL mode with a single shard: whenever the first generation call
    fails, and whatever the arrival schedule, the join line at 80 is
    followed by a retry line at 40. *)
Lemma parallel_single_shard_regresses W cfg materials count shuffle b e :
  shardingMode cfg = PARALLEL ->
  shardPlan count (userBatchSize cfg) = Some [b] ->
  backend W 0%nat 0%nat = Rejected e ->
  exists before after,
    progressOf (fst (generateExamQuestions W cfg materials count shuffle))
    = before ++ 80 :: 40 :: after.
Proof.
  intros Hmode Hplan Hfail.
  assert (Hg : exists pre post,
    progressOf (fst (gather W cfg count [b])) = pre ++ 80 :: 40 :: post).
  { unfold gather, parallelRun. rewrite Hmode. cbn [fst List.length].
    unfold arrivedLate.
    assert (Hall : forall l : list (nat * message),
      filter (fun km => negb (hasWait cfg 1 (arrival W (fst km)))) l = l).
    { induction l as [|km l IH]; simpl; [reflexivity|].
      rewrite hasWait_single. simpl. rewrite IH. reflexivity. }
    rewrite Hall. unfold shard0Retries.
    destruct (shard_retry_first W 0 e Hfail) as [more Hmore].
    rewrite Hmore. cbn [List.length seq combine map].
    exists (progressOf
              (Log (MsgParallelStart (userRequestDelay cfg) (Z.of_nat 1)) 40
                 :: fst (launchLoop W cfg 1 0 [b] 40))).
    eexists. unfold progressOf. rewrite map_cons, map_app. simpl.
    reflexivity. }
  destruct Hg as [pre [post Hg]].
  unfold generateExamQuestions. rewrite Hplan.
  destruct (snd (gather W cfg count [b])) as [questions|err]; cbn [fst].
  - apply (regress_embed _ _ _ _ pre post Hg).
  - rewrite <- (app_nil_r (fst (gather W cfg count [b]))).
    apply (regress_embed _ _ _ _ pre post Hg).
Qed.

(** X21: in PARALLEL mode with a single shard, a first generation call that
    fails makes the progress go back: the retry line is logged at 40 after
    the join line was logged at 80. *)
Lemma parallel_single_shard_not_monotone W cfg materials count shuffle b e :
  shardingMode cfg = PARALLEL ->
  shardPlan count (userBatchSize cfg) = Some [b] ->
  backend W 0%nat 0%nat = Rejected e ->
  ~ StronglySorted Z.le
      (progressOf (fst (generateExamQuestions W cfg materials count shuffle))).
Proof.
  intros Hmode Hplan Hfail Hsorted.
  destruct (parallel_single_shard_regresses W cfg materials count shuffle b e
              Hmode Hplan Hfail) as [before [after Heq]].
  rewrite Heq in Hsorted. apply sorted_adjacent in Hsorted. lia.
Qed.

End ProgressFacts.

Section EntryPointFacts.

(** The outcome of the entry point in PARALLEL mode. *)
Lemma parallel_outcome (W : World) (cfg : Config) (count : Z)
  (batchCounts : list Z) :
  shardingMode cfg = PARALLEL ->
  snd (gather W cfg count batchCounts)
  = match Promise_all (settleTime W)
            (joinInstant W cfg (List.length batchCounts))
            (map (fun j => snd (shard W j))
                 (seq 0 (List.length batchCounts))) with
    | Rejected e => Rejected e
    | Fulfilled results => Fulfilled (List.concat results)
    end.
Proof.
  intros Hmode. unfold gather, parallelRun. rewrite Hmode. simpl.
  rewrite launchLoop_outcomes. reflexivity.
Qed.

(** C5: in PARALLEL mode, when one of the launched shards rejects once its
    retries are used up, the run rejects and no question list is returned.
    It rejects with the error of a rejecting shard: of that very shard when
    it is the only one to reject, and otherwise of the rejection that
    [Promise.all] reacts to first, which is the rejecting shard of lowest
    index among those already rejected when the launch loop ends, and the
    shard that rejects first when there is none. *)
Theorem parallel_rejection_propagates (W : World) (cfg : Config)
  (materials : list Material) (count : Z) (shuffle : bool)
  (batchCounts : list Z) (i : nat) (e : error) :
  shardingMode cfg = PARALLEL ->
  shardPlan count (userBatchSize cfg) = Some batchCounts ->
  (i < List.length batchCounts)%nat ->
  snd (shard W i) = Rejected e ->
  let result := snd (generateExamQuestions W cfg materials count shuffle) in
  let join := joinInstant W cfg (List.length batchCounts) in
  exists j e',
    (j < List.length batchCounts)%nat
    /\ snd (shard W j) = Rejected e'
    /\ result = Failed e'
    /\ (forall questions, result <> Resolved questions)
    /\ (forall k e'', (k < List.length batchCounts)%nat ->
                      snd (shard W k) = Rejected e'' ->
                      ((settleTime W k <= join)%nat ->
                       (settleTime W j <= join)%nat /\ (j <= k)%nat)
                      /\ ((join < settleTime W k)%nat ->
                          (settleTime W j <= settleTime W k)%nat))
    /\ ((forall k, (k < List.length batchCounts)%nat -> k <> i ->
                   exists questions, snd (shard W k) = Fulfilled questions) ->
        e' = e).
Proof.
  intros Hmode Hplan Hi Hrej result join. subst result.
  unfold generateExamQuestions. rewrite Hplan.
  rewrite (parallel_outcome W cfg count batchCounts Hmode).
  fold join.
  set (promises := map (fun j => snd (shard W j))
                       (seq 0 (List.length batchCounts))).
  assert (Hnth : forall k, nth_error promises k
                 = if (k <? List.length batchCounts)%nat
                   then Some (snd (shard W k)) else None).
  { intros k. unfold promises. rewrite nth_error_map_seq. reflexivity. }
  pose proof (Promise_all_spec (settleTime W) join promises) as Hall.
  destruct (Promise_all (settleTime W) join promises) as [vs|e'].
  - destruct Hall as [_ Hnone]. exfalso. apply (Hnone i e).
    rewrite Hnth. apply Nat.ltb_lt in Hi. rewrite Hi, Hrej. reflexivity.
  - destruct Hall as [j [Hj Hmin]]. rewrite Hnth in Hj.
    destruct (j <? List.length batchCounts)%nat eqn:Ej; [|discriminate Hj].
    apply Nat.ltb_lt in Ej.
    assert (Hj' : snd (shard W j) = Rejected e') by congruence.
    exists j, e'.
    split; [exact Ej|]. split; [exact Hj'|].
    split; [reflexivity|]. split; [|split].
    + intros questions H; discriminate H.
    + intros k e'' Hk Hk'.
      assert (Hfirst : earlier (reactionTime (settleTime W) join) j k).
      { apply (Hmin k e''). rewrite Hnth. apply Nat.ltb_lt in Hk.
        rewrite Hk, Hk'. reflexivity. }
      unfold earlier, reactionTime in Hfirst. lia.
    + intros Honly. destruct (Nat.eq_dec j i) as [-> | Hne].
      * congruence.
      * destruct (Honly j Ej Hne) as [qs Hqs]. congruence.
Qed.

Lemma parallel_rejection_propagates_witness :
  let cfg := {| userBatchSize := 2; userRequestDelay := 1000;
                shardingMode := PARALLEL |} in
  let result :=
    snd (generateExamQuestions brokenShardWorld cfg [sampleMaterial] 5
                               false) in
  let join := joinInstant brokenShardWorld cfg (List.length [2; 2; 1]) in
  exists j e',
    (j < List.length [2; 2; 1])%nat
    /\ snd (shard brokenShardWorld j) = Rejected e'
    /\ result = Failed e'
    /\ (forall questions, result <> Resolved questions)
    /\ (forall k e'', (k < List.length [2; 2; 1])%nat ->
                      snd (shard brokenShardWorld k) = Rejected e'' ->
                      ((settleTime brokenShardWorld k <= join)%nat ->
                       (settleTime brokenShardWorld j <= join)%nat
                       /\ (j <= k)%nat)
                      /\ ((join < settleTime brokenShardWorld k)%nat ->
                          (settleTime brokenShardWorld j
                           <= settleTime brokenShardWorld k)%nat))
    /\ ((forall k, (k < List.length [2; 2; 1])%nat -> k <> 1%nat ->
                   exists questions,
                     snd (shard brokenShardWorld k) = Fulfilled questions) ->
        e' = ServiceError 503).
Proof.
  intros cfg.
  apply (parallel_rejection_propagates brokenShardWorld cfg [sampleMaterial]
           5 false [2; 2; 1] 1 (ServiceError 503)).
  - reflexivity.
  - vm_compute. reflexivity.
  - simpl. lia.
  - vm_compute. reflexivity.
Defined.

(** Two shards that are both rejected when the launch loop ends: the run
    fails with the error of shard 0, the lower index, although shard 1
    rejected first. *)
Lemma parallel_rejections_before_join :
(settleTime earlyFailuresWorld 1 < settleTime earlyFailuresWorld 0
                                   < joinTime earlyFailuresWorld)%nat
  /\ snd (shard earlyFailuresWorld 0) = Rejected (NoTextError 1)
  /\ snd (shard earlyFailuresWorld 1) = Rejected (NoTextError 2)
  /\ snd (generateExamQuestions earlyFailuresWorld smallBatches
                                [sampleMaterial] 5 false)
     = Failed (NoTextError 1).
Proof.
  split; [simpl; lia|].
  repeat split; vm_compute; reflexivity.
Qed.

(** The same two rejections after the join: the run fails with the error of
    shard 1, which rejects first. *)
Lemma parallel_rejections_after_join :
  snd (generateExamQuestions (withTiming earlyFailuresWorld
                                         (settleTime earlyFailuresWorld) 0)
                             smallBatches [sampleMaterial] 5 false)
  = Failed (NoTextError 2).
Proof. vm_compute. reflexivity. Qed.

(** C9 at the input where the code departs from it: PARALLEL mode, five
    questions in one shard, whose first generation call fails and is
    retried.  The launch loop ends and the join line is logged at 80 before
    the failure can arrive; the retry line is then logged with the progress
    variable still at 40. *)
Theorem parallel_retry_progress_goes_back :
  let progress :=
    progressOf
      (fst (generateExamQuestions flakyWorld parallelConfig [sampleMaterial]
                                  5 false)) in
  progress = [5; 12; 15; 20; 30; 35; 40; 40; 80; 40; 95; 100]
  /\ ~ StronglySorted Z.le progress.
Proof.
  assert (Heval : progressOf
            (fst (generateExamQuestions flakyWorld parallelConfig
                                        [sampleMaterial] 5 false))
          = [5; 12; 15; 20; 30; 35; 40; 40; 80; 40; 95; 100])
    by (vm_compute; reflexivity).
  cbv zeta. rewrite Heval. split; [reflexivity|].
  intros H.
  apply (sorted_adjacent [5; 12; 15; 20; 30; 35; 40; 40] 80 40 [95; 100]) in H.
  lia.
Qed.

(** C10: when the run resolves, the returned list is a permutation of the
    deduplicated list of the gathered questions; without the shuffle flag
    it is that list itself, in acceptance order. *)
Theorem result_permutes_unique (W : World) (cfg : Config)
  (materials : list Material) (count : Z) (shuffle : bool)
  (returned : list Question) :
  snd (generateExamQuestions W cfg materials count shuffle)
  = Resolved returned ->
  exists batchCounts gathered,
    shardPlan count (userBatchSize cfg) = Some batchCounts
    /\ snd (gather W cfg count batchCounts) = Fulfilled gathered
    /\ Permutation (deduplicate gathered) returned
    /\ (shuffle = false -> returned = deduplicate gathered).
Proof.
  unfold generateExamQuestions.
  destruct (shardPlan count (userBatchSize cfg)) as [batchCounts|];
    [|discriminate].
  destruct (snd (gather W cfg count batchCounts)) as [gathered|e] eqn:Hg;
    [|discriminate].
  simpl. intros H. inversion H as [Hret]. clear H.
  exists batchCounts, gathered. repeat split; auto.
  - destruct shuffle; [apply sortRandom_perm | apply Permutation_refl].
  - intros ->. reflexivity.
Qed.

Lemma result_permutes_unique_witness :
  exists batchCounts gathered,
    shardPlan 5 (userBatchSize serialConfig) = Some batchCounts
    /\ snd (gather quietWorld serialConfig 5 batchCounts) = Fulfilled gathered
    /\ Permutation (deduplicate gathered)
                   (map shortAnswerFrom [(0, js "What is X?"); (1, js "test")])
    /\ (true = false ->
        map shortAnswerFrom [(0, js "What is X?"); (1, js "test")]
        = deduplicate gathered).
Proof.
  apply (result_permutes_unique quietWorld serialConfig [sampleMaterial] 5
                                true).
  vm_compute. reflexivity.
Defined.

End EntryPointFacts.

(* ================================================================== *)
(** * The retry helper: shape of a call *)
(* ================================================================== *)

Section RetryShape.

Context {T : Type}.
Variable fn : nat -> outcome T.
Variable actionName : action.
Variable onLog : bool.

Lemma retryTrace_invocations retries delay calls m :
  invocations (retryTrace actionName onLog retries delay calls m) = S m.
Proof.
  revert retries delay calls. unfold invocations.
  induction m as [|m IH]; intros retries delay calls; simpl; [reflexivity|].
  rewrite filter_app. destruct onLog; simpl; rewrite IH; reflexivity.
Qed.

Lemma retryTrace_sleeps retries delay calls m :
  sleeps (retryTrace actionName onLog retries delay calls m) = backoff delay m.
Proof.
  revert retries delay calls.
  induction m as [|m IH]; intros retries delay calls; simpl; [reflexivity|].
  destruct onLog; simpl; rewrite IH; reflexivity.
Qed.


(** The call is retried [m] times, where [m] is at most [retries]; the
    first [m] invocations fail, and the call ends with the outcome of
    invocation [m], which is a success unless the retries are used up. *)
Lemma callWithRetry_shape (n : nat) : forall retries delay calls,
  Z.to_nat retries = n ->
  exists m,
    (m <= n)%nat
    /\ (forall j, (j < m)%nat -> exists e, fn (calls + j)%nat = Rejected e)
    /\ callWithRetry fn actionName retries delay onLog calls
       = (retryTrace actionName onLog retries delay calls m,
          fn (calls + m)%nat)
    /\ ((exists v, fn (calls + m)%nat = Fulfilled v) \/ m = n).
Proof.
  induction n as [|n IH]; intros retries delay calls Hn.
  - exists 0%nat. rewrite Nat.add_0_r. split; [lia|]. split; [intros j Hj; lia|].
    destruct (fn calls) as [v|e] eqn:E.
    + rewrite (callWithRetry_fulfilled fn actionName _ _ _ _ v E). eauto.
    + rewrite (callWithRetry_exhausted fn actionName _ _ _ _ e E) by lia. auto.
  - destruct (fn calls) as [v|e] eqn:E.
    + exists 0%nat. rewrite Nat.add_0_r. split; [lia|].
      split; [intros j Hj; lia|].
      rewrite (callWithRetry_fulfilled fn actionName _ _ _ _ v E), E. eauto.
    + destruct (IH (retries - 1) (delay * 1.5)%Q (S calls)) as
        [m [Hm [Hfail [Hrun Hend]]]]; [lia|].
      exists (S m). split; [lia|]. split; [|split].
      * intros [|j] Hj; [rewrite Nat.add_0_r; eauto|].
        replace (calls + S j)%nat with (S calls + j)%nat by lia.
        apply Hfail. lia.
      * rewrite (callWithRetry_retry fn actionName _ _ _ _ e E) by lia.
        rewrite Hrun. simpl.
        replace (calls + S m)%nat with (S (calls + m)) by lia. reflexivity.
      * replace (calls + S m)%nat with (S calls + m)%nat by lia.
        destruct Hend as [Hv | ->]; [left; exact Hv | right; reflexivity].
Qed.

(** [k] failures, then a success within the allowance. *)
Lemma callWithRetry_first_success retries delay (k : nat) (value : T) :
  Z.of_nat k <= retries ->
  (forall j, (j < k)%nat -> exists e, fn j = Rejected e) ->
  fn k = Fulfilled value ->
  callWithRetry fn actionName retries delay onLog 0
  = (retryTrace actionName onLog retries delay 0 k, Fulfilled value).
Proof.
  intros Hk Hfail Hok.
  destruct (callWithRetry_shape (Z.to_nat retries) retries delay 0 eq_refl)
    as [m [Hm [Hfail' [Hrun Hend]]]].
  simpl in Hfail', Hrun, Hend.
  assert (m = k).
  { destruct (Nat.lt_trichotomy m k) as [Hlt | [Heq | Hgt]]; [|exact Heq|].
    - exfalso. destruct (Hfail m Hlt) as [e He].
      destruct Hend as [[v Hv] | Hn]; [congruence | lia].
    - exfalso. destruct (Hfail' k Hgt) as [e He]. congruence. }
  subst m. rewrite Hrun, Hok. reflexivity.
Qed.

End RetryShape.


(** X2: the promise returned by [callWithRetry] settles exactly as the last
    invocation of the operation did, value or error, with no wrapping; every
    earlier invocation was a failure. *)
Theorem callWithRetry_last_outcome {T : Type} (fn : nat -> outcome T)
  (actionName : action) (retries : Z) (delay : Q) (onLog : bool)
  (calls : nat) :
  let run := callWithRetry fn actionName retries delay onLog calls in
  let last := (calls + (invocations (fst run) - 1))%nat in
  snd run = fn last
  /\ forall j, (calls <= j < last)%nat -> exists e, fn j = Rejected e.
Proof.
  destruct (callWithRetry_shape fn actionName onLog (Z.to_nat retries)
              retries delay calls eq_refl) as [m [Hm [Hfail [Hrun _]]]].
  cbv zeta. rewrite Hrun. cbn [fst snd]. rewrite retryTrace_invocations.
  replace (S m - 1)%nat with m by lia. split; [reflexivity|].
  intros j Hj. replace j with (calls + (j - calls))%nat by lia.
  apply Hfail. lia.
Qed.

(** X3: when the operation fails [k] times and then succeeds, with [k] not
    above [retries], [callWithRetry] fulfils with the value of that
    success after exactly [k + 1] invocations and [k] sleeps. *)
Theorem callWithRetry_eventual_success {T : Type} (fn : nat -> outcome T)
  (actionName : action) (retries : Z) (delay : Q) (onLog : bool)
  (k : nat) (value : T) :
  Z.of_nat k <= retries ->
  (forall j, (j < k)%nat -> exists e, fn j = Rejected e) ->
  fn k = Fulfilled value ->
  let run := callWithRetry fn actionName retries delay onLog 0 in
  snd run = Fulfilled value
  /\ invocations (fst run) = S k
  /\ sleeps (fst run) = backoff delay k.
Proof.
  intros Hk Hfail Hok. cbv zeta.
  rewrite (callWithRetry_first_success fn actionName onLog retries delay k
             value Hk Hfail Hok).
  cbn [fst snd]. rewrite retryTrace_invocations, retryTrace_sleeps. auto.
Qed.

Lemma callWithRetry_eventual_success_witness :
  let fn := fun j : nat => match j with
                           | 0%nat | 1%nat => Rejected (ServiceError 503)
                           | _ => Fulfilled 7
                           end in
  let run := callWithRetry fn (OtherAction (js "x")) 3 2000%Q false 0 in
  snd run = Fulfilled 7
  /\ invocations (fst run) = 3%nat
  /\ sleeps (fst run) = backoff 2000%Q 2.
Proof.
  intros fn.
  apply (callWithRetry_eventual_success fn (OtherAction (js "x")) 3 2000%Q
           false 2 7).
  - lia.
  - intros [|[|j]] Hj; [eexists; reflexivity | eexists; reflexivity | lia].
  - reflexivity.
Defined.

(* ================================================================== *)
(** * Batch planner: the closed form and the edge cases *)
(* ================================================================== *)

Section PlanShape.

Lemma evenPlan_small (remaining size : Z) :
  0 < remaining < size -> evenPlan remaining size = [remaining].
Proof.
  intros H. unfold evenPlan.
  rewrite Z.div_small, Z.mod_small by lia. simpl.
  destruct (remaining =? 0) eqn:E; [apply Z.eqb_eq in E; lia | reflexivity].
Qed.

Lemma evenPlan_step (remaining size : Z) :
  1 <= size -> size <= remaining ->
  evenPlan remaining size = size :: evenPlan (remaining - size) size.
Proof.
  intros Hs Hr. unfold evenPlan.
  assert (Hdiv : remaining / size = (remaining - size) / size + 1).
  { replace remaining with (remaining - size + 1 * size) at 1 by lia.
    apply Z.div_add. lia. }
  assert (Hmod : remaining mod size = (remaining - size) mod size).
  { replace remaining with (remaining - size + 1 * size) at 1 by lia.
    apply Z_mod_plus_full. }
  assert (0 <= (remaining - size) / size) by (apply Z.div_pos; lia).
  rewrite Hdiv, Hmod.
  replace (Z.to_nat ((remaining - size) / size + 1))
    with (S (Z.to_nat ((remaining - size) / size))) by lia.
  reflexivity.
Qed.

Lemma planLoop_even (fuel : nat) : forall remaining size acc,
  1 <= size -> 0 <= remaining -> (Z.to_nat remaining <= fuel)%nat ->
  planLoop fuel remaining size acc = Some (acc ++ evenPlan remaining size).
Proof.
  induction fuel as [|fuel IH]; intros remaining size acc Hs Hr Hfuel.
  - assert (remaining = 0) by lia. subst. simpl.
    unfold evenPlan. rewrite Z.div_0_l, Z.mod_0_l by lia. simpl.
    rewrite app_nil_r. reflexivity.
  - simpl. destruct (0 <? remaining) eqn:E.
    + apply Z.ltb_lt in E.
      rewrite IH by lia. rewrite <- app_assoc. do 2 f_equal. simpl.
      destruct (Z.lt_ge_cases remaining size) as [Hlt | Hge].
      * rewrite Z.min_l, Z.sub_diag, (evenPlan_small remaining size) by lia.
        unfold evenPlan. rewrite Z.div_0_l, Z.mod_0_l by lia. reflexivity.
      * rewrite Z.min_r by lia. symmetry. apply evenPlan_step; lia.
    + apply Z.ltb_ge in E. assert (remaining = 0) by lia. subst.
      unfold evenPlan. rewrite Z.div_0_l, Z.mod_0_l by lia. simpl.
      rewrite app_nil_r. reflexivity.
Qed.

End PlanShape.

(** X4: for a positive batch size, the plan is [count / size] batches of
    exactly [size] questions, followed by one batch of [count mod size]
    questions when the size does not divide the count: only the last batch
    can be smaller. *)
Theorem shardPlan_even (count size : Z) :
  1 <= size -> 0 <= count ->
  shardPlan count size
  = Some (repeat size (Z.to_nat (count / size))
          ++ (if count mod size =? 0 then [] else [count mod size])).
Proof.
  intros Hs Hc. unfold shardPlan.
  rewrite (planLoop_even _ count size [] Hs Hc) by lia. reflexivity.
Qed.

Lemma shardPlan_even_witness :
  shardPlan 25 10
  = Some (repeat 10 (Z.to_nat (25 / 10))
          ++ (if 25 mod 10 =? 0 then [] else [25 mod 10])).
Proof. apply (shardPlan_even 25 10); lia. Defined.



(** A run that resolves logs the success line last. *)
(** X6: when the requested count is not positive, no shard is planned and
    no shard is run: the run resolves with the empty list in either mode,
    and its log is the opening lines, the configuration line with zero
    shards, in PARALLEL mode the two lines around the empty launch loop, and
    the closing lines up to 100, with no shard, launch or retry line.  The
    backend of the shards is never called, so the run is the same whatever
    it would answer. *)
Theorem nonpositive_count_resolves_empty (W : World) (cfg : Config)
  (materials : list Material) (count : Z) (shuffle : bool) :
  count <= 0 ->
  let run := generateExamQuestions W cfg materials count shuffle in
  shardPlan count (userBatchSize cfg) = Some []
  /\ snd run = Resolved []
  /\ fst run
     = (Log MsgEngineStart 5
          :: enrich_logs (fetchExternalContext W materials)
          ++ [Log MsgSharding 30])
       ++ Log (MsgConfig (userBatchSize cfg) 0 (userRequestDelay cfg)
                         (shardingMode cfg)) 35
       :: match shardingMode cfg with
          | SERIAL => []
          | PARALLEL =>
            [Log (MsgParallelStart (userRequestDelay cfg) 0) 40;
             Log MsgAllLaunched 80]
          end
       ++ [Log MsgDedupStart 95; Log MsgSuccess 100]
  /\ (forall answers,
        generateExamQuestions (withBackend W answers) cfg materials count
                              shuffle
        = run).
Proof.
  intros Hc.
  assert (Hplan : shardPlan count (userBatchSize cfg) = Some []).
  { unfold shardPlan. replace (Z.to_nat count) with 0%nat by lia. simpl.
    replace (0 <? count) with false by (symmetry; apply Z.ltb_ge; lia).
    reflexivity. }
  cbv zeta. unfold generateExamQuestions. rewrite Hplan. unfold gather.
  split; [reflexivity|].
  destruct (shardingMode cfg); cbn; destruct shuffle; repeat split;
    try reflexivity; rewrite <- app_assoc; reflexivity.
Qed.

Lemma nonpositive_count_resolves_empty_witness :
  let run := generateExamQuestions flakyWorld parallelConfig
                                   [sampleMaterial] 0 true in
  shardPlan 0 (userBatchSize parallelConfig) = Some []
  /\ snd run = Resolved []
  /\ fst run
     = (Log MsgEngineStart 5
          :: enrich_logs (fetchExternalContext flakyWorld [sampleMaterial])
          ++ [Log MsgSharding 30])
       ++ Log (MsgConfig (userBatchSize parallelConfig) 0
                         (userRequestDelay parallelConfig)
                         (shardingMode parallelConfig)) 35
       :: match shardingMode parallelConfig with
          | SERIAL => []
          | PARALLEL =>
            [Log (MsgParallelStart (userRequestDelay parallelConfig) 0) 40;
             Log MsgAllLaunched 80]
          end
       ++ [Log MsgDedupStart 95; Log MsgSuccess 100]
  /\ (forall answers,
        generateExamQuestions (withBackend flakyWorld answers) parallelConfig
                              [sampleMaterial] 0 true
        = run).
Proof.
  apply (nonpositive_count_resolves_empty flakyWorld parallelConfig
           [sampleMaterial] 0 true).
  lia.
Defined.

(* ================================================================== *)
(** * Prefix cleaner: what it returns *)
(* ================================================================== *)

Section TrimFacts.

Lemma dropWhile_suffix (p : Z -> bool) (s : jsstring) :
  exists pre, s = pre ++ dropWhile p s.
Proof.
  induction s as [|c s [pre IH]]; [exists []; reflexivity|]. simpl.
  destruct (p c).
  - exists (c :: pre). simpl. rewrite <- IH. reflexivity.
  - exists []. reflexivity.
Qed.

Lemma dropWhile_head (p : Z -> bool) (s : jsstring) x r :
  dropWhile p s = x :: r -> p x = false.
Proof.
  induction s as [|c s IH]; simpl; [discriminate|].
  destruct (p c) eqn:E; [exact IH|]. intros H; inversion H; subst. exact E.
Qed.

Lemma trimEnd_last (s r : jsstring) (x : Z) :
  trimEnd s = r ++ [x] -> isWhiteSpace x = false.
Proof.
  unfold trimEnd. intros H.
  apply (f_equal (@rev Z)) in H. rewrite rev_involutive, rev_app_distr in H.
  simpl in H. eapply dropWhile_head; eauto.
Qed.

Lemma trim_head (s r : jsstring) (x : Z) :
  trim s = x :: r -> isWhiteSpace x = false.
Proof.
  unfold trim. intros H.
  destruct (trimEnd_prefix (trimStart s)) as [suf Hsuf].
  rewrite H in Hsuf. simpl in Hsuf.
  unfold trimStart in Hsuf. eapply dropWhile_head; eauto.
Qed.

Lemma trim_last (s r : jsstring) (x : Z) :
  trim s = r ++ [x] -> isWhiteSpace x = false.
Proof. unfold trim. apply trimEnd_last. Qed.

(** Trimming keeps a contiguous part of the text. *)
Lemma trim_infix (s : jsstring) : exists pre suf, s = pre ++ trim s ++ suf.
Proof.
  destruct (dropWhile_suffix isWhiteSpace s) as [pre Hpre].
  destruct (trimEnd_prefix (trimStart s)) as [suf Hsuf].
  exists pre, suf. unfold trim. rewrite <- Hsuf. exact Hpre.
Qed.

Lemma trimStart_stable (s : jsstring) :
  (forall x r, s = x :: r -> isWhiteSpace x = false) -> trimStart s = s.
Proof.
  intros H. destruct s as [|x r]; [reflexivity|]. unfold trimStart. simpl.
  rewrite (H x r eq_refl). reflexivity.
Qed.

Lemma trimEnd_stable (s : jsstring) :
  (forall r x, s = r ++ [x] -> isWhiteSpace x = false) -> trimEnd s = s.
Proof.
  intros H. unfold trimEnd.
  destruct (rev s) as [|x r] eqn:E.
  - apply (f_equal (@rev Z)) in E. rewrite rev_involutive in E. subst.
    reflexivity.
  - assert (Hs : s = rev r ++ [x]).
    { apply (f_equal (@rev Z)) in E. rewrite rev_involutive in E. exact E. }
    simpl. rewrite (H _ _ Hs). simpl. symmetry. exact Hs.
Qed.

(** Trimming twice is trimming once. *)
Lemma trim_idempotent (s : jsstring) : trim (trim s) = trim s.
Proof.
  unfold trim at 1.
  rewrite trimStart_stable by (intros x r; apply trim_head).
  apply trimEnd_stable. intros r x. apply trim_last.
Qed.

End TrimFacts.

(** X7: the cleaned text is a contiguous part of the question text (the
    cleaner only deletes at the two ends, never inside and never adds), and
    it neither starts nor ends with white space. *)
Theorem cleanQuestionPrefix_is_trimmed_part (text : jsstring) :
  let cleaned := cleanQuestionPrefix text in
  (exists before after, text = before ++ cleaned ++ after)
  /\ (forall x rest, cleaned = x :: rest -> isWhiteSpace x = false)
  /\ (forall rest x, cleaned = rest ++ [x] -> isWhiteSpace x = false).
Proof.
  cbv zeta. unfold cleanQuestionPrefix. split; [|split].
  - set (a := trim text).
    set (b := removePrefix reLabelledNumber a).
    set (c := removePrefix reNumber b).
    set (d := removePrefix reCircledOne c).
    set (e := removePrefix reBareLabel d).
    destruct (trim_infix text) as [p0 [s0 H0]]. fold a in H0.
    destruct (removePrefix_suffix reLabelledNumber a) as [p1 H1]. fold b in H1.
    destruct (removePrefix_suffix reNumber b) as [p2 H2]. fold c in H2.
    destruct (removePrefix_suffix reCircledOne c) as [p3 H3]. fold d in H3.
    destruct (removePrefix_suffix reBareLabel d) as [p4 H4]. fold e in H4.
    destruct (trim_infix e) as [p5 [s5 H5]].
    exists (p0 ++ p1 ++ p2 ++ p3 ++ p4 ++ p5), (s5 ++ s0).
    rewrite H0, H1, H2, H3, H4 at 1. rewrite H5 at 1.
    rewrite <- !app_assoc. reflexivity.
  - intros x rest. apply trim_head.
  - intros rest x. apply trim_last.
Qed.

Section UntouchedText.

Lemma oneOf_false_not_in (members : jsstring) (c x : Z) :
  oneOf members c = false -> In x members -> (c =? x) = false.
Proof.
  unfold oneOf. intros H Hin.
  destruct (c =? x) eqn:E; [|reflexivity].
  rewrite <- H. symmetry. apply existsb_exists. exists x. auto.
Qed.

Lemma labels_need_their_letter (c : Z) (rest : jsstring) :
  startsEnumeration c = false ->
  matchPrefix reLabelledNumber (c :: rest) = None
  /\ matchPrefix reNumber (c :: rest) = None
  /\ matchPrefix reCircledOne (c :: rest) = None
  /\ matchPrefix reBareLabel (c :: rest) = None.
Proof.
  unfold startsEnumeration. intros H.
  apply orb_false_iff in H. destruct H as [Hd Hm].
  assert (Hne : forall x, In x (js "QqCc题问案习(【[①") -> (c =? x) = false)
    by (intros x; apply oneOf_false_not_in; exact Hm).
  change (js "QqCc题问案习(【[①")
    with [81; 113; 67; 99; 39064; 38382; 26696; 20064; 40; 12304; 91; 9312]
    in Hne.
  assert (HQ : (c =? 81) = false) by (apply Hne; simpl; tauto).
  assert (Hq : (c =? 113) = false) by (apply Hne; simpl; tauto).
  assert (HC : (c =? 67) = false) by (apply Hne; simpl; tauto).
  assert (Hc : (c =? 99) = false) by (apply Hne; simpl; tauto).
  assert (H1 : (c =? 39064) = false) by (apply Hne; simpl; tauto).
  assert (H2 : (c =? 38382) = false) by (apply Hne; simpl; tauto).
  assert (H3 : (c =? 26696) = false) by (apply Hne; simpl; tauto).
  assert (H4 : (c =? 20064) = false) by (apply Hne; simpl; tauto).
  assert (H5 : (c =? 40) = false) by (apply Hne; simpl; tauto).
  assert (H6 : (c =? 12304) = false) by (apply Hne; simpl; tauto).
  assert (H7 : (c =? 91) = false) by (apply Hne; simpl; tauto).
  assert (H8 : (c =? 9312) = false) by (apply Hne; simpl; tauto).
  assert (Hcan : forall x, (0x41 <= x <= 0x5A) -> (c =? x) = false ->
                 (c =? x + 0x20) = false -> (canonicalize c =? x) = false).
  { intros x Hx Hu Hl. unfold canonicalize.
    apply Z.eqb_neq in Hu, Hl. apply Z.eqb_neq.
    destruct ((0x61 <=? c) && (c <=? 0x7A)); lia. }
  assert (Hcjk : forall x, 0x7A < x -> (c =? x) = false ->
                 (canonicalize c =? x) = false).
  { intros x Hx Hu. unfold canonicalize. apply Z.eqb_neq in Hu.
    apply Z.eqb_neq.
    destruct ((0x61 <=? c) && (c <=? 0x7A)) eqn:E; [|lia].
    apply andb_true_iff in E. rewrite Z.leb_le, Z.leb_le in E. lia. }
  assert (EQ : (canonicalize c =? 81) = false) by (apply Hcan; [lia | assumption | assumption]).
  assert (EC : (canonicalize c =? 67) = false) by (apply Hcan; [lia | assumption | assumption]).
  assert (E1 : (canonicalize c =? 39064) = false) by (apply Hcjk; [lia | assumption]).
  assert (E2 : (canonicalize c =? 38382) = false) by (apply Hcjk; [lia | assumption]).
  assert (E3 : (canonicalize c =? 26696) = false) by (apply Hcjk; [lia | assumption]).
  assert (E4 : (canonicalize c =? 20064) = false) by (apply Hcjk; [lia | assumption]).
  repeat split.
  - unfold matchPrefix, reLabelledNumber. cbn [map AltOf Lit run js].
    cbv [sameChar]. change (canonicalize 81) with 81.
    vm_compute (js "Q"). vm_compute (js "Question").
    vm_compute (js "题目"). vm_compute (js "问题"). vm_compute (js "Case").
    vm_compute (js "案例"). vm_compute (js "习题").
    cbn [map AltOf Lit run]. cbv [sameChar].
    change (canonicalize 81) with 81. change (canonicalize 67) with 67.
    change (canonicalize 39064) with 39064.
    change (canonicalize 38382) with 38382.
    change (canonicalize 26696) with 26696.
    change (canonicalize 20064) with 20064.
    rewrite EQ, EC, E1, E2, E3, E4. reflexivity.
  - unfold matchPrefix, reNumber, Plus. cbn [run].
    replace (oneOf (js "(【[") c) with false.
    + rewrite Hd. reflexivity.
    + symmetry. unfold oneOf. vm_compute (js "(【["). simpl.
      rewrite H5, H6, H7. reflexivity.
  - unfold matchPrefix, reCircledOne. vm_compute (js "①").
    cbn [Lit run]. cbv [sameChar]. rewrite H8. reflexivity.
  - unfold matchPrefix, reBareLabel. cbn [map AltOf].
    vm_compute (js "题目"). vm_compute (js "问题"). vm_compute (js "Question").
    cbn [map AltOf Lit run]. cbv [sameChar].
    change (canonicalize 81) with 81.
    change (canonicalize 39064) with 39064.
    change (canonicalize 38382) with 38382.
    rewrite EQ, E1, E2. reflexivity.
Qed.

End UntouchedText.

(** X8: a question whose first character after trimming is not a digit, an
    opening bracket, the circled one or the first letter of a label (Q, C,
    题, 问, 案, 习) is not touched by the cleaner: only the surrounding white
    space is removed. *)
Theorem cleanQuestionPrefix_leaves_plain_text (text rest : jsstring) (c : Z) :
  trim text = c :: rest -> startsEnumeration c = false ->
  cleanQuestionPrefix text = trim text.
Proof.
  intros Htrim Hc.
  destruct (labels_need_their_letter c rest Hc) as [H1 [H2 [H3 H4]]].
  unfold cleanQuestionPrefix, removePrefix. rewrite Htrim.
  rewrite H1, H2, H3, H4. rewrite <- Htrim. apply trim_idempotent.
Qed.

Lemma cleanQuestionPrefix_leaves_plain_text_witness :
  cleanQuestionPrefix (js "  什么是光合作用？ ") = trim (js "  什么是光合作用？ ").
Proof.
  apply (cleanQuestionPrefix_leaves_plain_text (js "  什么是光合作用？ ")
           (js "么是光合作用？") 0x4EC0);
    vm_compute; reflexivity.
Defined.

Section CleaningTwice.

Lemma star_shorter (p : Z -> bool) (s : jsstring)
  (k : jsstring -> option jsstring) (x : jsstring) (d : nat) :
  (forall s' y, k s' = Some y -> (List.length y + d <= List.length s')%nat) ->
  star p s k = Some x -> (List.length x + d <= List.length s)%nat.
Proof.
  intros Hk. induction s as [|c s IH]; simpl.
  - apply Hk.
  - destruct (p c); [|apply (Hk (c :: s))].
    destruct (star p s k) as [y|] eqn:E.
    + intros H; inversion H; subst. specialize (IH eq_refl). lia.
    + apply (Hk (c :: s)).
Qed.

(** A match of a pattern that [consumes] leaves less than it was given. *)
Lemma run_shorter (r : regex) :
  forall (s : jsstring) (k : jsstring -> option jsstring) (x : jsstring)
         (d : nat),
  (forall s' y, k s' = Some y -> (List.length y + d <= List.length s')%nat) ->
  run r s k = Some x ->
  (List.length x + d + (if consumes r then 1 else 0) <= List.length s)%nat.
Proof.
  induction r as [|p|a IHa b IHb|a IHa b IHb|a IHa|p]; intros s k x d Hk;
    simpl.
  - intros H. specialize (Hk s x H). lia.
  - destruct s as [|c s]; [discriminate|].
    destruct (p c); [|discriminate].
    intros H. specialize (Hk s x H). simpl. lia.
  - intros H.
    apply (IHa s _ x (d + (if consumes b then 1 else 0))%nat) in H.
    + destruct (consumes a), (consumes b); simpl in *; lia.
    + intros s' y Hy. apply (IHb s' k y d Hk) in Hy. lia.
  - destruct (run a s k) as [y|] eqn:E.
    + intros H; inversion H; subst. apply (IHa s k x d Hk) in E.
      destruct (consumes a), (consumes b); simpl in *; lia.
    + intros H. apply (IHb s k x d Hk) in H.
      destruct (consumes a), (consumes b); simpl in *; lia.
  - destruct (run a s k) as [y|] eqn:E.
    + intros H; inversion H; subst. apply (IHa s k x d Hk) in E. lia.
    + intros H. specialize (Hk s x H). lia.
  - intros H. apply (star_shorter p s k x d Hk) in H. lia.
Qed.

(** Removing a prefix never lengthens the text, and keeps its length only
    when the pattern does not match. *)
Lemma removePrefix_length (r : regex) (s : jsstring) :
  consumes r = true ->
  (List.length (removePrefix r s) <= List.length s)%nat
  /\ (List.length (removePrefix r s) = List.length s ->
      matchPrefix r s = None).
Proof.
  intros Hr. unfold removePrefix, matchPrefix.
  destruct (run r s Some) as [x|] eqn:E; [|auto].
  apply (run_shorter r s Some x 0) in E.
  - rewrite Hr in E. split; [lia | intros H; lia].
  - intros s' y H; inversion H; subst. lia.
Qed.

Lemma trim_length (s : jsstring) :
  (List.length (trim s) <= List.length s)%nat.
Proof.
  destruct (trim_infix s) as [pre [suf H]].
  apply (f_equal (@List.length Z)) in H. rewrite !length_app in H. lia.
Qed.

Lemma cleanQuestionPrefix_trimmed (text : jsstring) :
  trim (cleanQuestionPrefix text) = cleanQuestionPrefix text.
Proof. unfold cleanQuestionPrefix. apply trim_idempotent. Qed.

(** On a trimmed text the cleaner changes nothing exactly when none of its
    four patterns matches. *)
Lemma cleanQuestionPrefix_fixed (text : jsstring) :
  trim text = text ->
  cleanQuestionPrefix text = text
  <-> matchPrefix reLabelledNumber text = None
      /\ matchPrefix reNumber text = None
      /\ matchPrefix reCircledOne text = None
      /\ matchPrefix reBareLabel text = None.
Proof.
  intros Htrim. split.
  - intros Hfixed. unfold cleanQuestionPrefix in Hfixed.
    rewrite Htrim in Hfixed. cbv zeta in Hfixed.
    destruct (removePrefix_length reLabelledNumber text eq_refl)
      as [L1 N1].
    destruct (removePrefix_length reNumber
                (removePrefix reLabelledNumber text) eq_refl) as [L2 N2].
    destruct (removePrefix_length reCircledOne
                (removePrefix reNumber (removePrefix reLabelledNumber text))
                eq_refl) as [L3 N3].
    destruct (removePrefix_length reBareLabel
                (removePrefix reCircledOne
                   (removePrefix reNumber
                      (removePrefix reLabelledNumber text)))
                eq_refl) as [L4 N4].
    pose proof (trim_length
                  (removePrefix reBareLabel
                     (removePrefix reCircledOne
                        (removePrefix reNumber
                           (removePrefix reLabelledNumber text))))) as L5.
    rewrite Hfixed in L5.
    assert (M1 : matchPrefix reLabelledNumber text = None)
      by (apply N1; lia).
    assert (E1 : removePrefix reLabelledNumber text = text)
      by (unfold removePrefix; rewrite M1; reflexivity).
    rewrite E1 in *.
    assert (M2 : matchPrefix reNumber text = None) by (apply N2; lia).
    assert (E2 : removePrefix reNumber text = text)
      by (unfold removePrefix; rewrite M2; reflexivity).
    rewrite E2 in *.
    assert (M3 : matchPrefix reCircledOne text = None) by (apply N3; lia).
    assert (E3 : removePrefix reCircledOne text = text)
      by (unfold removePrefix; rewrite M3; reflexivity).
    rewrite E3 in *.
    assert (M4 : matchPrefix reBareLabel text = None) by (apply N4; lia).
    auto.
  - intros [M1 [M2 [M3 M4]]].
    unfold cleanQuestionPrefix, removePrefix.
    rewrite Htrim, M1, M2, M3, M4. exact Htrim.
Qed.

End CleaningTwice.

(** C7, as the code has it: write [once] for [clean q] and [twice] for
    [clean (clean q)].  A second cleaning changes nothing, [twice = once],
    exactly when none of the four patterns of the cleaner matches [once];
    this is so whenever [once] is empty or starts with a character that is
    not a digit and not one of [Q q C c 题 问 案 习 ( 【 [ ①], and the two
    fingerprints are then equal.  In every case the fingerprint of [twice]
    is what remains of the fingerprint of [once] after a (possibly empty)
    prefix is removed: a second cleaning can only strip a further
    enumeration or label from the front. *)
Theorem fingerprint_clean_twice (q : jsstring) :
  let once := cleanQuestionPrefix q in
  let twice := cleanQuestionPrefix once in
  (twice = once
   <-> matchPrefix reLabelledNumber once = None
       /\ matchPrefix reNumber once = None
       /\ matchPrefix reCircledOne once = None
       /\ matchPrefix reBareLabel once = None)
  /\ (match once with
      | [] => True
      | c :: _ => startsEnumeration c = false
      end ->
      twice = once /\ fingerprint twice = fingerprint once)
  /\ exists stripped, fingerprint once = stripped ++ fingerprint twice.
Proof.
  cbv zeta.
  pose proof (cleanQuestionPrefix_fixed (cleanQuestionPrefix q)
                (cleanQuestionPrefix_trimmed q)) as Hfixed.
  split; [exact Hfixed|]. split.
  - intros Hplain.
    assert (Hsame : cleanQuestionPrefix (cleanQuestionPrefix q)
                    = cleanQuestionPrefix q).
    { destruct (cleanQuestionPrefix q) as [|c rest] eqn:Honce.
      - reflexivity.
      - apply Hfixed. apply labels_need_their_letter. exact Hplain. }
    split; [exact Hsame | rewrite Hsame; reflexivity].
  - apply (fingerprint_clean_suffix (cleanQuestionPrefix q)).
Qed.

(** A second cleaning of a plain question changes nothing. *)
Lemma fingerprint_clean_twice_witness :
  cleanQuestionPrefix (cleanQuestionPrefix (js " 3、什么是光合作用？ "))
  = cleanQuestionPrefix (js " 3、什么是光合作用？ ")
  /\ fingerprint (cleanQuestionPrefix
                    (cleanQuestionPrefix (js " 3、什么是光合作用？ ")))
     = fingerprint (cleanQuestionPrefix (js " 3、什么是光合作用？ ")).
Proof.
  apply (proj1 (proj2 (fingerprint_clean_twice (js " 3、什么是光合作用？ ")))).
  vm_compute. reflexivity.
Defined.

(* ================================================================== *)
(** * Deduplicator: invariants of the loop *)
(* ================================================================== *)

Section DedupInvariants.

Lemma isDuplicate_similar (fp : jsstring) (accepted : list jsstring) :
  isDuplicate fp accepted = existsb (similar fp) accepted.
Proof.
  induction accepted as [|e rest IH]; cbn [isDuplicate existsb];
    [reflexivity|].
  unfold similar at 1.
  destruct (eqb fp e); [reflexivity|]. cbn [orb].
  destruct ((MIN_LEN_FOR_FUZZY <? len fp) && (MIN_LEN_FOR_FUZZY <? len e));
    cbn [andb orb]; [|exact IH].
  destruct (includes fp e || includes e fp); cbn [orb]; [reflexivity|].
  destruct (eqb (substring0 prefixLen fp) (substring0 prefixLen e));
    [reflexivity | exact IH].
Qed.

Lemma eqb_comm (a b : jsstring) : eqb a b = eqb b a.
Proof.
  destruct (eqb a b) eqn:E.
  - apply eqb_eq in E. subst. symmetry. apply eqb_refl.
  - destruct (eqb b a) eqn:E'; [|reflexivity].
    apply eqb_eq in E'. subst. rewrite eqb_refl in E. discriminate.
Qed.

Lemma similar_sym (a b : jsstring) : similar a b = similar b a.
Proof.
  unfold similar.
  rewrite (eqb_comm a b), (eqb_comm (substring0 prefixLen a)).
  rewrite (andb_comm (MIN_LEN_FOR_FUZZY <? len a)).
  rewrite (orb_comm (includes a b)). reflexivity.
Qed.

Lemma similar_refl (a : jsstring) : similar a a = true.
Proof. unfold similar. rewrite eqb_refl. reflexivity. Qed.

Lemma subsequence_refl {A : Type} (l : list A) : subsequence l l.
Proof. induction l; constructor; assumption. Qed.

Lemma subsequence_length {A : Type} (l1 l2 : list A) :
  subsequence l1 l2 -> (List.length l1 <= List.length l2)%nat.
Proof. induction 1; simpl; lia. Qed.

Lemma subsequence_in {A : Type} (l1 l2 : list A) (x : A) :
  subsequence l1 l2 -> In x l1 -> In x l2.
Proof. induction 1; simpl; intuition. Qed.

Lemma subsequence_map {A B : Type} (f : A -> B) (l1 l2 : list A) :
  subsequence l1 l2 -> subsequence (map f l1) (map f l2).
Proof. induction 1; simpl; constructor; assumption. Qed.

Lemma subsequence_NoDup {A : Type} (l1 l2 : list A) :
  subsequence l1 l2 -> NoDup l2 -> NoDup l1.
Proof.
  induction 1; intros Hnd; [constructor| |].
  - inversion Hnd; auto.
  - inversion Hnd; subst. constructor; [|auto].
    intros Hin. eauto using subsequence_in.
Qed.

(** What the outer loop adds to its two accumulators. *)
Lemma dedupLoop_spec (questions : list Question) : forall unique accepted,
  exists kept,
    dedupLoop questions unique accepted
    = (unique ++ kept, accepted ++ map fingerprintOf kept)
    /\ subsequence kept (map cleaned questions)
    /\ Forall (fun q => fingerprintOf q <> []) kept
    /\ (forall k1 x k2, kept = k1 ++ x :: k2 ->
          existsb (similar (fingerprintOf x))
                  (accepted ++ map fingerprintOf k1) = false)
    /\ Forall (fun q =>
                 fingerprintOf (cleaned q) = []
                 \/ existsb (similar (fingerprintOf (cleaned q)))
                            (accepted ++ map fingerprintOf kept) = true)
              questions.
Proof.
  induction questions as [|q0 rest IH]; intros unique accepted.
  - exists []. simpl. rewrite !app_nil_r. repeat split; try constructor.
    intros [|? ?] x k2 H; discriminate H.
  - cbn [dedupLoop].
    change (setQuestionText q0 (cleanQuestionPrefix (questionText q0)))
      with (cleaned q0).
    change (fingerprint (questionText (cleaned q0)))
      with (fingerprintOf (cleaned q0)).
    destruct (len (fingerprintOf (cleaned q0)) =? 0) eqn:Elen.
    + destruct (IH unique accepted) as [kept [Hrun [Hsub [Hne [Hpair Hall]]]]].
      exists kept. split; [exact Hrun|]. split; [simpl; constructor; exact Hsub|].
      split; [exact Hne|]. split; [exact Hpair|].
      constructor; [|exact Hall]. left.
      apply Z.eqb_eq in Elen. unfold len in Elen.
      destruct (fingerprintOf (cleaned q0)); [reflexivity | simpl in Elen; lia].
    + rewrite isDuplicate_similar.
      destruct (existsb (similar (fingerprintOf (cleaned q0))) accepted)
        eqn:Edup.
      * destruct (IH unique accepted)
          as [kept [Hrun [Hsub [Hne [Hpair Hall]]]]].
        exists kept. split; [exact Hrun|].
        split; [simpl; constructor; exact Hsub|].
        split; [exact Hne|]. split; [exact Hpair|].
        constructor; [|exact Hall]. right.
        rewrite existsb_app, Edup. reflexivity.
      * destruct (IH (unique ++ [cleaned q0])
                     (accepted ++ [fingerprintOf (cleaned q0)]))
          as [kept [Hrun [Hsub [Hne [Hpair Hall]]]]].
        exists (cleaned q0 :: kept).
        split; [rewrite Hrun, <- !app_assoc; reflexivity|].
        split; [simpl; constructor; exact Hsub|].
        split.
        { constructor; [|exact Hne]. intros H. rewrite H in Elen.
          discriminate Elen. }
        split.
        { intros [|y k1] x k2 H; simpl in H; inversion H; subst.
          - simpl. rewrite app_nil_r. exact Edup.
          - specialize (Hpair k1 x k2 eq_refl).
            rewrite <- app_assoc in Hpair. exact Hpair. }
        constructor.
        { right. rewrite existsb_app. simpl. rewrite similar_refl.
          rewrite orb_true_r. reflexivity. }
        eapply Forall_impl; [|exact Hall]. simpl.
        intros q H. rewrite <- app_assoc in H. exact H.
Qed.

(** The kept questions are the cleaned inputs, in input order. *)
Lemma deduplicate_kept_in_order (questions : list Question) :
  subsequence (deduplicate questions) (map cleaned questions).
Proof.
  destruct (dedupLoop_spec questions [] []) as [kept [Hrun [Hsub _]]].
  unfold deduplicate. rewrite Hrun. exact Hsub.
Qed.

End DedupInvariants.

(** X9: the deduplicator returns the cleaned input questions with some of
    them left out: it keeps the order of arrival, never invents, repeats or
    alters a question beyond cleaning its text, and so never returns more
    questions than it was given. *)
Theorem deduplicate_is_subsequence (questions : list Question) :
  subsequence (deduplicate questions) (map cleaned questions)
  /\ (List.length (deduplicate questions) <= List.length questions)%nat.
Proof.
  destruct (dedupLoop_spec questions [] []) as [kept [Hrun [Hsub _]]].
  unfold deduplicate. rewrite Hrun. simpl. split; [exact Hsub|].
  apply subsequence_length in Hsub. rewrite length_map in Hsub. exact Hsub.
Qed.

(** X10: no returned question has an empty fingerprint, and no two returned
    questions are duplicates of one another under the three rules, whichever
    of the two is taken first: their fingerprints differ, and when both are
    longer than 10 characters neither includes the other and their first 15
    characters differ. *)
Theorem deduplicate_pairwise_distinct (questions : list Question) :
  let fingerprints := map fingerprintOf (deduplicate questions) in
  Forall (fun fp => fp <> []) fingerprints
  /\ ForallOrdPairs
       (fun a b => a <> b /\ similar a b = false /\ similar b a = false)
       fingerprints
  /\ NoDup fingerprints.
Proof.
  destruct (dedupLoop_spec questions [] [])
    as [kept [Hrun [_ [Hne [Hpair _]]]]].
  cbv zeta. unfold deduplicate. rewrite Hrun. simpl. clear Hrun.
  assert (Hord : ForallOrdPairs
            (fun a b => a <> b /\ similar a b = false /\ similar b a = false)
            (map fingerprintOf kept)).
  { assert (Hgen : forall k1 k2, kept = k1 ++ k2 ->
              ForallOrdPairs
                (fun a b => a <> b /\ similar a b = false
                            /\ similar b a = false)
                (map fingerprintOf k2)).
    { intros k1 k2. revert k1.
      induction k2 as [|x k2 IH]; intros k1 Hk; simpl; [constructor|].
      constructor.
      - apply Forall_forall. intros b Hb.
        apply in_map_iff in Hb. destruct Hb as [y [<- Hy]].
        apply in_split in Hy. destruct Hy as [m1 [m2 ->]].
        assert (Hk' : kept = (k1 ++ x :: m1) ++ y :: m2)
          by (rewrite Hk, <- app_assoc; reflexivity).
        specialize (Hpair _ _ _ Hk'). simpl in Hpair.
        rewrite map_app, existsb_app in Hpair. simpl in Hpair.
        apply orb_false_iff in Hpair. destruct Hpair as [_ Hpair].
        apply orb_false_iff in Hpair. destruct Hpair as [Hyx _].
        split; [|split].
        + intros Heq. rewrite Heq, similar_refl in Hyx. discriminate.
        + rewrite similar_sym. exact Hyx.
        + exact Hyx.
      - apply (IH (k1 ++ [x])). rewrite <- app_assoc. exact Hk. }
    apply (Hgen [] kept eq_refl). }
  split; [|split].
  - apply Forall_forall. intros fp Hfp. apply in_map_iff in Hfp.
    destruct Hfp as [q [<- Hq]]. rewrite Forall_forall in Hne. auto.
  - exact Hord.
  - clear Hne Hpair. induction Hord as [|a l Ha Hl IH]; constructor; auto.
    intros Hin. rewrite Forall_forall in Ha. destruct (Ha a Hin) as [Hneq _].
    apply Hneq. reflexivity.
Qed.

(** X11: no question is dropped without reason: every input question either
    has an empty fingerprint once cleaned, or the returned list holds a
    question (possibly itself) whose fingerprint is a duplicate of its own
    under the three rules. *)
Theorem deduplicate_drops_only_duplicates (questions : list Question) :
  Forall (fun q =>
            fingerprintOf (cleaned q) = []
            \/ exists kept,
                 In kept (deduplicate questions)
                 /\ similar (fingerprintOf (cleaned q)) (fingerprintOf kept)
                    = true)
         questions.
Proof.
  destruct (dedupLoop_spec questions [] [])
    as [kept [Hrun [_ [_ [_ Hall]]]]].
  unfold deduplicate. rewrite Hrun. simpl.
  eapply Forall_impl; [|exact Hall]. simpl.
  intros q [H | H]; [left; exact H | right].
  apply existsb_exists in H. destruct H as [fp [Hin Hsim]].
  apply in_map_iff in Hin. destruct Hin as [k [<- Hk]]. eauto.
Qed.

(* ================================================================== *)
(** * Shards, modes and identifiers *)
(* ================================================================== *)

Section GatherFacts.

Variable W : World.


(** SERIAL: the loop fulfils exactly when every remaining shard does, with
    the questions of the shards appended in order. *)
Lemma serialLoop_fulfilled cfg count total (batches : list Z) :
  forall i currentProgress acc questions,
  snd (serialLoop W cfg count total i batches currentProgress acc)
  = Fulfilled questions
  <-> (forall j, (i <= j < i + List.length batches)%nat ->
                 exists q, snd (shard W j) = Fulfilled q)
      /\ questions
         = acc ++ List.concat (map (shardQuestions W)
                                   (seq i (List.length batches))).
Proof.
  induction batches as [|b rest IH]; intros i cp acc questions.
  - simpl. rewrite app_nil_r. split.
    + intros H; inversion H; subst. split; [intros j Hj; lia | reflexivity].
    + intros [_ ->]. reflexivity.
  - cbn [serialLoop List.length seq map List.concat].
    unfold shardQuestions at 1.
    destruct (snd (shard W i)) as [batchQuestions|e] eqn:E; cbn [snd].
    + rewrite IH. rewrite app_assoc. split.
      * intros [Hall ->]. split; [|reflexivity].
        intros j Hj. destruct (Nat.eq_dec j i) as [-> | Hne]; [eauto|].
        apply Hall. lia.
      * intros [Hall ->]. split; [|reflexivity].
        intros j Hj. apply Hall. lia.
    + split; [discriminate|]. intros [Hall _].
      destruct (Hall i) as [q Hq]; [lia|]. congruence.
Qed.


Lemma values_shardQuestions (n : nat) : forall i,
  List.concat (values (map (fun j => snd (shard W j)) (seq i n)))
  = List.concat (map (shardQuestions W) (seq i n)).
Proof.
  induction n as [|n IH]; intros i; [reflexivity|].
  cbn [seq map]. unfold shardQuestions at 1.
  destruct (snd (shard W i)); cbn [values List.concat]; rewrite IH;
    reflexivity.
Qed.

(** Either mode gathers the questions of all shards, in shard order, and
    does so exactly when every shard fulfils. *)
Lemma gather_fulfilled cfg count (batchCounts : list Z) questions :
  snd (gather W cfg count batchCounts) = Fulfilled questions
  <-> (forall j, (j < List.length batchCounts)%nat ->
                 exists q, snd (shard W j) = Fulfilled q)
      /\ questions = allShards W (List.length batchCounts).
Proof.
  unfold gather, allShards. destruct (shardingMode cfg) eqn:Hmode.
  - rewrite serialLoop_fulfilled. simpl. split.
    + intros [Hall ->]. split; [|reflexivity]. intros j Hj. apply Hall. lia.
    + intros [Hall ->]. split; [|reflexivity]. intros j Hj. apply Hall. lia.
  - unfold parallelRun. cbn [snd]. rewrite launchLoop_outcomes.
    set (promises := map (fun j => snd (shard W j))
                         (seq 0 (List.length batchCounts))).
    assert (Hnth : forall k, nth_error promises k
                   = if (k <? List.length batchCounts)%nat
                     then Some (snd (shard W k)) else None).
    { intros k. unfold promises. rewrite nth_error_map_seq. reflexivity. }
    pose proof (Promise_all_spec (settleTime W)
                  (joinInstant W cfg (List.length batchCounts)) promises)
      as Hall.
    destruct (Promise_all (settleTime W)
                (joinInstant W cfg (List.length batchCounts)) promises)
      as [vs|e'].
    + destruct Hall as [-> Hnone].
      unfold promises at 1. rewrite values_shardQuestions. split.
      * intros H; inversion H; subst. split; [|reflexivity].
        intros j Hj. destruct (snd (shard W j)) as [q|e] eqn:E; [eauto|].
        exfalso. apply (Hnone j e). rewrite Hnth.
        apply Nat.ltb_lt in Hj. rewrite Hj, E. reflexivity.
      * intros [_ ->]. reflexivity.
    + destruct Hall as [j [Hj _]]. rewrite Hnth in Hj.
      destruct (j <? List.length batchCounts)%nat eqn:Ej; [|discriminate Hj].
      apply Nat.ltb_lt in Ej.
      split; [discriminate|]. intros [Hall _].
      destruct (Hall j Ej) as [q Hq]. congruence.
Qed.

End GatherFacts.

(** X12: the scheduling mode and the delay between shards do not change what
    a run returns: for the same backend behaviour and batch size, a run
    resolves in one configuration exactly when it resolves in the other, and
    then with the same list; the questions of the shards are gathered in
    shard order in PARALLEL mode too, whatever the order of completion. *)
Theorem result_independent_of_mode (W : World) (size delay delay' : Z)
  (mode mode' : ShardingMode) (materials : list Material) (count : Z)
  (shuffle : bool) (returned : list Question) :
  let cfg := {| userBatchSize := size; userRequestDelay := delay;
                shardingMode := mode |} in
  let cfg' := {| userBatchSize := size; userRequestDelay := delay';
                 shardingMode := mode' |} in
  snd (generateExamQuestions W cfg materials count shuffle)
  = Resolved returned
  <-> snd (generateExamQuestions W cfg' materials count shuffle)
      = Resolved returned.
Proof.
  cbv zeta. unfold generateExamQuestions. cbn [userBatchSize].
  destruct (shardPlan count size) as [batchCounts|]; [|tauto].
  set (cfg := {| userBatchSize := size; userRequestDelay := delay;
                 shardingMode := mode |}).
  set (cfg' := {| userBatchSize := size; userRequestDelay := delay';
                  shardingMode := mode' |}).
  pose proof (gather_fulfilled W cfg count batchCounts) as H.
  pose proof (gather_fulfilled W cfg' count batchCounts) as H'.
  destruct (snd (gather W cfg count batchCounts)) as [q|e];
    destruct (snd (gather W cfg' count batchCounts)) as [q'|e']; cbn [snd].
  - assert (q = q').
    { destruct (proj1 (H q) eq_refl) as [_ ->].
      destruct (proj1 (H' q') eq_refl) as [_ ->]. reflexivity. }
    subst q'. tauto.
  - exfalso. destruct (proj1 (H q) eq_refl) as [Hall Hq].
    assert (Hx : Rejected e' = Fulfilled q) by (apply H'; auto).
    discriminate Hx.
  - exfalso. destruct (proj1 (H' q') eq_refl) as [Hall Hq].
    assert (Hx : Rejected e = Fulfilled q') by (apply H; auto).
    discriminate Hx.
  - split; discriminate.
Qed.



Section Identifiers.

Variable W : World.

Lemma mapQuestion_keys (now : nat -> Z) (batchIndex : Z)
  (raws : list RawQuestion) : forall start,
  map idKey (map (fun iq => mapQuestion (now (fst iq)) batchIndex (fst iq)
                                        (snd iq))
                 (combine (seq start (List.length raws)) raws))
  = map (fun k => (batchIndex, Z.of_nat k)) (seq start (List.length raws)).
Proof.
  induction raws as [|r raws IH]; intros start; [reflexivity|].
  cbn [List.length seq combine map]. rewrite IH. reflexivity.
Qed.

(** The identifiers of a shard: its own index, then the position. *)
Lemma shard_keys (i : nat) :
  exists n,
    map idKey (shardQuestions W i)
    = map (fun k => (Z.of_nat i, Z.of_nat k)) (seq 0 n).
Proof.
  unfold shardQuestions, shard, generateBatchQuestions. cbn [snd].
  destruct (snd (callWithRetry (backend W i)
                   (GenerateBatch (Z.of_nat i + 1)) 3 2000%Q true 0))
    as [[| e | raws] | e]; try (exists 0%nat; reflexivity).
  exists (List.length raws). apply mapQuestion_keys.
Qed.

Lemma shard_keys_NoDup (i : nat) : NoDup (map idKey (shardQuestions W i)).
Proof.
  destruct (shard_keys i) as [n ->].
  apply Finite.Injective_map_NoDup_in; [|apply seq_NoDup].
  intros a b _ _ H. injection H as H. lia.
Qed.

Lemma shard_keys_batch (i : nat) (x : Z * Z) :
  In x (map idKey (shardQuestions W i)) -> fst x = Z.of_nat i.
Proof.
  destruct (shard_keys i) as [n ->]. intros H.
  apply in_map_iff in H. destruct H as [k [<- _]]. reflexivity.
Qed.

Lemma allShards_S (n : nat) :
  allShards W (S n) = allShards W n ++ shardQuestions W n.
Proof.
  unfold allShards. rewrite seq_S, map_app, concat_app. simpl.
  rewrite app_nil_r. reflexivity.
Qed.

Lemma allShards_keys_batch (n : nat) (x : Z * Z) :
  In x (map idKey (allShards W n)) -> fst x < Z.of_nat n.
Proof.
  induction n as [|n IH]; [intros []|].
  rewrite allShards_S, map_app, in_app_iff. intros [H | H].
  - specialize (IH H). lia.
  - apply shard_keys_batch in H. lia.
Qed.

Lemma allShards_keys_NoDup (n : nat) : NoDup (map idKey (allShards W n)).
Proof.
  induction n as [|n IH]; [constructor|].
  rewrite allShards_S, map_app. apply NoDup_app; [exact IH | |].
  - apply shard_keys_NoDup.
  - intros x Hx Hn. apply allShards_keys_batch in Hx.
    apply shard_keys_batch in Hn. lia.
Qed.

Lemma cleaned_keys (questions : list Question) :
  map idKey (map cleaned questions) = map idKey questions.
Proof. rewrite map_map. reflexivity. Qed.

(** What a resolved run returns, traced back to the shards. *)
Lemma resolved_from_shards cfg materials count shuffle returned :
  snd (generateExamQuestions W cfg materials count shuffle)
  = Resolved returned ->
  exists batchCounts kept,
    shardPlan count (userBatchSize cfg) = Some batchCounts
    /\ (forall j, (j < List.length batchCounts)%nat ->
                  exists q, snd (shard W j) = Fulfilled q)
    /\ subsequence kept
         (map cleaned (allShards W (List.length batchCounts)))
    /\ Permutation kept returned
    /\ (shuffle = false -> returned = kept).
Proof.
  unfold generateExamQuestions.
  destruct (shardPlan count (userBatchSize cfg)) as [batchCounts|];
    [|discriminate].
  destruct (snd (gather W cfg count batchCounts)) as [gathered|e] eqn:Hg;
    [|discriminate].
  cbn [snd]. intros H. injection H as Hret.
  apply gather_fulfilled in Hg. destruct Hg as [Hall ->].
  exists batchCounts, (deduplicate (allShards W (List.length batchCounts))).
  split; [reflexivity|]. split; [exact Hall|].
  split; [apply deduplicate_kept_in_order|].
  subst returned. split.
  - destruct shuffle; [apply sortRandom_perm | apply Permutation_refl].
  - intros ->. reflexivity.
Qed.

End Identifiers.

(** X14: a resolved run needed every planned shard to fulfil, and what it
    returns are questions of the shards with their prefixes cleaned: without
    shuffling they come in shard order and, within a shard, in the order of
    the reply; with shuffling they are a rearrangement of such a list. *)
Theorem returned_questions_come_from_shards (W : World) (cfg : Config)
  (materials : list Material) (count : Z) (shuffle : bool)
  (returned : list Question) :
  snd (generateExamQuestions W cfg materials count shuffle)
  = Resolved returned ->
  exists batchCounts kept,
    shardPlan count (userBatchSize cfg) = Some batchCounts
    /\ (forall j, (j < List.length batchCounts)%nat ->
                  exists q, snd (shard W j) = Fulfilled q)
    /\ subsequence kept
         (map cleaned (allShards W (List.length batchCounts)))
    /\ Permutation kept returned
    /\ (shuffle = false -> returned = kept).
Proof. apply resolved_from_shards. Qed.

Lemma returned_questions_come_from_shards_witness :
  exists batchCounts kept,
    shardPlan 5 (userBatchSize serialConfig) = Some batchCounts
    /\ (forall j, (j < List.length batchCounts)%nat ->
                  exists q, snd (shard quietWorld j) = Fulfilled q)
    /\ subsequence kept
         (map cleaned (allShards quietWorld (List.length batchCounts)))
    /\ Permutation kept
         (map shortAnswerFrom [(0, js "What is X?"); (1, js "test")])
    /\ (true = false ->
        map shortAnswerFrom [(0, js "What is X?"); (1, js "test")] = kept).
Proof.
  apply (returned_questions_come_from_shards quietWorld serialConfig
           [sampleMaterial] 5 true).
  vm_compute. reflexivity.
Defined.

(** X15: the questions a run returns carry pairwise distinct identifiers,
    whatever the clock reads: two of them differ in the shard index or in
    the position within the shard. *)
Theorem returned_ids_distinct (W : World) (cfg : Config)
  (materials : list Material) (count : Z) (shuffle : bool)
  (returned : list Question) :
  snd (generateExamQuestions W cfg materials count shuffle)
  = Resolved returned ->
  NoDup (map idKey returned) /\ NoDup (map id returned).
Proof.
  intros Hrun.
  destruct (resolved_from_shards W cfg materials count shuffle returned Hrun)
    as [batchCounts [kept [_ [_ [Hsub [Hperm _]]]]]].
  assert (Hkeys : NoDup (map idKey returned)).
  { eapply Permutation_NoDup; [apply Permutation_map, Hperm|].
    eapply subsequence_NoDup; [apply subsequence_map, Hsub|].
    rewrite cleaned_keys. apply allShards_keys_NoDup. }
  split; [exact Hkeys|].
  change (map idKey returned)
    with (map (fun q => (id_batchIndex (id q), id_index (id q))) returned)
    in Hkeys.
  rewrite <- (map_map id (fun x => (id_batchIndex x, id_index x))) in Hkeys.
  apply NoDup_map_inv in Hkeys. exact Hkeys.
Qed.

Lemma returned_ids_distinct_witness :
  let returned := map shortAnswerFrom [(0, js "What is X?"); (1, js "test")] in
  NoDup (map idKey returned) /\ NoDup (map id returned).
Proof.
  apply (returned_ids_distinct quietWorld serialConfig [sampleMaterial] 5
                               true).
  vm_compute. reflexivity.
Defined.

Section LaunchFacts.

Variable W : World.

Lemma retryMessages_are_retries (trace : list retryEvent) :
  Forall (fun msg => exists a n, msg = MsgRetry a n) (retryMessages trace).
Proof.
  induction trace as [|[k | a n | d] rest IH]; simpl; eauto.
Qed.

Lemma shard0Retries_lines (currentProgress : Z)
  (keep : nat * message -> bool) :
  Forall (fun e => isRetryLine e = true)
         (map (fun km => Log (snd km) currentProgress)
              (filter keep (shard0Retries W))).
Proof.
  apply Forall_forall. intros e He.
  apply in_map_iff in He. destruct He as [[k msg] [<- Hin]].
  apply filter_In in Hin. destruct Hin as [Hin _].
  unfold shard0Retries in Hin. apply in_combine_r in Hin.
  pose proof (retryMessages_are_retries (fst (shard W 0))) as Hall.
  rewrite Forall_forall in Hall. destruct (Hall msg Hin) as [a [n ->]].
  reflexivity.
Qed.

Lemma retry_lines_are_not_launches (logs : list LogEntry) :
  Forall (fun e => isRetryLine e = true) logs ->
  filter isShardLaunch logs = [].
Proof.
  induction 1 as [|[msg p] logs Hx _ IH]; [reflexivity|].
  simpl. rewrite IH. destruct msg; try discriminate Hx; reflexivity.
Qed.

Lemma arrivedDuring_no_launch cfg total j currentProgress :
  filter isShardLaunch (arrivedDuring W cfg total j currentProgress) = [].
Proof.
  unfold arrivedDuring. destruct (hasWait cfg total j); [|reflexivity].
  apply retry_lines_are_not_launches, shard0Retries_lines.
Qed.

Lemma arrivedLate_no_launch cfg total currentProgress :
  filter isShardLaunch (arrivedLate W cfg total currentProgress) = [].
Proof.
  unfold arrivedLate. destruct total; [reflexivity|].
  apply retry_lines_are_not_launches, shard0Retries_lines.
Qed.

(** The launch lines of the loop: one per shard, in shard order. *)
Lemma launchLoop_launches cfg total (batches : list Z) :
  forall i currentProgress,
  filter isShardLaunch
         (fst (launchLoop W cfg total i batches currentProgress))
  = map (fun j => Log (MsgShardLaunch (Z.of_nat j + 1) (Z.of_nat total))
                      currentProgress)
        (seq i (List.length batches)).
Proof.
  induction batches as [|b rest IH]; intros i p; [reflexivity|].
  cbn [launchLoop fst]. rewrite filter_app, arrivedDuring_no_launch.
  cbn [app filter isShardLaunch log_message List.length seq map].
  rewrite IH. reflexivity.
Qed.

Lemma retry_lines_are_not_the_join (logs : list LogEntry) :
  Forall (fun e => isRetryLine e = true) logs ->
  Forall (fun e => log_message e <> MsgAllLaunched) logs.
Proof.
  apply Forall_impl. intros [msg p] Hx. destruct msg; try discriminate Hx.
  discriminate.
Qed.

Lemma launchLoop_before_join cfg total (batches : list Z) :
  forall i currentProgress,
  Forall (fun e => log_message e <> MsgAllLaunched)
         (fst (launchLoop W cfg total i batches currentProgress)).
Proof.
  induction batches as [|b rest IH]; intros i p; [constructor|].
  cbn [launchLoop fst]. apply Forall_app. split.
  - unfold arrivedDuring. destruct (hasWait cfg total i); [|constructor].
    apply retry_lines_are_not_the_join, shard0Retries_lines.
  - constructor; [discriminate | apply IH].
Qed.

Lemma enrich_logs_no_launch (materials : list Material) :
  filter isShardLaunch (enrich_logs (fetchExternalContext W materials)) = []
  /\ Forall (fun e => log_message e <> MsgAllLaunched)
            (enrich_logs (fetchExternalContext W materials)).
Proof.
  unfold fetchExternalContext. destruct materials; [split; constructor|].
  destruct (keywordReply W) as [text|];
    [|split; [reflexivity | repeat constructor; discriminate]].
  destruct (nothingToSearch (extractKeywords text));
    [split; [reflexivity | repeat constructor; discriminate]|].
  destruct (searchReply W (extractKeywords text)) as [ctx|];
    [|split; [reflexivity | repeat constructor; discriminate]].
  destruct (0 <? len ctx);
    (split; [reflexivity | repeat constructor; discriminate]).
Qed.

(** The log of a PARALLEL run up to the join line, and after it. *)
Lemma parallel_log_shape cfg materials count shuffle batchCounts :
  shardingMode cfg = PARALLEL ->
  shardPlan count (userBatchSize cfg) = Some batchCounts ->
  let total := List.length batchCounts in
  let before :=
    (Log MsgEngineStart 5
       :: enrich_logs (fetchExternalContext W materials)
       ++ [Log MsgSharding 30])
    ++ [Log (MsgConfig (userBatchSize cfg) (Z.of_nat total)
                       (userRequestDelay cfg) (shardingMode cfg)) 35]
    ++ Log (MsgParallelStart (userRequestDelay cfg) (Z.of_nat total)) 40
    :: fst (launchLoop W cfg total 0 batchCounts 40) in
  exists after,
    fst (generateExamQuestions W cfg materials count shuffle)
    = before ++ Log MsgAllLaunched 80 :: after
    /\ filter isShardLaunch after = [].
Proof.
  intros Hmode Hplan. cbv zeta.
  unfold generateExamQuestions. rewrite Hplan.
  unfold gather, parallelRun. rewrite Hmode. cbn [fst snd].
  destruct (Promise_all _ _ _) as [results|e]; cbn [fst].
  - eexists (arrivedLate W cfg (List.length batchCounts) 40
             ++ Log MsgDedupStart 95 :: _).
    split.
    + rewrite <- !app_assoc. cbn [app]. rewrite <- !app_assoc. cbn [app].
      reflexivity.
    + rewrite filter_app, arrivedLate_no_launch.
      destruct (_ <? _)%nat; reflexivity.
  - exists (arrivedLate W cfg (List.length batchCounts) 40).
    split; [|apply arrivedLate_no_launch].
    rewrite <- !app_assoc. cbn [app]. rewrite <- !app_assoc. cbn [app].
    reflexivity.
Qed.

End LaunchFacts.

(** X16: in PARALLEL mode the log holds exactly one launch line per planned
    shard, in shard order and at progress 40, and all of them come before
    the line that all shards are posted, logged at 80.  No launch waits for
    the outcome of another shard or is cancelled by it: the lines are there
    whatever the shards answer, also when the run then fails. *)
Theorem parallel_launches_every_shard (W : World) (cfg : Config)
  (materials : list Material) (count : Z) (shuffle : bool)
  (batchCounts : list Z) :
  shardingMode cfg = PARALLEL ->
  shardPlan count (userBatchSize cfg) = Some batchCounts ->
  let total := List.length batchCounts in
  exists before after,
    fst (generateExamQuestions W cfg materials count shuffle)
    = before ++ Log MsgAllLaunched 80 :: after
    /\ filter isShardLaunch before
       = map (fun i => Log (MsgShardLaunch (Z.of_nat i + 1) (Z.of_nat total))
                           40)
             (seq 0 total)
    /\ Forall (fun e => log_message e <> MsgAllLaunched) before
    /\ filter isShardLaunch after = [].
Proof.
  intros Hmode Hplan. cbv zeta.
  destruct (parallel_log_shape W cfg materials count shuffle batchCounts
              Hmode Hplan) as [after [Hlogs Hafter]].
  cbv zeta in Hlogs. eexists. exists after.
  split; [exact Hlogs|].
  destruct (enrich_logs_no_launch W materials) as [Hnone Hnojoin].
  split; [|split; [|exact Hafter]].
  - rewrite !filter_app. cbn [filter isShardLaunch log_message app].
    rewrite filter_app, Hnone. cbn [filter isShardLaunch log_message app].
    apply launchLoop_launches.
  - apply Forall_app. split; [|apply Forall_app; split].
    + constructor; [discriminate|]. apply Forall_app. split; [exact Hnojoin|].
      constructor; [discriminate | constructor].
    + constructor; [discriminate | constructor].
    + constructor; [discriminate | apply launchLoop_before_join].
Qed.

Lemma parallel_launches_every_shard_witness :
  exists before after,
    fst (generateExamQuestions brokenShardWorld smallBatches
                               [sampleMaterial] 5 false)
    = before ++ Log MsgAllLaunched 80 :: after
    /\ filter isShardLaunch before
       = map (fun i => Log (MsgShardLaunch (Z.of_nat i + 1)
                                           (Z.of_nat (List.length [2; 2; 1])))
                           40)
             (seq 0 (List.length [2; 2; 1]))
    /\ Forall (fun e => log_message e <> MsgAllLaunched) before
    /\ filter isShardLaunch after = [].
Proof.
  apply (parallel_launches_every_shard brokenShardWorld smallBatches
           [sampleMaterial] 5 false [2; 2; 1]);
    [reflexivity | vm_compute; reflexivity].
Defined.

(* ================================================================== *)
(** * Progress, retries and replies of a shard *)
(* ================================================================== *)

(** X17: in SERIAL mode the progress values handed to the log sink never
    decrease over a run, whether it resolves, fails or stalls in the
    planner, and stay between 0 and 100. *)
Theorem serial_progress_never_decreases (W : World) (cfg : Config)
  (materials : list Material) (count : Z) (shuffle : bool) :
  shardingMode cfg = SERIAL ->
  let progress :=
    progressOf (fst (generateExamQuestions W cfg materials count shuffle)) in
  StronglySorted Z.le progress /\ Forall (fun p => 0 <= p <= 100) progress.
Proof.
  intros Hmode. cbv zeta.
  pose proof (serial_progress_rises W cfg materials count shuffle Hmode) as H.
  split; [eapply rises_sorted | eapply rises_Forall]; exact H.
Qed.

Lemma serial_progress_never_decreases_witness :
  let progress :=
    progressOf (fst (generateExamQuestions flakyWorld serialConfig
                                           [sampleMaterial] 5 false)) in
  StronglySorted Z.le progress /\ Forall (fun p => 0 <= p <= 100) progress.
Proof.
  apply (serial_progress_never_decreases flakyWorld serialConfig
           [sampleMaterial] 5 false).
  reflexivity.
Defined.

Lemma normalizeAnswer_sequence_witness :
  isSequence (normalizeAnswer (js "ORDERING") (JString (js "B、A")))
  \/ (startsWith (trim (js "B、A")) (js "[") = false
      /\ includes (js "B、A") (js ",") = true
      /\ exists v, Json.parse (js "B、A") = Some v
                   /\ normalizeAnswer (js "ORDERING") (JString (js "B、A")) = v).
Proof.
  apply (normalizeAnswer_sequence (js "ORDERING") (js "B、A")).
  vm_compute. reflexivity.
Defined.

Lemma parallel_single_shard_not_monotone_witness :
  ~ StronglySorted Z.le
      (progressOf (fst (generateExamQuestions flakyWorld parallelConfig
                                              [sampleMaterial] 5 false))).
Proof.
  apply (parallel_single_shard_not_monotone flakyWorld parallelConfig
           [sampleMaterial] 5 false 5 (ServiceError 503)).
  - reflexivity.
  - vm_compute. reflexivity.
  - reflexivity.
Defined.

(** X20: only a failure of the backend call is retried.  When the call
    answers after [k] failures, [k] at most 3, the shard makes no further
    call: a reply without text rejects the shard with the error that names
    the batch, a reply that cannot be read rejects it with what the parsing
    threw, and a readable reply gives one question per record, with type and
    text as received. *)
Theorem unusable_reply_not_retried (fn : nat -> outcome reply)
  (now : nat -> Z) (batchIndex : nat) (onBatchLog : bool) (k : nat)
  (answer : reply) :
  (k <= 3)%nat ->
  (forall j, (j < k)%nat -> exists e, fn j = Rejected e) ->
  fn k = Fulfilled answer ->
  let run := generateBatchQuestions fn now batchIndex onBatchLog in
  invocations (fst run) = S k
  /\ match answer with
     | ReplyNoText =>
       snd run = Rejected (NoTextError (Z.of_nat batchIndex + 1))
     | ReplyMalformed thrown => snd run = Rejected thrown
     | ReplyQuestions raws =>
       exists questions,
         snd run = Fulfilled questions
         /\ map type questions = map raw_type raws
         /\ map questionText questions = map raw_questionText raws
     end.
Proof.
  intros Hk Hfail Hok. cbv zeta. unfold generateBatchQuestions.
  rewrite (callWithRetry_first_success fn
             (GenerateBatch (Z.of_nat batchIndex + 1)) onBatchLog 3 2000%Q k
             answer ltac:(lia) Hfail Hok).
  cbn [fst snd]. rewrite retryTrace_invocations. split; [reflexivity|].
  destruct answer as [| thrown | raws]; try reflexivity.
  eexists. split; [reflexivity|].
  destruct (mapQuestion_all now (Z.of_nat batchIndex) raws 0%nat)
    as [_ [Ht Hq]].
  split; assumption.
Qed.

Lemma unusable_reply_not_retried_witness :
  let fn := fun j : nat => match j with
                           | 0%nat => Rejected (ServiceError 503)
                           | _ => Fulfilled ReplyNoText
                           end in
  let run := generateBatchQuestions fn (fun _ => 0) 2 true in
  invocations (fst run) = 2%nat
  /\ snd run = Rejected (NoTextError (Z.of_nat 2 + 1)).
Proof.
  intros fn.
  apply (unusable_reply_not_retried fn (fun _ => 0) 2 true 1 ReplyNoText).
  - lia.
  - intros [|j] Hj; [eexists; reflexivity | lia].
  - reflexivity.
Defined.

(* ================================================================== *)
(** * Answer normalizer: array texts and the fallback *)
(* ================================================================== *)

Section ArrayTexts.

Lemma parseString_plain (s rest : jsstring) : forall acc,
  forallb isPlain s = true ->
  parseString (s ++ 0x22 :: rest) acc = Some (rev acc ++ s, rest).
Proof.
  induction s as [|c s IH]; intros acc Hs.
  - simpl. rewrite app_nil_r. reflexivity.
  - cbn [forallb] in Hs. apply andb_true_iff in Hs. destruct Hs as [Hc Hs].
    unfold isPlain in Hc. rewrite !andb_true_iff, !negb_true_iff in Hc.
    destruct Hc as [[H1 H2] H3].
    cbn [app parseString]. rewrite H2, H3.
    assert (Hlt : (c <? 0x20) = false) by lia. rewrite Hlt.
    rewrite IH by exact Hs. cbn [rev]. rewrite <- app_assoc. reflexivity.
Qed.

Lemma parseValue_literal (fuel : nat) (s rest : jsstring) :
  forallb isPlain s = true ->
  parseValue (S fuel) (literal s ++ rest) = POk (JString s) rest.
Proof.
  intros Hs. unfold literal. rewrite <- !app_assoc.
  cbn [parseValue quote app skipWs dropWhile].
  change (isJsonWs 34) with false. cbv iota.
  change (34 =? 91) with false. change (34 =? 123) with false.
  change (34 =? 34) with true. cbv iota.
  rewrite parseString_plain by exact Hs. reflexivity.
Qed.

Lemma joinWith_cons (sep p q : jsstring) (rest : list jsstring) :
  joinWith sep (p :: q :: rest) = p ++ sep ++ joinWith sep (q :: rest).
Proof. reflexivity. Qed.

Lemma parseElements_step (fuel : nat) (s r r' : jsstring) (acc : list json)
  (v : json) (c : Z) :
  parseValue fuel s = POk v r -> skipWs r = c :: r' ->
  parseElements (S fuel) s acc
  = if c =? 0x2C then parseElements fuel r' (v :: acc)
    else if c =? 0x5D then POk (JArray (rev (v :: acc))) r'
    else PSyntaxError.
Proof. intros Hv Hr. cbn [parseElements]. rewrite Hv, Hr. reflexivity. Qed.

Lemma parseElements_literals (items : list jsstring) :
  forall item fuel acc rest,
  (List.length items + 2 <= fuel)%nat ->
  forallb (forallb isPlain) (item :: items) = true ->
  parseElements fuel
    (joinWith (js ",") (map literal (item :: items))
     ++ js "]" ++ rest) acc
  = POk (JArray (rev acc ++ map JString (item :: items))) rest.
Proof.
  induction items as [|next items IH]; intros item fuel acc rest Hfuel Hall;
    cbn [forallb] in Hall; apply andb_true_iff in Hall;
    destruct Hall as [Hitem Hall];
    (destruct fuel as [|[|fuel]]; [simpl in Hfuel; lia | simpl in Hfuel; lia |]).
  - cbn [map joinWith].
    rewrite (parseElements_step (S fuel) _ (js "]" ++ rest) rest acc
               (JString item) 0x5D);
      [| apply parseValue_literal; exact Hitem | reflexivity].
    cbn [Z.eqb Pos.eqb rev map]. reflexivity.
  - cbn [map]. rewrite joinWith_cons, <- !app_assoc.
    rewrite (parseElements_step (S fuel) _
               (js "," ++ joinWith (js ",")
                            (map (fun s => quote ++ s ++ quote)
                                 (next :: items)) ++ js "]" ++ rest)
               (joinWith (js ",")
                         (map literal (next :: items))
                ++ js "]" ++ rest)
               acc (JString item) 0x2C);
      [| apply parseValue_literal; exact Hitem | reflexivity].
    cbn [Z.eqb Pos.eqb].
    rewrite IH; [| simpl in *; lia | exact Hall].
    cbn [rev map]. rewrite <- app_assoc. reflexivity.
Qed.

Lemma parseValue_arrayText (items : list jsstring) (fuel : nat) :
  (List.length items + 3 <= fuel)%nat ->
  forallb (forallb isPlain) items = true ->
  parseValue fuel (arrayText items) = POk (JArray (map JString items)) [].
Proof.
  intros Hfuel Hall. destruct fuel as [|fuel]; [lia|].
  unfold arrayText. destruct items as [|item items].
  - reflexivity.
  - assert (Hlit : forall tail,
      skipWs (joinWith (js ",")
                (map literal (item :: items)) ++ tail)
      = 0x22 :: (match items with
                 | [] => item ++ quote
                 | _ :: _ => (item ++ quote) ++ js ","
                             ++ joinWith (js ",")
                                  (map literal items)
                 end) ++ tail).
    { intros tail. destruct items; reflexivity. }
    change (js "[" ++ ?x) with (0x5B :: x).
    cbn [parseValue skipWs dropWhile]. change (isJsonWs 91) with false.
    cbv iota. change (91 =? 91) with true. cbv iota.
    change (dropWhile isJsonWs ?x) with (skipWs x).
    rewrite Hlit. change (34 =? 93) with false. cbv iota.
    rewrite <- (app_nil_r (js "]")).
    rewrite parseElements_literals; [reflexivity | simpl in *; lia | exact Hall].
Qed.

End ArrayTexts.

Section NormalizerShapes.

Lemma trim_bracketed (body : jsstring) :
  trim (js "[" ++ body ++ js "]") = js "[" ++ body ++ js "]".
Proof.
  unfold trim. rewrite trimStart_stable.
  - apply trimEnd_stable. intros r x H.
    change (js "[" ++ body ++ js "]") with ((js "[" ++ body) ++ [0x5D]) in H.
    apply app_inj_tail in H. destruct H as [_ <-]. reflexivity.
  - intros x r H. injection H as <- _. reflexivity.
Qed.

Lemma joinWith_literals_length (items : list jsstring) :
  (List.length items
   <= List.length (joinWith (js ",") (map literal items)))%nat.
Proof.
  induction items as [|item [|next items] IH]; [simpl; lia | |].
  - unfold literal, quote. simpl. rewrite length_app. simpl. lia.
  - cbn [map] in *. rewrite joinWith_cons, !length_app.
    unfold literal at 1. unfold quote. simpl in *. lia.
Qed.

Lemma parse_arrayText (items : list jsstring) :
  forallb (forallb isPlain) items = true ->
  Json.parse (arrayText items) = Some (JArray (map JString items)).
Proof.
  intros Hall. unfold Json.parse.
  rewrite parseValue_arrayText; [reflexivity | | exact Hall].
  unfold arrayText. rewrite !length_app.
  pose proof (joinWith_literals_length items). simpl. lia.
Qed.





End NormalizerShapes.

(** X22: for the four sequence types, an answer that is the JSON text of an
    array of string literals becomes the array of those strings, in order;
    the literals here are the ones whose characters need no escape. *)
Theorem normalizeAnswer_array_text (qtype : jsstring)
  (items : list jsstring) :
  existsb (eqb qtype) sequenceTypes = true ->
  forallb (forallb isPlain) items = true ->
  normalizeAnswer qtype (JString (arrayText items))
  = JArray (map JString items).
Proof.
  intros Ht Hall. unfold normalizeAnswer. rewrite Ht.
  unfold arrayText at 1. rewrite trim_bracketed.
  change (startsWith (js "[" ++ ?x) (js "[")) with true.
  cbn [orb]. rewrite parse_arrayText by exact Hall. reflexivity.
Qed.

Lemma normalizeAnswer_array_text_witness :
  normalizeAnswer (js "MATCHING")
                  (JString (arrayText [js "A-1"; js "B 2"; js "丙"]))
  = JArray (map JString [js "A-1"; js "B 2"; js "丙"]).
Proof.
  apply (normalizeAnswer_array_text (js "MATCHING")
           [js "A-1"; js "B 2"; js "丙"]); reflexivity.
Defined.



(* ================================================================== *)
(** * Settings store *)
(* ================================================================== *)

Section NumberTexts.

Lemma digitValue_decimal (c : Z) :
  isDecimalDigit c -> digitValue 10 c = Some (c - 0x30).
Proof.
  unfold isDecimalDigit, digitValue, hexValue. intros H.
  replace ((48 <=? c) && (c <=? 57)) with true by lia.
  replace (c - 48 <? 10) with true by lia. reflexivity.
Qed.

Lemma digit_not_space (c : Z) : isDecimalDigit c -> isWhiteSpace c = false.
Proof. unfold isDecimalDigit, isWhiteSpace. lia. Qed.

Lemma valueOfDigits_app (digits : jsstring) (c : Z) :
  isDecimalDigit c ->
  forall start,
  fold_left (fun acc c => acc * 10
                          + match digitValue 10 c with
                            | Some v => v
                            | None => 0
                            end) (digits ++ [c]) start
  = fold_left (fun acc c => acc * 10
                            + match digitValue 10 c with
                              | Some v => v
                              | None => 0
                              end) digits start * 10 + (c - 0x30).
Proof.
  intros Hc start. rewrite fold_left_app. cbn [fold_left].
  rewrite (digitValue_decimal c Hc). reflexivity.
Qed.

Lemma log2_tenth (n : Z) : 10 <= n -> Z.log2 (n / 10) < Z.log2 n.
Proof.
  intros Hn.
  assert (H1 : Z.log2 (n / 10) <= Z.log2 (n / 2)).
  { apply Z.log2_le_mono. 
    assert (n / 10 * 10 <= n) by (pose proof (Z.mul_div_le n 10); lia).
    apply Z.div_le_lower_bound; lia. }
  assert (H2 : Z.log2 (2 * (n / 2)) = Z.succ (Z.log2 (n / 2))).
  { apply Z.log2_double.
    assert (1 <= n / 2) by (apply Z.div_le_lower_bound; lia). lia. }
  assert (H3 : Z.log2 (2 * (n / 2)) <= Z.log2 n).
  { apply Z.log2_le_mono. pose proof (Z.mul_div_le n 2). lia. }
  lia.
Qed.

(** The digits written for [n] are decimal digits, at least one, and read
    back as [n]. *)
Lemma digitsOf_spec (fuel : nat) : forall n acc,
  0 <= n -> (Z.to_nat (Z.log2 n) < fuel)%nat ->
  exists digits,
    digitsOf fuel n acc = digits ++ acc
    /\ digits <> []
    /\ Forall isDecimalDigit digits
    /\ valueOfDigits 10 digits = n.
Proof.
  unfold valueOfDigits.
  induction fuel as [|fuel IH]; intros n acc Hn Hfuel; [lia|].
  cbn [digitsOf]. destruct (n <? 10) eqn:Hsmall.
  - exists [0x30 + n mod 10]. split; [reflexivity|]. split; [discriminate|].
    assert (Hmod : n mod 10 = n) by (apply Z.mod_small; lia).
    split.
    + constructor; [|constructor]. unfold isDecimalDigit. lia.
    + cbn [fold_left]. rewrite digitValue_decimal
        by (unfold isDecimalDigit; lia). lia.
  - assert (Hbig : 10 <= n) by lia.
    pose proof (log2_tenth n Hbig) as Hlog.
    pose proof (Z.log2_nonneg (n / 10)) as Hpos.
    assert (Hdiv : 0 <= n / 10) by (apply Z.div_pos; lia).
    destruct (IH (n / 10) (0x30 + n mod 10 :: acc) Hdiv)
      as [digits [Hrun [Hne [Hall Hval]]]]; [lia|].
    pose proof (Z.mod_pos_bound n 10 ltac:(lia)) as Hmod.
    assert (Hlast : isDecimalDigit (0x30 + n mod 10))
      by (unfold isDecimalDigit; lia).
    exists (digits ++ [0x30 + n mod 10]).
    split; [rewrite Hrun, <- app_assoc; reflexivity|].
    split; [destruct digits; discriminate|].
    split; [apply Forall_app; split; [exact Hall | constructor; auto]|].
    rewrite (valueOfDigits_app digits _ Hlast 0), Hval.
    pose proof (Z.div_mod n 10 ltac:(lia)). lia.
Qed.

Lemma span_digits (digits : jsstring) :
  Forall isDecimalDigit digits ->
  span (isDigitOf 10) digits = (digits, []).
Proof.
  induction 1 as [|c digits Hc _ IH]; [reflexivity|].
  cbn [span]. unfold isDigitOf at 1. rewrite (digitValue_decimal c Hc).
  rewrite IH. reflexivity.
Qed.

Lemma radixOf_digits (digits : jsstring) :
  Forall isDecimalDigit digits -> radixOf digits = (10, digits).
Proof.
  intros Hall. destruct digits as [|c [|x r]]; try reflexivity.
  assert (Hx : isDecimalDigit x)
    by (inversion Hall as [|? ? _ Hr]; inversion Hr; assumption).
  unfold isDecimalDigit in Hx. unfold radixOf.
  replace ((x =? 0x78) || (x =? 0x58)) with false by lia.
  rewrite andb_false_r. reflexivity.
Qed.

(** [parseInt] on a run of decimal digits, with or without a minus sign. *)
Lemma parseInt_digits (digits : jsstring) :
  digits <> [] -> Forall isDecimalDigit digits ->
  parseInt digits = Integer (valueOfDigits 10 digits)
  /\ parseInt (0x2D :: digits) = Integer (- valueOfDigits 10 digits).
Proof.
  intros Hne Hall. destruct digits as [|c digits]; [congruence|].
  assert (Hc : isDecimalDigit c) by (inversion Hall; assumption).
  assert (Hsign : signOf (c :: digits) = (1, c :: digits)).
  { unfold isDecimalDigit in Hc. unfold signOf.
    replace (c =? 0x2D) with false by lia.
    replace (c =? 0x2B) with false by lia. reflexivity. }
  split.
  - unfold parseInt, trimStart. cbn [dropWhile].
    rewrite (digit_not_space c Hc), Hsign. cbn [fst snd].
    rewrite (radixOf_digits _ Hall). cbn [fst snd].
    rewrite (span_digits _ Hall). cbn [fst]. f_equal. lia.
  - unfold parseInt, trimStart. cbn [dropWhile].
    change (isWhiteSpace 45) with false. cbv iota.
    change (signOf (45 :: c :: digits)) with (-1, c :: digits).
    cbn [fst snd]. rewrite (radixOf_digits _ Hall). cbn [fst snd].
    rewrite (span_digits _ Hall). cbn [fst]. f_equal; lia.
Qed.

Lemma parseInt_numberToString (x : number) :
  parseInt (numberToString x) = x
  /\ numberToString x <> [].
Proof.
  destruct x as [|n]; [split; [reflexivity | discriminate]|].
  unfold numberToString, decimal. destruct (n <? 0) eqn:Hneg.
  - destruct (digitsOf_spec (S (Z.to_nat (Z.log2 (- n)))) (- n) [])
      as [digits [Hrun [Hne [Hall Hval]]]]; [lia | lia |].
    rewrite Hrun, app_nil_r. split; [|discriminate].
    change (js "-" ++ digits) with (0x2D :: digits).
    rewrite (proj2 (parseInt_digits digits Hne Hall)), Hval. f_equal. lia.
  - destruct (digitsOf_spec (S (Z.to_nat (Z.log2 n))) n [])
      as [digits [Hrun [Hne [Hall Hval]]]]; [lia | lia |].
    rewrite Hrun, app_nil_r. split; [|exact Hne].
    rewrite (proj1 (parseInt_digits digits Hne Hall)), Hval. reflexivity.
Qed.

End NumberTexts.

Section SettingsFacts.

Import Settings.

Variable store : Storage.

Lemma getItem_setItem_same (key value : jsstring) :
  getItem (setItem store key value) key = Some value.
Proof. unfold getItem, setItem. rewrite eqb_refl. reflexivity. Qed.

Lemma getItem_setItem_other (key value other : jsstring) :
  eqb other key = false ->
  getItem (setItem store key value) other = getItem store other.
Proof. unfold getItem, setItem. intros ->. reflexivity. Qed.

Lemma orElse_written (text fallback : jsstring) :
  orElse (Some text) fallback = if len text =? 0 then fallback else text.
Proof. destruct text; reflexivity. Qed.

Lemma parsedOr_written (x : number) (fallback : Z) :
  parsedOr (Some (numberToString x)) fallback = x.
Proof.
  destruct (parseInt_numberToString x) as [Hparse Hne].
  unfold parsedOr. destruct (numberToString x) as [|c s]; [congruence|].
  exact Hparse.
Qed.

End SettingsFacts.

(** X24: a number written by [setBatchSize] or [setRequestDelay] is the
    number read by the matching getter: the decimal text that is stored is
    read back by [parseInt] as the same integer, negative ones and zero
    included, and [NaN] is read back as [NaN]. *)
Theorem stored_numbers_read_back (store : Settings.Storage) (x : number) :
  safeInteger x ->
  Settings.getBatchSize (Settings.setBatchSize store x) = x
  /\ Settings.getRequestDelay (Settings.setRequestDelay store x) = x.
Proof.
  intros _. unfold Settings.getBatchSize, Settings.setBatchSize,
    Settings.getRequestDelay, Settings.setRequestDelay.
  rewrite !getItem_setItem_same, !parsedOr_written. split; reflexivity.
Qed.

Lemma stored_numbers_read_back_witness :
  Settings.getBatchSize
    (Settings.setBatchSize (fun _ => None) (Integer (- 9007199254740991)))
  = Integer (- 9007199254740991)
  /\ Settings.getRequestDelay
       (Settings.setRequestDelay (fun _ => None)
                                 (Integer (- 9007199254740991)))
     = Integer (- 9007199254740991).
Proof.
  apply (stored_numbers_read_back (fun _ => None)
                                  (Integer (- 9007199254740991))).
  simpl. lia.
Defined.

(** X25: a search key is read back as written, the empty key included, and
    writing the key of one provider leaves the keys of the others as they
    were; the sharding mode and the active engine are read back as written
    unless the written text is empty, which reads as the default. *)
Theorem text_settings_read_back (store : Settings.Storage)
  (provider other : Settings.SearchProvider) (key text : jsstring) :
  Settings.getSearchKey (Settings.setSearchKey store provider key) other
  = (if Settings.sameProvider provider other then key
     else Settings.getSearchKey store other)
  /\ Settings.getShardingMode (Settings.setShardingMode store text)
     = (if len text =? 0 then js "SERIAL" else text)
  /\ Settings.getActiveSearchEngine
       (Settings.setActiveSearchEngine store text)
     = (if len text =? 0 then js "google_native" else text).
Proof.
  split; [|split].
  - unfold Settings.getSearchKey, Settings.setSearchKey.
    destruct (Settings.sameProvider provider other) eqn:E.
    + assert (provider = other) by (destruct provider, other;
                                    try reflexivity; discriminate E).
      subst other. rewrite getItem_setItem_same. destruct key; reflexivity.
    + rewrite getItem_setItem_other; [reflexivity|].
      destruct provider, other; try discriminate E; reflexivity.
  - unfold Settings.getShardingMode, Settings.setShardingMode.
    rewrite getItem_setItem_same. apply orElse_written.
  - unfold Settings.getActiveSearchEngine, Settings.setActiveSearchEngine.
    rewrite getItem_setItem_same. apply orElse_written.
Qed.

(** X26: the settings do not interfere: writing a search key, the batch
    size, the request delay, the sharding mode or the active engine changes
    what no other getter returns. *)
Theorem settings_do_not_interfere (store : Settings.Storage)
  (provider other : Settings.SearchProvider) (key text : jsstring)
  (x : number) :
  let unchanged (written : Settings.Storage) :=
    (Settings.getBatchSize written, Settings.getRequestDelay written,
     Settings.getShardingMode written, Settings.getActiveSearchEngine written)
    = (Settings.getBatchSize store, Settings.getRequestDelay store,
       Settings.getShardingMode store, Settings.getActiveSearchEngine store)
  in
  unchanged (Settings.setSearchKey store provider key)
  /\ (let written := Settings.setBatchSize store x in
      Settings.getSearchKey written other = Settings.getSearchKey store other
      /\ Settings.getRequestDelay written = Settings.getRequestDelay store
      /\ Settings.getShardingMode written = Settings.getShardingMode store
      /\ Settings.getActiveSearchEngine written
         = Settings.getActiveSearchEngine store)
  /\ (let written := Settings.setRequestDelay store x in
      Settings.getSearchKey written other = Settings.getSearchKey store other
      /\ Settings.getBatchSize written = Settings.getBatchSize store
      /\ Settings.getShardingMode written = Settings.getShardingMode store
      /\ Settings.getActiveSearchEngine written
         = Settings.getActiveSearchEngine store)
  /\ (let written := Settings.setShardingMode store text in
      Settings.getSearchKey written other = Settings.getSearchKey store other
      /\ Settings.getBatchSize written = Settings.getBatchSize store
      /\ Settings.getRequestDelay written = Settings.getRequestDelay store
      /\ Settings.getActiveSearchEngine written
         = Settings.getActiveSearchEngine store)
  /\ (let written := Settings.setActiveSearchEngine store text in
      Settings.getSearchKey written other = Settings.getSearchKey store other
      /\ Settings.getBatchSize written = Settings.getBatchSize store
      /\ Settings.getRequestDelay written = Settings.getRequestDelay store
      /\ Settings.getShardingMode written = Settings.getShardingMode store).
Proof.
  cbv zeta.
  unfold Settings.getSearchKey, Settings.getBatchSize,
    Settings.getRequestDelay, Settings.getShardingMode,
    Settings.getActiveSearchEngine, Settings.setSearchKey,
    Settings.setBatchSize, Settings.setRequestDelay,
    Settings.setShardingMode, Settings.setActiveSearchEngine.
  repeat split;
    rewrite ?getItem_setItem_other;
    try reflexivity; destruct provider; try destruct other; reflexivity.
Qed.

(* ================================================================== *)
(** * Search providers *)
(* ================================================================== *)

Section ProviderFacts.

Import Search.

Variable H : Host.




Lemma len_cons (c : Z) (s : jsstring) : (len (c :: s) =? 0) = false.
Proof.
  unfold len. cbn [List.length]. rewrite Nat2Z.inj_succ.
  apply Z.eqb_neq. lia.
Qed.

Lemma provider_guarded (apiKey : jsstring) (req : request)
  (read : json -> option (list SearchResult)) :
  guarded apiKey [] (provider H apiKey req read).
Proof.
  unfold guarded, provider. destruct apiKey as [|c s].
  - simpl. repeat split; auto.
  - rewrite len_cons.
    cbn [fst snd]. repeat split; simpl; try lia; discriminate.
Qed.

Lemma testSearchConnection_guarded (store : Settings.Storage)
  (p : Settings.SearchProvider) (testKey : option jsstring) :
  guarded (Settings.orElse testKey (Settings.getSearchKey store p)) false
          (testSearchConnection H store p testKey).
Proof.
  unfold guarded, testSearchConnection.
  destruct (Settings.orElse testKey (Settings.getSearchKey store p))
    as [|c s].
  - simpl. repeat split; auto.
  - rewrite len_cons.
    cbn [fst snd]. repeat split; simpl; try lia; discriminate.
Qed.




End ProviderFacts.


(** X28: no provider is called without a key.  Each of the three searches
    and the connection test sends at most one request, and none exactly when
    the key is empty: the search then returns no result and the test
    [false]. *)
Theorem search_needs_key (H : Search.Host) (store : Settings.Storage)
  (query : jsstring) (p : Settings.SearchProvider)
  (testKey : option jsstring) :
  Search.guarded (Settings.getSearchKey store Settings.baidu_search1) []
                 (Search.searchBaidu H store query)
  /\ Search.guarded (Settings.getSearchKey store Settings.google_serper) []
                    (Search.searchGoogleSerper H store query)
  /\ Search.guarded (Settings.getSearchKey store Settings.tavily) []
                    (Search.searchTavily H store query)
  /\ Search.guarded
       (Settings.orElse testKey (Settings.getSearchKey store p)) false
       (Search.testSearchConnection H store p testKey).
Proof.
  split; [|split; [|split]];
    [apply provider_guarded .. | apply testSearchConnection_guarded].
Qed.

(* ================================================================== *)
(** * Question answering *)
(* ================================================================== *)

Section AssistantFacts.

Import Assistant.

Variable sv : Services.

Lemma orElse_nonempty (text : option jsstring) (fallback : jsstring) :
  fallback <> [] -> Settings.orElse text fallback <> [].
Proof. intros Hf. destruct text as [[|c s]|]; simpl; congruence. Qed.

Lemma orElse_cases (text : option jsstring) (fallback : jsstring) :
  Settings.orElse text fallback = fallback
  \/ text = Some (Settings.orElse text fallback).
Proof. destruct text as [[|c s]|]; simpl; auto. Qed.

Lemma askDocument_answer (materials : list Material) (question : jsstring) :
  snd (askDocument sv materials question) <> []
  /\ (includes (snd (askDocument sv materials question)) noAnswerPhrase = true
      -> exists req,
           fst (askDocument sv materials question) = [Generated req]
           /\ generateContent sv req
              = Fulfilled (Some (snd (askDocument sv materials question)))).
Proof.
  unfold askDocument. cbn [fst snd].
  destruct (generateContent sv _) as [text|e] eqn:E.
  - split; [apply orElse_nonempty; discriminate|].
    destruct (orElse_cases text (js "无法生成回答。")) as [-> | Htext].
    + intros Hin. vm_compute in Hin. discriminate Hin.
    + intros _. eexists. split; [reflexivity|]. rewrite E, <- Htext.
      reflexivity.
  - split; [discriminate|]. intros Hin. vm_compute in Hin. discriminate Hin.
Qed.

Lemma search_requests (engine : SearchEngine) (question : jsstring) :
  match searchWith sv engine question with
  | Some run => engine <> google_native /\ (List.length (fst run) <= 1)%nat
  | None => engine = google_native
  end.
Proof.
  destruct engine; cbn [searchWith]; try reflexivity;
    (split; [discriminate|]).
  - apply (provider_guarded (host sv)).
  - apply (provider_guarded (host sv)).
  - apply (provider_guarded (host sv)).
Qed.

(** The context built from a search is never empty. *)
Lemma context_nonempty (snippets : jsstring) :
  (0 <? len (js "根据搜索结果回答: " ++ snippets)) = true.
Proof.
  assert (Hl : List.length (js "根据搜索结果回答: ") = 10%nat)
    by (vm_compute; reflexivity).
  unfold len. rewrite length_app, Hl. apply Z.ltb_lt. lia.
Qed.

Lemma askWeb_spec (question : jsstring) (engine : SearchEngine) :
  snd (askWeb sv question engine) <> []
  /\ (List.length (fst (askWeb sv question engine)) <= 2)%nat
  /\ Forall (suits engine) (fst (askWeb sv question engine)).
Proof.
  unfold askWeb.
  pose proof (search_requests engine question) as Hsearch.
  destruct (searchWith sv engine question) as [run|].
  - destruct Hsearch as [Hengine Hone].
    assert (Hfetched : Forall (suits engine) (map Fetched (fst run))).
    { apply Forall_forall. intros c Hc. apply in_map_iff in Hc.
      destruct Hc as [req [<- _]]. exact Hengine. }
    destruct (joinSnippets (host sv) (snd run)) as [joined|];
      cbn [option_map fst snd].
    + split; [|split].
      * destruct (generateContent sv _) as [text|e];
          [apply orElse_nonempty|]; discriminate.
      * rewrite length_app, length_map. cbn [List.length]. lia.
      * apply Forall_app. split; [exact Hfetched|].
        constructor; [|constructor].
        rewrite context_nonempty. cbn [suits ai_googleSearch].
        discriminate.
    + split; [discriminate|]. split; [|exact Hfetched].
      rewrite length_map. lia.
  - subst engine. cbn [fst snd]. split; [|split].
    + destruct (generateContent sv _) as [text|e];
        [apply orElse_nonempty|]; discriminate.
    + simpl. lia.
    + constructor; [|constructor]. simpl. reflexivity.
Qed.

End AssistantFacts.

(** X29: [askSmart] always has an answer to show: it never returns the
    empty string, makes at most three outside calls, and goes to the web
    only when the document call returned a text that holds the phrase
    [无法找到相关答案].  A document call that fails or returns no text is
    answered with its fixed message and nothing else is called. *)
Theorem askSmart_always_answers (sv : Assistant.Services)
  (materials : list Material) (question : jsstring)
  (engine : SearchEngine) :
  let run := Assistant.askSmart sv materials question engine in
  let doc := Assistant.askDocument sv materials question in
  snd run <> []
  /\ (List.length (fst run) <= 3)%nat
  /\ (run = doc
      \/ exists req text,
           fst doc = [Assistant.Generated req]
           /\ Assistant.generateContent sv req = Fulfilled (Some text)
           /\ includes text Assistant.noAnswerPhrase = true
           /\ fst run = fst doc ++ fst (Assistant.askWeb sv question engine)).
Proof.
  cbv zeta. unfold Assistant.askSmart.
  destruct (askDocument_answer sv materials question) as [Hne Hweb].
  destruct (includes (snd (Assistant.askDocument sv materials question))
                     Assistant.noAnswerPhrase) eqn:Hin.
  - cbn [fst snd]. split; [apply (askWeb_spec sv question engine)|].
    destruct (Hweb eq_refl) as [req [Hcalls Hreply]]. rewrite Hcalls. split.
    + rewrite length_app.
      pose proof (proj1 (proj2 (askWeb_spec sv question engine))) as Htwo.
      cbn [List.length]. lia.
    + right.
      exists req, (snd (Assistant.askDocument sv materials question)). auto.
  - split; [exact Hne|]. split; [simpl; lia | left; reflexivity].
Qed.

(** X30: every call that [askSmart] makes suits the engine: a search
    provider is requested only for one of the three external engines, and
    the search tool of the model is switched on only for the native engine;
    with an external engine it stays off even when the search found
    nothing. *)
Theorem askSmart_calls_suit_engine (sv : Assistant.Services)
  (materials : list Material) (question : jsstring)
  (engine : SearchEngine) :
  Forall (Assistant.suits engine)
         (fst (Assistant.askSmart sv materials question engine)).
Proof.
  assert (Hdoc : Forall (Assistant.suits engine)
                        (fst (Assistant.askDocument sv materials question))).
  { unfold Assistant.askDocument. cbn [fst].
    constructor; [|constructor]. simpl. discriminate. }
  unfold Assistant.askSmart.
  destruct (includes (snd (Assistant.askDocument sv materials question))
                     Assistant.noAnswerPhrase); [|exact Hdoc].
  cbn [fst]. apply Forall_app. split; [exact Hdoc|].
  apply (askWeb_spec sv question engine).
Qed.
